(** * mcp-chrome-connector: security validator and browser manager

    A shallow embedding of [src/security/validator.ts] (class
    [SecurityValidator]), [src/browser/manager.ts] (class [BrowserManager])
    and [src/tools/content.ts], with the properties of the specification
    checked against them.

    Conventions.
    - A JavaScript string is the list of its UTF-16 code units ([jsstring]);
      [s.length] is [length s].
    - A JavaScript number is modelled by an integer ([Z]): the numbers the
      code handles are pixel sizes, milliseconds and HTTP status codes.  A
      number is falsy exactly when it is [0].
    - An optional property is an [option]; [a || b] on such a property is
      [or_str] / [or_num].
    - The platform and third-party libraries ([URL], [Joi]'s message
      rendering, Playwright, the clock, [Math.random]) are parameters. *)

From Stdlib Require Import String Ascii DecimalString ZArith NArith Bool Arith Lia List.
Import ListNotations.

Set Implicit Arguments.

(* ================================================================== *)
(** ** JavaScript strings *)

Module JS.

Definition jsstring := list N.

(** Code units of a literal. *)
Fixpoint str (s : string) : jsstring :=
  match s with
  | EmptyString => []
  | String a s' => N_of_ascii a :: str s'
  end.

Definition eqb (a b : jsstring) : bool :=
  if list_eq_dec N.eq_dec a b then true else false.

(** [s.startsWith(p)] *)
Fixpoint startsWith (s p : jsstring) {struct p} : bool :=
  match p, s with
  | [], _ => true
  | c :: p', x :: s' => N.eqb x c && startsWith s' p'
  | _ :: _, [] => false
  end.

(** [s.includes(p)] *)
Fixpoint includes (s p : jsstring) : bool :=
  startsWith s p ||
  match s with
  | [] => false
  | _ :: s' => includes s' p
  end.

(** [s.endsWith(p)] *)
Definition endsWith (s p : jsstring) : bool :=
  startsWith (rev s) (rev p).

(** WhiteSpace and LineTerminator code units: what [\s] matches and what
    [trim] removes. *)
Definition is_space (c : N) : bool :=
  existsb (N.eqb c)
    [9; 10; 11; 12; 13; 32; 160; 5760; 8232; 8233; 8239; 8287; 12288; 65279]%N
  || (N.leb 8192 c && N.leb c 8202).

(** LineTerminator code units: what [.] does not match. *)
Definition is_line_terminator (c : N) : bool :=
  existsb (N.eqb c) [10; 13; 8232; 8233]%N.

Fixpoint trimStart (s : jsstring) : jsstring :=
  match s with
  | c :: s' => if is_space c then trimStart s' else s
  | [] => []
  end.

Definition trimEnd (s : jsstring) : jsstring := rev (trimStart (rev s)).

(** [s.trim()] *)
Definition trim (s : jsstring) : jsstring := trimEnd (trimStart s).

(** [a || b] where [a] is an optional string: [undefined] and [''] are
    falsy. *)
Definition or_str (a : option jsstring) (b : jsstring) : jsstring :=
  match a with
  | Some (c :: s) => c :: s
  | _ => b
  end.

(** [a || b] where [a] is an optional number: [undefined] and [0] are
    falsy. *)
Definition or_num (a : option Z) (b : Z) : Z :=
  match a with
  | Some 0%Z | None => b
  | Some z => z
  end.

(** Truthiness of an optional string / number / boolean. *)
Definition truthy_str (a : option jsstring) : bool :=
  match a with Some (_ :: _) => true | _ => false end.

Definition truthy_num (a : option Z) : bool :=
  match a with Some 0%Z | None => false | Some _ => true end.

Definition truthy_bool (a : option bool) : bool :=
  match a with Some true => true | _ => false end.

(** Decimal rendering of a non-negative integer, as a template literal
    renders it. *)
Definition decimal (n : N) : jsstring :=
  str (NilEmpty.string_of_uint (N.to_uint n)).

End JS.

Import JS.

(* ================================================================== *)
(** ** Regular expressions

    The regular expressions of the source are all flat: a sequence of
    single-character matchers, each taken once, or under [*] / [*?]
    (possibly as a capturing group), with [^] and [$] assertions.  The
    matcher below is the backtracking matcher of the language: a greedy star
    tries the longest repetition first, a lazy star the shortest. *)

Module Regex.

(** A member of a bracketed class. *)
Inductive part :=
| PChar (c : N)
| PRange (lo hi : N)
| PSpace.

(** What a single position matches. *)
Inductive cls :=
| Ch (c : N)
| Dot
| Space
| Class (neg : bool) (ps : list part).

Inductive item :=
| One (c : cls)
| Star (greedy capture : bool) (c : cls)
| Bol
| Eol.

Record regex := mkRegex { items : list item; ignoreCase : bool }.

Definition upper (x : N) : N :=
  if (N.leb 97 x && N.leb x 122)%bool then (x - 32)%N else x.

Definition lower (x : N) : N :=
  if (N.leb 65 x && N.leb x 90)%bool then (x + 32)%N else x.

(** Canonicalize of the language, without the unicode flag.  Above the ASCII
    range the real function may map a code unit to another code unit above
    the ASCII range, never into it; every character of every pattern of the
    source is ASCII, so such a code unit is compared with ASCII characters
    only and the identity is exact for these comparisons. *)
Definition canon (i : bool) (x : N) : N := if i then upper x else x.

Definition in_range (lo hi x : N) : bool := (N.leb lo x && N.leb x hi)%bool.

Definition part_in (i : bool) (x : N) (p : part) : bool :=
  match p with
  | PChar c => N.eqb (canon i x) (canon i c)
  | PRange lo hi =>
      in_range lo hi x
      || (i && (in_range lo hi (upper x) || in_range lo hi (lower x)))
  | PSpace => is_space x
  end.

Definition cls_in (i : bool) (c : cls) (x : N) : bool :=
  match c with
  | Ch c => N.eqb (canon i x) (canon i c)
  | Dot => negb (is_line_terminator x)
  | Space => is_space x
  | Class neg ps => xorb neg (existsb (part_in i x) ps)
  end.

(** A starred matcher followed by the rest of the pattern [k]: the text
    taken by the star, then what [k] gives, the count including the text of
    the star.  [more] takes one more code unit, [stop] hands over to [k]. *)
Fixpoint star_at (i : bool) (c : cls) (greedy : bool)
  (k : bool -> jsstring -> option (list jsstring * nat))
  (bol : bool) (s : jsstring) {struct s}
  : option (jsstring * list jsstring * nat) :=
  let stop (_ : unit) :=
    match k bol s with
    | Some (caps, n) => Some ([], caps, n)
    | None => None
    end in
  let more (_ : unit) :=
    match s with
    | x :: s' =>
        if cls_in i c x
        then match star_at i c greedy k false s' with
             | Some (e, caps, n) => Some (x :: e, caps, S n)
             | None => None
             end
        else None
    | [] => None
    end in
  if greedy
  then match more tt with Some r => Some r | None => stop tt end
  else match stop tt with Some r => Some r | None => more tt end.

(** [exec_at i p bol s]: match pattern [p] at the beginning of [s]; [bol]
    tells whether [s] is the whole input.  The result is the list of
    captured groups and the number of code units consumed. *)
Fixpoint exec_at (i : bool) (p : list item) (bol : bool) (s : jsstring)
  {struct p} : option (list jsstring * nat) :=
  match p with
  | [] => Some ([], 0)
  | Bol :: p' => if bol then exec_at i p' bol s else None
  | Eol :: p' => match s with [] => exec_at i p' bol s | _ :: _ => None end
  | One c :: p' =>
      match s with
      | x :: s' =>
          if cls_in i c x
          then match exec_at i p' false s' with
               | Some (caps, n) => Some (caps, S n)
               | None => None
               end
          else None
      | [] => None
      end
  | Star greedy cap c :: p' =>
      match star_at i c greedy (exec_at i p') bol s with
      | Some (e, caps, n) => Some (if cap then e :: caps else caps, n)
      | None => None
      end
  end.

(** [re.test(s)] for a regular expression without the global flag. *)
Fixpoint search (i : bool) (p : list item) (bol : bool) (s : jsstring) : bool :=
  match exec_at i p bol s with
  | Some _ => true
  | None =>
      match s with
      | _ :: s' => search i p false s'
      | [] => false
      end
  end.

Definition test (r : regex) (s : jsstring) : bool :=
  search (ignoreCase r) (items r) true s.

(** Replacement templates: text and [$k]. *)
Inductive tpl :=
| TLit (s : jsstring)
| TGroup (k : nat).

Definition expand (t : list tpl) (caps : list jsstring) : jsstring :=
  concat (map (fun x => match x with
                        | TLit s => s
                        | TGroup k => nth (pred k) caps []
                        end) t).

(** [s.replace(re, t)] for a regular expression with the global flag: every
    match, leftmost first, without overlap; after an empty match the scan
    moves one code unit on.  [skip] counts the code units of the current
    match still to be dropped. *)
Fixpoint replace_from (i : bool) (p : list item) (t : list tpl)
  (bol : bool) (s : jsstring) (skip : nat) {struct s} : jsstring :=
  match skip with
  | S k =>
      match s with
      | _ :: s' => replace_from i p t false s' k
      | [] => []
      end
  | O =>
      match exec_at i p bol s with
      | Some (caps, n) =>
          expand t caps ++
          match s with
          | x :: s' =>
              match n with
              | O => x :: replace_from i p t false s' 0
              | S k => replace_from i p t false s' k
              end
          | [] => []
          end
      | None =>
          match s with
          | x :: s' => x :: replace_from i p t false s' 0
          | [] => []
          end
      end
  end.

Definition replace (r : regex) (t : list tpl) (s : jsstring) : jsstring :=
  replace_from (ignoreCase r) (items r) t true s 0.

(** Building patterns. *)
Definition lit (s : string) : list item := map (fun c => One (Ch c)) (str s).
Definition ws_star : list item := [Star true false Space].
Definition not_ch (c : N) : cls := Class true [PChar c].

End Regex.

Import Regex.

(* ================================================================== *)
(** ** [SecurityValidator] (src/security/validator.ts) *)

Module Validator.

Record SecurityConfig := mkSecurityConfig {
  allowedDomains : option (list jsstring);
  blockedDomains : option (list jsstring);
  maxExecutionTime : option Z;
  maxMemoryUsage : option Z;
  enableSandbox : option bool
}.

(** The properties of a [URL] object that the code reads. *)
Record URL := mkURL {
  protocol : jsstring;
  hostname : jsstring;
  origin : jsstring
}.

(** [{ valid: boolean; error?: string }] *)
Record Validation := mkValidation {
  valid : bool;
  error : option jsstring
}.

Definition accept : Validation := mkValidation true None.
Definition reject (msg : jsstring) : Validation := mkValidation false (Some msg).

(** The failures of a [Joi.string()] schema with [max] and [pattern]. *)
Inductive JoiError :=
| StringEmpty
| StringMax (limit : N)
| StringPatternBase.

(** [Joi.string().max(limit).pattern(re).required()] applied to a string;
    [allowEmpty] is [.allow('')].  Without it the empty string is refused;
    the rules are checked in the order they are declared and the first
    failure is reported. *)
Definition joi_string (limit : N) (pattern : option regex)
  (allowEmpty : bool) (s : jsstring) : option JoiError :=
  match s with
  | [] => if allowEmpty then None else Some StringEmpty
  | _ :: _ =>
      if N.ltb limit (N.of_nat (length s)) then Some (StringMax limit)
      else match pattern with
           | Some re => if test re s then None else Some StringPatternBase
           | None => None
           end
  end.

Definition dquote : N := 34%N.

(** The pattern of the selector schema: one or more characters, from the
    beginning to the end of the input, each a letter, a digit, white space
    or one of - _ [ ] = ' (double quote) . : > # , ( ) *)
Definition selectorChars : cls :=
  Class false
    ([PRange 97 122; PRange 65 90; PRange 48 57; PSpace]
     ++ map PChar (str "-_[]='" ++ [dquote] ++ str ".:>#,()")).

Definition selectorPattern : regex :=
  mkRegex [Bol; One selectorChars; Star true false selectorChars; Eol] false.

(** The [dangerousPatterns] of [validateSelector]. *)
Definition dangerousSelectorPatterns : list regex :=
  [ mkRegex (lit "javascript:") true;
    mkRegex (lit "expression(") true;
    mkRegex (lit "script:") true;
    mkRegex (lit "vbscript:") true;
    mkRegex (lit "onload=") true;
    mkRegex (lit "onerror=") true ].

(** The [dangerousPatterns] of [validateScript]. *)
Definition dangerousScriptPatterns : list regex :=
  [ mkRegex (lit "eval" ++ ws_star ++ lit "(") true;
    mkRegex (lit "Function" ++ ws_star ++ lit "(") true;
    mkRegex (lit "setTimeout" ++ ws_star ++ lit "(") true;
    mkRegex (lit "setInterval" ++ ws_star ++ lit "(") true;
    mkRegex (lit "document.write") true;
    mkRegex (lit "innerHTML" ++ ws_star ++ lit "=") true;
    mkRegex (lit "outerHTML" ++ ws_star ++ lit "=") true;
    mkRegex (lit "location" ++ ws_star ++ lit "=") true;
    mkRegex (lit "window" ++ ws_star ++ lit ".") true;
    mkRegex (lit "document.cookie") true;
    mkRegex (lit "localStorage") true;
    mkRegex (lit "sessionStorage") true ].

Definition allowedProtocols : list jsstring := [str "http:"; str "https:"].

Section SecurityValidator.

(** [new URL(url)]: the object, or the rendering [String(error)] of the
    [TypeError] it throws. *)
Variable URL_new : jsstring -> jsstring + URL.

(** [error.message] of a Joi validation error for a given value. *)
Variable joi_message : JoiError -> jsstring -> jsstring.

(** [this.config] *)
Variable config : SecurityConfig.

Definition validateUrl (url : jsstring) : Validation :=
  match URL_new url with
  | inl e => reject (str "Invalid URL format: " ++ e)
  | inr urlObj =>
      if match blockedDomains config with
         | Some bl => existsb (fun blockedDomain => includes (hostname urlObj) blockedDomain) bl
         | None => false
         end
      then reject (str "Domain " ++ hostname urlObj ++ str " is blocked")
      else
        if match allowedDomains config with
           | Some (d :: l) =>
               negb (existsb (fun domain => includes (hostname urlObj) domain) (d :: l))
           | _ => false
           end
        then reject (str "Domain " ++ hostname urlObj ++ str " is not in allowed list")
        else
          if negb (existsb (eqb (protocol urlObj)) allowedProtocols)
          then reject (str "Protocol " ++ protocol urlObj ++ str " is not allowed")
          else accept
  end.

Definition validateSelector (selector : jsstring) : Validation :=
  match joi_string 1000 (Some selectorPattern) false selector with
  | Some e => reject (str "Invalid selector: " ++ joi_message e selector)
  | None =>
      if existsb (fun pattern => test pattern selector) dangerousSelectorPatterns
      then reject (str "Selector contains potentially dangerous content")
      else accept
  end.

Definition validateScript (script : jsstring) : Validation :=
  match joi_string 10000 None false script with
  | Some e => reject (str "Invalid script: " ++ joi_message e script)
  | None =>
      if existsb (fun pattern => test pattern script) dangerousScriptPatterns
      then reject (str "Script contains potentially dangerous operations")
      else accept
  end.

Definition validateInputText (text : jsstring) : Validation :=
  match joi_string 10000 None true text with
  | Some e => reject (str "Invalid input text: " ++ joi_message e text)
  | None => accept
  end.

End SecurityValidator.

Definition defaultSecurityConfig : SecurityConfig :=
  mkSecurityConfig
    (Some [])
    (Some [str "localhost"; str "127.0.0.1"; str "0.0.0.0"; str "file://"; str "ftp://"])
    (Some 30000%Z) (Some 512%Z) (Some true).

End Validator.

Import Validator.

(* ================================================================== *)
(** ** [BrowserManager] (src/browser/manager.ts) *)

Module Manager.

(** Identity of a browser, context or page object. *)
Definition handle := nat.

Record Viewport := mkViewport { width : Z; height : Z }.

Record BrowserConfig := mkBrowserConfig {
  headless : option bool;
  viewport : option Viewport;
  timeout : option Z;
  userDataDir : option jsstring;
  args : option (list jsstring)
}.

Record BrowserSession := mkSession {
  id : jsstring;
  context : handle;
  page : handle;
  createdAt : Z;
  lastActivity : Z;
  config : BrowserConfig
}.

Record Clip := mkClip {
  clip_x : Z;
  clip_y : Z;
  clip_width : Z;
  clip_height : Z
}.

(** The options object handed to Playwright's [screenshot]. *)
Record ScreenshotOptions := mkScreenshotOptions {
  so_type : jsstring;
  so_fullPage : bool;
  so_quality : option Z;
  so_clip : option Clip
}.

(** The functions the manager evaluates inside the page. *)
Inductive PageFunction :=
| ScrollBy (distance : Z)
| ScrollToTop
| BodyInnerText
| BodyTextContent
| DocumentOuterHTML
| RebuiltDocument
| ReadyState
| ErrorTexts
| WordPressReady.

(** The operations of a locator. *)
Inductive LocatorOp :=
| LWaitFor (timeout : Z)
| LClick (force : option bool) (timeout : option Z)
| LFill (value : jsstring)
| LSelectOption (value : jsstring)
| LHover
| LFocus
| LClear
| LTagName
| LTextContent
| LInputValue
| LInnerHTML
| LCount
| LScreenshot (opts : ScreenshotOptions).

(** The calls the manager makes on the browser capability (and on the
    timer), with the objects they are made on. *)
Inductive call :=
| Launch (headless : bool) (args : list jsstring)
| NewContext (browser : handle) (viewport : Viewport)
| NewPage (context : handle)
| EvaluateOnNewDocument (page : handle)
| Goto (page : handle) (url waitUntil : jsstring) (timeout : Z)
| Title (page : handle)
| Url (page : handle)
| WaitForLoadState (page : handle) (state : jsstring) (timeout : Z)
| WaitForSelector (page : handle) (selector : jsstring) (timeout : Z)
| RaceWaitForSelector (page : handle) (selectors : list jsstring) (timeout : Z)
| MouseMove (page : handle) (x y : Z)
| Evaluate (page : handle) (f : PageFunction)
| Content (page : handle)
| PageTextContent (page : handle) (selector : jsstring)
| PageScreenshot (page : handle) (opts : ScreenshotOptions)
| Locator (page : handle) (selector : jsstring)
| OnLocator (page : handle) (selector : jsstring) (op : LocatorOp)
| ContextClose (context : handle)
| BrowserClose (browser : handle)
| Sleep (ms : Z).

(** What a call gives back. *)
Inductive jsvalue :=
| VUndefined
| VString (s : jsstring)
| VNumber (z : Z).

Inductive outcome :=
| Returns (v : jsvalue)
| Raises (message : jsstring).

(** The environment of the manager: the browser capability answers a call
    given the calls made so far; the clock and the random generator are read
    in sequence. *)
Record Env := mkEnv {
  answer : list call -> call -> outcome;
  clock : nat -> Z;
  random : nat -> Z -> Z;
  random36 : nat -> jsstring
}.

(** The state of a manager and of its environment. *)
Record World := mkWorld {
  browser : option handle;
  sessions : list (jsstring * BrowserSession);
  trace : list call;
  next_handle : handle;
  ticks : nat
}.

Definition initial : World := mkWorld None [] [] 0 0.

(** *** The insertion-ordered [Map] of sessions *)

Fixpoint map_get {V} (k : jsstring) (m : list (jsstring * V)) : option V :=
  match m with
  | [] => None
  | (k', v) :: m' => if eqb k k' then Some v else map_get k m'
  end.

Definition map_has {V} (k : jsstring) (m : list (jsstring * V)) : bool :=
  match map_get k m with Some _ => true | None => false end.

(** [m.set(k, v)]: an existing key keeps its place. *)
Fixpoint map_set {V} (k : jsstring) (v : V) (m : list (jsstring * V))
  : list (jsstring * V) :=
  match m with
  | [] => [(k, v)]
  | (k', v') :: m' => if eqb k k' then (k, v) :: m' else (k', v') :: map_set k v m'
  end.

Fixpoint map_delete {V} (k : jsstring) (m : list (jsstring * V))
  : list (jsstring * V) :=
  match m with
  | [] => []
  | (k', v') :: m' => if eqb k k' then m' else (k', v') :: map_delete k m'
  end.

(** *** Computations: state, and exceptions carrying their message *)

Inductive result (A : Type) :=
| Ok (a : A)
| Throw (message : jsstring).

Arguments Ok {A} a.
Arguments Throw {A} message.

Definition M (A : Type) := World -> result A * World.

Definition ret {A} (a : A) : M A := fun w => (Ok a, w).

Definition throw {A} (message : jsstring) : M A := fun w => (Throw message, w).

Definition bind {A B} (m : M A) (k : A -> M B) : M B :=
  fun w =>
    match m w with
    | (Ok a, w') => k a w'
    | (Throw e, w') => (Throw e, w')
    end.

(** [try { m } catch (error) { h(error) }] *)
Definition try_catch {A} (m : M A) (h : jsstring -> M A) : M A :=
  fun w =>
    match m w with
    | (Ok a, w') => (Ok a, w')
    | (Throw e, w') => h e w'
    end.

Declare Scope js_scope.
Delimit Scope js_scope with js.
Notation "x <- m ;; k" := (bind m (fun x => k))
  (at level 61, m at next level, right associativity) : js_scope.
Notation "m ;; k" := (bind m (fun _ => k))
  (at level 61, right associativity) : js_scope.
Local Open Scope js_scope.

Definition with_trace (w : World) (t : list call) : World :=
  mkWorld (browser w) (sessions w) t (next_handle w) (ticks w).

Definition set_browser (b : option handle) : M unit :=
  fun w => (Ok tt, mkWorld b (sessions w) (trace w) (next_handle w) (ticks w)).

Definition set_sessions (m : list (jsstring * BrowserSession)) : M unit :=
  fun w => (Ok tt, mkWorld (browser w) m (trace w) (next_handle w) (ticks w)).

Definition get_browser : M (option handle) := fun w => (Ok (browser w), w).

Definition get_sessions : M (list (jsstring * BrowserSession)) :=
  fun w => (Ok (sessions w), w).

(** A string result; [null] and [undefined] read as the empty string, as in
    [await f() || '']. *)
Definition as_string (v : jsvalue) : jsstring :=
  match v with VString s => s | _ => [] end.

Definition as_number (v : jsvalue) : option Z :=
  match v with VNumber z => Some z | _ => None end.

(** [page.locator(selector)] builds a locator without talking to the
    browser: it is recorded, and cannot fail. *)
Definition locate (page : handle) (selector : jsstring) : M unit :=
  fun w => (Ok tt, with_trace w (trace w ++ [Locator page selector])).

(** *** Results of the operations *)

Record NavigationResult := mkNavigationResult {
  nav_success : bool;
  nav_url : jsstring;
  nav_title : option jsstring;
  nav_statusCode : option Z;
  nav_error : option jsstring
}.

Record ScreenshotMetadata := mkScreenshotMetadata {
  md_width : Z;
  md_height : Z;
  md_format : jsstring
}.

Record ScreenshotResult := mkScreenshotResult {
  shot_success : bool;
  shot_data : option jsstring;
  shot_error : option jsstring;
  shot_metadata : option ScreenshotMetadata
}.

(** [timestamp] is the instant read from the clock; its ISO rendering is
    left out. *)
Record ContentMetadata := mkContentMetadata {
  cm_length : nat;
  cm_encoding : jsstring;
  cm_url : jsstring;
  cm_timestamp : Z
}.

Record ContentResult := mkContentResult {
  content_success : bool;
  content : option jsstring;
  content_error : option jsstring;
  content_metadata : option ContentMetadata
}.

Record ElementInfo := mkElementInfo {
  tagName : jsstring;
  text : jsstring;
  el_value : option jsstring
}.

Record InteractionResult := mkInteractionResult {
  int_success : bool;
  element : option ElementInfo;
  int_error : option jsstring
}.

(** *** Arguments of the operations *)

Record NavigateOptions := mkNavigateOptions {
  waitUntil : option jsstring;
  nav_timeout : option Z
}.

Record ScreenshotRequest := mkScreenshotRequest {
  shot_selector : option jsstring;
  fullPage : option bool;
  format : option jsstring;
  quality : option Z;
  clip : option Clip;
  waitCondition : option jsstring;
  waitTimeout : option Z;
  additionalDelay : option Z
}.

Record ContentExtractionOptions := mkContentExtractionOptions {
  ce_format : option jsstring;
  ce_selector : option jsstring;
  removeScripts : option bool;
  removeStyles : option bool
}.

Record InteractionSubOptions := mkInteractionSubOptions {
  delay : option Z;
  force : option bool;
  io_timeout : option Z
}.

Record ElementInteractionOptions := mkElementInteractionOptions {
  selector : jsstring;
  action : jsstring;
  value : option jsstring;
  options : option InteractionSubOptions
}.

(** *** [htmlToMarkdown] *)

Definition tag_open (name : string) : list item :=
  lit ("<" ++ name) ++ [Star true false (not_ch 62)] ++ lit ">".

(** [/<name[^>]*>(.*?)<\/name>/gi] *)
Definition tag_re (name : string) : regex :=
  mkRegex (tag_open name ++ [Star false true Dot] ++ lit ("</" ++ name ++ ">")) true.

(** The pattern for anchors: [<a], any characters but [>], [href=], a quoted
    group of characters other than the quote, any characters but [>], [>],
    a lazy group, [</a>]. *)
Definition anchor_re : regex :=
  mkRegex (lit "<a" ++ [Star true false (not_ch 62)] ++ lit "href=" ++ [One (Ch dquote)]
           ++ [Star true true (not_ch dquote)] ++ [One (Ch dquote)]
           ++ [Star true false (not_ch 62)] ++ lit ">"
           ++ [Star false true Dot] ++ lit "</a>") true.

(** [/<[^>]*>/g] *)
Definition any_tag_re : regex :=
  mkRegex (lit "<" ++ [Star true false (not_ch 62)] ++ lit ">") false.

(** [/\n\s*\n\s*\n/g] *)
Definition blank_lines_re : regex :=
  mkRegex ([One (Ch 10)] ++ ws_star ++ [One (Ch 10)] ++ ws_star ++ [One (Ch 10)]) false.

Definition nl2 : jsstring := [10; 10]%N.

Definition htmlToMarkdown (html : jsstring) : jsstring :=
  let s := replace (tag_re "h1") [TLit (str "# "); TGroup 1; TLit nl2] html in
  let s := replace (tag_re "h2") [TLit (str "## "); TGroup 1; TLit nl2] s in
  let s := replace (tag_re "h3") [TLit (str "### "); TGroup 1; TLit nl2] s in
  let s := replace (tag_re "p") [TGroup 1; TLit nl2] s in
  let s := replace anchor_re
             [TLit (str "["); TGroup 2; TLit (str "]("); TGroup 1; TLit (str ")")] s in
  let s := replace (tag_re "strong") [TLit (str "**"); TGroup 1; TLit (str "**")] s in
  let s := replace (tag_re "b") [TLit (str "**"); TGroup 1; TLit (str "**")] s in
  let s := replace (tag_re "em") [TLit (str "*"); TGroup 1; TLit (str "*")] s in
  let s := replace (tag_re "i") [TLit (str "*"); TGroup 1; TLit (str "*")] s in
  let s := replace (tag_re "code") [TLit (str "`"); TGroup 1; TLit (str "`")] s in
  let s := replace any_tag_re [] s in
  let s := replace blank_lines_re [TLit nl2] s in
  trim s.

(** *** The manager *)

Definition userAgentArg : jsstring :=
  str "--user-agent=Mozilla/5.0 (Windows NT 10.0; Win64; x64) AppleWebKit/537.36 (KHTML, like Gecko) Chrome/120.0.0.0 Safari/537.36".

Definition launchArgs : list jsstring :=
  [ str "--no-sandbox"; str "--disable-setuid-sandbox"; str "--disable-dev-shm-usage";
    str "--disable-blink-features=AutomationControlled"; str "--no-first-run";
    str "--disable-default-apps"; userAgentArg ].

Definition defaultViewport : Viewport := mkViewport 1280 720.

Section BrowserManager.

Variable env : Env.

(** [this.config] *)
Variable this_config : BrowserConfig.

(** [this.security], a [SecurityValidator] over its configuration. *)
Variable URL_new : jsstring -> jsstring + URL.
Variable joi_message : JoiError -> jsstring -> jsstring.
Variable security_config : SecurityConfig.

Definition security_validateUrl := validateUrl URL_new security_config.
Definition security_validateSelector := validateSelector joi_message.
Definition security_validateInputText := validateInputText joi_message.

(** The message of [new Error(validation.error)]. *)
Definition error_message (v : Validation) : jsstring :=
  match error v with Some m => m | None => [] end.

(** A call on the browser capability: it is recorded, and returns or
    throws as the environment says. *)
Definition call_ (c : call) : M jsvalue :=
  fun w =>
    let w' := with_trace w (trace w ++ [c]) in
    match answer env (trace w) c with
    | Returns v => (Ok v, w')
    | Raises e => (Throw e, w')
    end.

(** A call that creates an object: the object is new. *)
Definition create (c : call) : M handle :=
  fun w =>
    match call_ c w with
    | (Ok _, w') =>
        (Ok (next_handle w'),
         mkWorld (browser w') (sessions w') (trace w') (S (next_handle w')) (ticks w'))
    | (Throw e, w') => (Throw e, w')
    end.

Definition tick (w : World) : World :=
  mkWorld (browser w) (sessions w) (trace w) (next_handle w) (S (ticks w)).

(** [new Date()] / [Date.now()] *)
Definition now : M Z := fun w => (Ok (clock env (ticks w)), tick w).

(** [Math.floor(Math.random() * k)] *)
Definition draw (k : Z) : M Z := fun w => (Ok (random env (ticks w) k), tick w).

(** [Math.random().toString(36).substr(2, 9)] *)
Definition draw36 : M jsstring := fun w => (Ok (random36 env (ticks w)), tick w).

Definition initialize : M unit :=
  try_catch
    (b <- create (Launch (match headless this_config with Some h => h | None => false end)
                         (launchArgs ++ match args this_config with Some a => a | None => [] end)) ;;
     set_browser (Some b))
    (fun e => throw (str "Browser initialization failed: " ++ e)).

Definition generateSessionId : M jsstring :=
  t <- now ;;
  r <- draw36 ;;
  ret (str "session_" ++ decimal (Z.to_N t) ++ str "_" ++ r).

Definition humanDelay (minMs maxMs : Z) : M unit :=
  d <- draw (maxMs - minMs + 1) ;;
  call_ (Sleep (d + minMs)) ;;
  ret tt.

(** [evaluateOnNewDocument] fails or not as the environment says; its
    failure is logged only. *)
Definition initializeStealthMode (page : handle) : M unit :=
  try_catch (call_ (EvaluateOnNewDocument page) ;; ret tt) (fun _ => ret tt).

(** The context options other than the viewport are constants. *)
Definition createSession (sessionId : option jsstring) : M jsstring :=
  b0 <- get_browser ;;
  match b0 with None => initialize | Some _ => ret tt end ;;
  id <- (if truthy_str sessionId then ret (or_str sessionId []) else generateSessionId) ;;
  try_catch
    (b <- get_browser ;;
     match b with
     | None => throw (str "Cannot read properties of null (reading 'newContext')")
     | Some b =>
         context <- create (NewContext b (match viewport this_config with
                                          | Some v => v
                                          | None => defaultViewport
                                          end)) ;;
         page <- create (NewPage context) ;;
         initializeStealthMode page ;;
         createdAt <- now ;;
         lastActivity <- now ;;
         m <- get_sessions ;;
         set_sessions (map_set id (mkSession id context page createdAt lastActivity this_config) m) ;;
         ret id
     end)
    (fun e => throw (str "Session creation failed: " ++ e)).

(** The session stored under the identifier just created is there (lemma
    [createSession_stored]), so the last branch is never taken. *)
Definition getSession (sessionId : option jsstring) : M BrowserSession :=
  m <- get_sessions ;;
  match (if truthy_str sessionId then map_get (or_str sessionId []) m else None) with
  | Some session =>
      t <- now ;;
      let session' := mkSession (id session) (context session) (page session)
                                (createdAt session) t (config session) in
      set_sessions (map_set (or_str sessionId []) session' m) ;;
      ret session'
  | None =>
      newSessionId <- createSession sessionId ;;
      m' <- get_sessions ;;
      match map_get newSessionId m' with
      | Some session => ret session
      | None => throw (str "undefined session")
      end
  end.

(** [new URL(url).origin] is inside the [try]; the URL has passed
    [validateUrl], which parses it the same way. *)
Definition navigate (url : jsstring) (sessionId : option jsstring)
  (options : NavigateOptions) : M NavigationResult :=
  let urlValidation := security_validateUrl url in
  if negb (valid urlValidation) then throw (error_message urlValidation)
  else
    session <- getSession sessionId ;;
    try_catch
      ((if includes url (str "/products/") && negb (endsWith url (str "/"))
        then
          baseUrl <- match URL_new url with
                     | inr u => ret (origin u)
                     | inl e => throw e
                     end ;;
          call_ (Goto (page session) baseUrl (str "domcontentloaded")
                      (or_num (nav_timeout options) (or_num (timeout this_config) 30000))) ;;
          humanDelay 800 1500
        else ret tt) ;;
       response <- call_ (Goto (page session) url
                               (or_str (waitUntil options) (str "domcontentloaded"))
                               (or_num (nav_timeout options) (or_num (timeout this_config) 30000))) ;;
       title <- call_ (Title (page session)) ;;
       u <- call_ (Url (page session)) ;;
       ret (mkNavigationResult true (as_string u) (Some (as_string title))
                               (as_number response) None))
      (fun e => ret (mkNavigationResult false url None None (Some e))).

(** A three-fold loop of mouse moves, a scroll down and a scroll back; any
    failure is logged only. *)
Definition simulateHumanBehavior (page : handle) : M unit :=
  try_catch
    ((fix loop (n : nat) : M unit :=
        match n with
        | O => ret tt
        | S n' =>
            x <- draw 800 ;;
            y <- draw 600 ;;
            call_ (MouseMove page (x + 100) (y + 100)) ;;
            humanDelay 200 500 ;;
            loop n'
        end) 3%nat ;;
     scrollDistance <- draw 300 ;;
     call_ (Evaluate page (ScrollBy (scrollDistance + 100))) ;;
     humanDelay 500 1000 ;;
     call_ (Evaluate page ScrollToTop) ;;
     humanDelay 300 700)
    (fun _ => ret tt).

Definition waitForWordPressReady (page : handle) : M unit :=
  try_catch (call_ (Evaluate page WordPressReady) ;; ret tt) (fun _ => ret tt).

(** [promise.catch(() => ...)] with a handler that only logs. *)
Definition best_effort (m : M jsvalue) : M unit :=
  try_catch (m ;; ret tt) (fun _ => ret tt).

(** The race of the three [waitForSelector] calls is one call on the
    capability: it returns when the first of them to settle is fulfilled and
    throws when it is rejected. *)
Definition screenshot (sessionId : option jsstring) (options : ScreenshotRequest)
  : M ScreenshotResult :=
  session <- getSession sessionId ;;
  try_catch
    ((match waitCondition options with
      | Some (c :: wc) =>
          best_effort (call_ (WaitForLoadState (page session) (c :: wc)
                                               (or_num (waitTimeout options) 5000)))
      | _ => ret tt
      end) ;;
     u <- call_ (Url (page session)) ;;
     (if includes (as_string u) (str "/products/")
      then
        simulateHumanBehavior (page session) ;;
        try_catch
          (call_ (RaceWaitForSelector (page session)
                    [str ".product-card"; str ".no-products"; str ".products-grid"] 10000) ;;
           waitForWordPressReady (page session))
          (fun _ => ret tt)
      else ret tt) ;;
     (match additionalDelay options with
      | Some d => if (0 <? d)%Z then call_ (Sleep d) ;; ret tt else ret tt
      | None => ret tt
      end) ;;
     let screenshotOptions :=
       mkScreenshotOptions
         (or_str (format options) (str "png"))
         (truthy_bool (fullPage options))
         (if truthy_num (quality options) && eqb (or_str (format options) []) (str "jpeg")
          then quality options else None)
         (clip options) in
     buffer <-
       (match shot_selector options with
        | Some (c :: sel) =>
            let selectorValidation := security_validateSelector (c :: sel) in
            if negb (valid selectorValidation) then throw (error_message selectorValidation)
            else
              locate (page session) (c :: sel) ;;
              call_ (OnLocator (page session) (c :: sel) (LScreenshot screenshotOptions))
        | _ => call_ (PageScreenshot (page session) screenshotOptions)
        end) ;;
     ret (mkScreenshotResult true (Some (as_string buffer)) None
            (Some (mkScreenshotMetadata
                     (or_num (option_map clip_width (so_clip screenshotOptions))
                        (or_num (option_map width (viewport (config session))) 1280))
                     (or_num (option_map clip_height (so_clip screenshotOptions))
                        (or_num (option_map height (viewport (config session))) 720))
                     (or_str (format options) (str "png"))))))
    (fun e => ret (mkScreenshotResult false None (Some e) None)).

Definition waitForPageReady (page : handle) : M unit :=
  try_catch
    (best_effort (call_ (WaitForLoadState page (str "networkidle") 15000)) ;;
     best_effort (call_ (WaitForLoadState page (str "domcontentloaded") 10000)) ;;
     best_effort (call_ (WaitForSelector page (str "body") 10000)) ;;
     call_ (Sleep 2000) ;;
     ret tt)
    (fun _ => ret tt).

(** One method of a fallback chain: [inl] is a [return] out of the chain,
    [inr] the value of the variable [content] after the method. *)
Definition method (c : call) (good : jsstring -> bool) (content : jsstring)
  : M (jsstring + jsstring) :=
  try_catch
    (v <- call_ c ;;
     let content := as_string v in
     if good content then ret (inl content) else ret (inr content))
    (fun _ => ret (inr content)).

Definition then_method (c : call) (good : jsstring -> bool)
  (k : jsstring -> M jsstring) (content : jsstring) : M jsstring :=
  r <- method c good content ;;
  match r with
  | inl found => ret found
  | inr content => k content
  end.

Definition nonblank (content : jsstring) : bool := (0 <? length (trim content))%nat.

Definition extractTextContent (page : handle) : M jsstring :=
  try_catch
    (then_method (PageTextContent page (str "body")) nonblank
       (then_method (Evaluate page BodyInnerText) nonblank
          (then_method (Evaluate page BodyTextContent) nonblank
             (fun _ => ret [])))
       [])
    (fun _ => ret []).

Definition sizable (content : jsstring) : bool := (100 <? length content)%nat.

Definition extractHtmlContent (page : handle) : M jsstring :=
  try_catch
    (then_method (Content page) sizable
       (then_method (Evaluate page DocumentOuterHTML) sizable
          (then_method (Evaluate page RebuiltDocument) sizable
             (fun content => ret content)))
       [])
    (fun _ => ret (str "<html><head></head><body></body></html>")).

(** The diagnostic pass: its readings go to the log only. *)
Definition debugPageState (page : handle) : M unit :=
  try_catch
    (call_ (Url page) ;;
     best_effort (call_ (Title page)) ;;
     best_effort (call_ (Evaluate page ReadyState)) ;;
     locate page (str "html") ;;
     call_ (OnLocator page (str "html") LCount) ;;
     locate page (str "head") ;;
     call_ (OnLocator page (str "head") LCount) ;;
     locate page (str "body") ;;
     call_ (OnLocator page (str "body") LCount) ;;
     locate page (str "body") ;;
     best_effort (call_ (OnLocator page (str "body") LTextContent)) ;;
     locate page (str "body") ;;
     best_effort (call_ (OnLocator page (str "body") LInnerHTML)) ;;
     best_effort (call_ (Evaluate page ErrorTexts)))
    (fun _ => ret tt).

Definition extractContent (sessionId : option jsstring)
  (options : ContentExtractionOptions) : M ContentResult :=
  session <- getSession sessionId ;;
  try_catch
    (call_ (Url (page session)) ;;
     waitForPageReady (page session) ;;
     content <-
       (match ce_selector options with
        | Some (c :: sel) =>
            let selectorValidation := security_validateSelector (c :: sel) in
            if negb (valid selectorValidation) then throw (error_message selectorValidation)
            else
              locate (page session) (c :: sel) ;;
              best_effort (call_ (OnLocator (page session) (c :: sel) (LWaitFor 10000))) ;;
              if eqb (or_str (ce_format options) []) (str "text")
              then v <- call_ (OnLocator (page session) (c :: sel) LTextContent) ;;
                   ret (as_string v)
              else if eqb (or_str (ce_format options) []) (str "html")
              then v <- call_ (OnLocator (page session) (c :: sel) LInnerHTML) ;;
                   ret (as_string v)
              else v <- call_ (OnLocator (page session) (c :: sel) LTextContent) ;;
                   ret (as_string v)
        | _ =>
            if eqb (or_str (ce_format options) []) (str "text")
            then extractTextContent (page session)
            else if eqb (or_str (ce_format options) []) (str "html")
            then extractHtmlContent (page session)
            else if eqb (or_str (ce_format options) []) (str "markdown")
            then htmlContent <- extractHtmlContent (page session) ;;
                 ret (htmlToMarkdown htmlContent)
            else extractTextContent (page session)
        end) ;;
     (if (length content =? 0)%nat then debugPageState (page session) else ret tt) ;;
     u <- call_ (Url (page session)) ;;
     t <- now ;;
     ret (mkContentResult true (Some content) None
            (Some (mkContentMetadata (length content) (str "utf-8") (as_string u) t))))
    (fun e => ret (mkContentResult false None (Some e) None)).

Definition sub_timeout (options : ElementInteractionOptions) : option Z :=
  match Manager.options options with Some o => io_timeout o | None => None end.

Definition sub_force (options : ElementInteractionOptions) : option bool :=
  match Manager.options options with Some o => force o | None => None end.

(** The [switch] on the action. *)
Definition dispatch (page : handle) (options : ElementInteractionOptions) : M unit :=
  let on op := call_ (OnLocator page (selector options) op) in
  if eqb (action options) (str "click")
  then on (LClick (sub_force options) (sub_timeout options)) ;; ret tt
  else if eqb (action options) (str "type")
  then match value options with
       | Some (c :: v) =>
           let textValidation := security_validateInputText (c :: v) in
           if negb (valid textValidation) then throw (error_message textValidation)
           else on (LFill (c :: v)) ;; ret tt
       | _ => ret tt
       end
  else if eqb (action options) (str "select")
  then match value options with
       | Some (c :: v) => on (LSelectOption (c :: v)) ;; ret tt
       | _ => ret tt
       end
  else if eqb (action options) (str "hover") then on LHover ;; ret tt
  else if eqb (action options) (str "focus") then on LFocus ;; ret tt
  else if eqb (action options) (str "clear") then on LClear ;; ret tt
  else throw (str "Unsupported action: " ++ action options).

Definition interactElement (sessionId : option jsstring)
  (options : ElementInteractionOptions) : M InteractionResult :=
  let selectorValidation := security_validateSelector (selector options) in
  if negb (valid selectorValidation) then throw (error_message selectorValidation)
  else
    session <- getSession sessionId ;;
    try_catch
      (locate (page session) (selector options) ;;
       call_ (OnLocator (page session) (selector options)
                (LWaitFor (or_num (sub_timeout options) 5000))) ;;
       dispatch (page session) options ;;
       tag <- call_ (OnLocator (page session) (selector options) LTagName) ;;
       txt <- call_ (OnLocator (page session) (selector options) LTextContent) ;;
       val <- try_catch
                (v <- call_ (OnLocator (page session) (selector options) LInputValue) ;;
                 ret (Some (as_string v)))
                (fun _ => ret None) ;;
       ret (mkInteractionResult true
              (Some (mkElementInfo (as_string tag) (as_string txt) val)) None))
      (fun e => ret (mkInteractionResult false None (Some e))).

Definition closeSession (sessionId : jsstring) : M unit :=
  m <- get_sessions ;;
  match map_get sessionId m with
  | Some session =>
      call_ (ContextClose (context session)) ;;
      m' <- get_sessions ;;
      set_sessions (map_delete sessionId m')
  | None => ret tt
  end.

(** The [for ... of this.sessions] loop of [cleanup]. *)
Fixpoint close_all (m : list (jsstring * BrowserSession)) : M unit :=
  match m with
  | [] => ret tt
  | (_, session) :: m' => call_ (ContextClose (context session)) ;; close_all m'
  end.

Definition cleanup : M unit :=
  m <- get_sessions ;;
  close_all m ;;
  set_sessions [] ;;
  b <- get_browser ;;
  match b with
  | Some b => call_ (BrowserClose b) ;; set_browser None
  | None => ret tt
  end.

(** *** [ContentExtractionTool.execute] (src/tools/content.ts) *)

Record ContentArgs := mkContentArgs {
  arg_sessionId : option jsstring;
  arg_format : option jsstring;
  arg_selector : option jsstring;
  arg_removeScripts : option bool;
  arg_removeStyles : option bool
}.

Definition execute (a : ContentArgs) : M ContentResult :=
  try_catch
    (extractContent (arg_sessionId a)
       (mkContentExtractionOptions
          (arg_format a) (arg_selector a)
          (Some (match arg_removeScripts a with Some false => false | _ => true end))
          (Some (match arg_removeStyles a with Some true => true | _ => false end))))
    (fun e => ret (mkContentResult false None (Some e) None)).

End BrowserManager.

End Manager.

Import Manager.
Local Open Scope js_scope.

(* ================================================================== *)
(** ** The rest of the validator (src/security/validator.ts) *)

(** [\w] *)
Definition wordChars : cls :=
  Class false [PRange 97 122; PRange 65 90; PRange 48 57; PChar 95].

(** [/[<>]/g], [/javascript:/gi] and [/on\w+\s*=/gi] *)
Definition angle_re : regex := mkRegex [One (Class false [PChar 60; PChar 62])] false.
Definition javascript_re : regex := mkRegex (lit "javascript:") true.
Definition handler_re : regex :=
  mkRegex (lit "on" ++ [One wordChars; Star true false wordChars] ++ ws_star ++ lit "=") true.

Definition sanitizeString (input : jsstring) : jsstring :=
  trim (replace handler_re [] (replace javascript_re [] (replace angle_re [] input))).

(** The numbers [checkLimits] is called with.  A finite double is a
    fraction [num / den]; the infinities and [NaN] are apart.  The limits
    are the integers of [SecurityConfig]. *)
Inductive jsnumber :=
| Finite (num : Z) (den : positive)
| PlusInfinity
| MinusInfinity
| NaN.

(** Truthiness of an optional number: [undefined], zero and [NaN] are
    falsy. *)
Definition truthy_number (a : option jsnumber) : bool :=
  match a with
  | Some (Finite 0%Z _) | Some NaN | None => false
  | Some _ => true
  end.

(** [a > limit] *)
Definition greater (a : option jsnumber) (limit : Z) : bool :=
  match a with
  | Some (Finite num den) => (limit * Z.pos den <? num)%Z
  | Some PlusInfinity => true
  | _ => false
  end.

(** [number_to_string] is the rendering of a limit inside the template
    literal of the message. *)
Definition checkLimits (number_to_string : Z -> jsstring) (config : SecurityConfig)
  (operation : jsstring) (duration memoryUsage : option jsnumber) : Validation :=
  if truthy_number duration && truthy_num (maxExecutionTime config)
     && greater duration (or_num (maxExecutionTime config) 0)
  then reject (str "Operation " ++ operation ++ str " exceeded time limit of "
               ++ number_to_string (or_num (maxExecutionTime config) 0) ++ str "ms")
  else
    if truthy_number memoryUsage && truthy_num (maxMemoryUsage config)
       && greater memoryUsage (or_num (maxMemoryUsage config) 0)
    then reject (str "Operation " ++ operation ++ str " exceeded memory limit of "
                 ++ number_to_string (or_num (maxMemoryUsage config) 0) ++ str "MB")
    else accept.

(* ================================================================== *)
(** ** [executeScript] and the tools

    [BrowserManager.executeScript] (src/browser/manager.ts), the [execute]
    methods of [NavigationTool], [ElementInteractionTool],
    [ScriptExecutionTool] and [ScreenshotTool], and
    [ScreenshotTool.generateFilename]. *)

Module Tools.

Record ScriptExecutionOptions := mkScriptExecutionOptions {
  script : jsstring;
  script_args : option (list jsvalue);
  awaitPromise : option bool
}.

Record ScriptResult := mkScriptResult {
  script_success : bool;
  script_result : option jsvalue;
  script_error : option jsstring
}.

(** What a tool returns: the result of the manager, or the
    [{ success: false, error }] of its own [catch]. *)
Inductive tool_result (R : Type) :=
| Done (r : R)
| ToolError (error : jsstring).

Arguments Done {R} r.
Arguments ToolError {R} error.

Record NavigationArgs := mkNavigationArgs {
  na_url : jsstring;
  na_sessionId : option jsstring;
  na_waitCondition : option jsstring;
  na_timeout : option Z
}.

Record InteractionArgs := mkInteractionArgs {
  ia_sessionId : option jsstring;
  ia_selector : jsstring;
  ia_action : jsstring;
  ia_value : option jsstring;
  ia_options : option InteractionSubOptions
}.

Record ScriptArgs := mkScriptArgs {
  sa_sessionId : option jsstring;
  sa_script : jsstring;
  sa_args : option (list jsvalue);
  sa_awaitPromise : option bool
}.

Record ScreenshotArgs := mkScreenshotArgs {
  ca_sessionId : option jsstring;
  ca_selector : option jsstring;
  ca_fullPage : option bool;
  ca_format : option jsstring;
  ca_quality : option Z;
  ca_clip : option Clip;
  ca_waitCondition : option jsstring;
  ca_waitTimeout : option Z;
  ca_additionalDelay : option Z
}.

(** [ScreenshotTool.generateFilename], on the rendering [iso] of
    [new Date().toISOString()]: [:] and [.] become [-], [T] becomes [_], and
    [slice(0, -5)] drops the last five code units.  The parameter [format]
    defaults to [png] when it is [undefined]. *)
Definition char_re (c : N) : regex := mkRegex [One (Ch c)] false.

Definition slice_0_minus (n : nat) (s : jsstring) : jsstring :=
  firstn (length s - n) s.

Definition generateFilename (iso : jsstring) (format : option jsstring) : jsstring :=
  let timestamp :=
    slice_0_minus 5
      (replace (char_re 84) [TLit (str "_")]
         (replace (char_re 46) [TLit (str "-")]
            (replace (char_re 58) [TLit (str "-")] iso))) in
  str "screenshot_" ++ timestamp ++ str "." ++
  match format with Some f => f | None => str "png" end.

Section Tools.

Variable env : Env.
Variable this_config : BrowserConfig.
Variable URL_new : jsstring -> jsstring + URL.
Variable joi_message : JoiError -> jsstring -> jsstring.
Variable security_config : SecurityConfig.

(** [page.evaluate] of the function built from a script, on the page of a
    session, given the calls made so far: what it returns, or throws. *)
Variable evaluate_script : list call -> handle -> jsstring -> list jsvalue -> outcome.

Definition executeScript (sessionId : option jsstring)
  (options : ScriptExecutionOptions) : M ScriptResult :=
  let scriptValidation := validateScript joi_message (script options) in
  if negb (valid scriptValidation) then throw (error_message scriptValidation)
  else
    session <- getSession env this_config sessionId ;;
    try_catch
      (fun w =>
         match evaluate_script (trace w) (page session) (script options)
                 (match script_args options with Some a => a | None => [] end) with
         | Returns v => (Ok (mkScriptResult true (Some v) None), w)
         | Raises e => (Throw e, w)
         end)
      (fun e => ret (mkScriptResult false None (Some e))).

(** The tools receive the arguments of the request, which may carry none:
    [args] is then [undefined], and the first property read of it, inside
    the [try] of the tool, throws a [TypeError].  [type_error p] is the
    message of that error for the property [p]. *)
Variable type_error : jsstring -> jsstring.

(** [NavigationTool.execute] *)
Definition navigation_execute (args : option NavigationArgs)
  : M (tool_result NavigationResult) :=
  try_catch
    (match args with
     | None => throw (type_error (str "url"))
     | Some a =>
         r <- navigate env this_config URL_new security_config (na_url a) (na_sessionId a)
                (mkNavigateOptions
                   (Some (or_str (na_waitCondition a) (str "domcontentloaded")))
                   (Some (or_num (na_timeout a) 30000))) ;;
         ret (Done r)
     end)
    (fun e => ret (ToolError e)).

(** [ElementInteractionTool.execute] *)
Definition interaction_execute (args : option InteractionArgs)
  : M (tool_result InteractionResult) :=
  try_catch
    (match args with
     | None => throw (type_error (str "sessionId"))
     | Some a =>
         r <- interactElement env this_config joi_message (ia_sessionId a)
                (mkElementInteractionOptions
                   (ia_selector a) (ia_action a) (ia_value a)
                   (Some (match ia_options a with
                          | Some o => o
                          | None => mkInteractionSubOptions None None None
                          end))) ;;
         ret (Done r)
     end)
    (fun e => ret (ToolError e)).

(** [ScriptExecutionTool.execute] *)
Definition script_execute (args : option ScriptArgs) : M (tool_result ScriptResult) :=
  try_catch
    (match args with
     | None => throw (type_error (str "sessionId"))
     | Some a =>
         r <- executeScript (sa_sessionId a)
                (mkScriptExecutionOptions
                   (sa_script a)
                   (Some (match sa_args a with Some l => l | None => [] end))
                   (Some (truthy_bool (sa_awaitPromise a)))) ;;
         ret (Done r)
     end)
    (fun e => ret (ToolError e)).

(** [ScreenshotTool.execute], in the version that returns the result of the
    manager as it is. *)
Definition screenshot_execute (args : option ScreenshotArgs)
  : M (tool_result ScreenshotResult) :=
  try_catch
    (match args with
     | None => throw (type_error (str "sessionId"))
     | Some a =>
         r <- screenshot env this_config joi_message (ca_sessionId a)
                (mkScreenshotRequest
                   (ca_selector a)
                   (Some (truthy_bool (ca_fullPage a)))
                   (Some (or_str (ca_format a) (str "png")))
                   (ca_quality a)
                   (ca_clip a)
                   (Some (or_str (ca_waitCondition a) (str "networkidle")))
                   (Some (or_num (ca_waitTimeout a) 5000))
                   (Some (or_num (ca_additionalDelay a) 1000))) ;;
         ret (Done r)
     end)
    (fun e => ret (ToolError e)).

End Tools.

End Tools.

Import Tools.

(* ================================================================== *)
(** ** Vocabulary of the properties *)

(** [p] occurs in [s]. *)
Definition Substring (p s : jsstring) : Prop :=
  exists pre suf, s = pre ++ p ++ suf.

(** The words of a pattern without assertions: the language it denotes,
    whatever the order in which the matcher explores it. *)
Fixpoint Lang (i : bool) (p : list item) (w : jsstring) : Prop :=
  match p with
  | [] => w = []
  | One c :: p' =>
      exists x w', w = x :: w' /\ cls_in i c x = true /\ Lang i p' w'
  | Star _ _ c :: p' =>
      exists u w', w = u ++ w' /\ Forall (fun x => cls_in i c x = true) u /\ Lang i p' w'
  | Bol :: _ => False
  | Eol :: _ => False
  end.

Definition anchor_free (p : list item) : bool :=
  forallb (fun it => match it with Bol | Eol => false | _ => true end) p.

(** Some part of [s] is a word of the regular expression. *)
Definition Matches (re : regex) (s : jsstring) : Prop :=
  exists pre w suf, s = pre ++ w ++ suf /\ Lang (ignoreCase re) (items re) w.

(** The script matches one of the patterns of the denylist. *)
Definition Denylisted (script : jsstring) : Prop :=
  exists re, In re dangerousScriptPatterns /\ Matches re script.

(** The patterns of the denylist as they are usually written out. *)
Definition denylist_literals : list jsstring :=
  [ str "eval("; str "Function("; str "setTimeout("; str "setInterval(";
    str "document.write"; str "innerHTML ="; str "outerHTML ="; str "location =";
    str "window."; str "document.cookie"; str "localStorage"; str "sessionStorage" ].

Definition blocked_list (cfg : SecurityConfig) : list jsstring :=
  match blockedDomains cfg with Some l => l | None => [] end.

(** What the platform's [URL] gives on the strings of the examples below. *)
Definition sample_URL (url : jsstring) : jsstring + URL :=
  if eqb url (str "https://example.com/")
  then inr (mkURL (str "https:") (str "example.com") (str "https://example.com"))
  else if eqb url (str "https://example.com/products/item")
  then inr (mkURL (str "https:") (str "example.com") (str "https://example.com"))
  else if eqb url (str "ftp://example.com/file")
  then inr (mkURL (str "ftp:") (str "example.com") (str "ftp://example.com"))
  else if eqb url (str "javascript:alert(1)")
  then inr (mkURL (str "javascript:") [] (str "null"))
  else inl (str "TypeError: Invalid URL").

(** A rendering of Joi's messages, for the examples. *)
Definition sample_joi_message (e : JoiError) (v : jsstring) : jsstring :=
  match e with
  | StringEmpty => str "value is not allowed to be empty"
  | StringMax _ => str "value length must be less than or equal to the limit"
  | StringPatternBase => str "value fails to match the required pattern"
  end.

Definition example_policy : SecurityConfig :=
  mkSecurityConfig (Some [str "example.com"]) (Some [str "localhost"]) None None None.

(** The calls [m] makes all satisfy [Q]: the trace grows by such calls. *)
Definition only {A} (Q : call -> Prop) (m : M A) : Prop :=
  forall w r w', m w = (r, w') -> exists d, trace w' = trace w ++ d /\ Forall Q d.

(** [m] leaves the map of sessions alone and never takes a handle back. *)
Definition frames {A} (m : M A) : Prop :=
  forall w r w', m w = (r, w') ->
    sessions w' = sessions w /\ next_handle w <= next_handle w'.

(** The calls by which a session comes to exist. *)
Definition session_call (c : call) : Prop :=
  match c with
  | Launch _ _ | NewContext _ _ | NewPage _ | EvaluateOnNewDocument _ => True
  | _ => False
  end.

Definition is_goto (c : call) : bool :=
  match c with Goto _ _ _ _ => true | _ => false end.

Definition is_close (c : call) : bool :=
  match c with ContextClose _ | BrowserClose _ => true | _ => false end.

(** The closes of the contexts of the sessions of a map, in its order. *)
Definition closes (m : list (jsstring * BrowserSession)) : list call :=
  map (fun kv => ContextClose (context (snd kv))) m.

Definition browser_close (b : option handle) : list call :=
  match b with Some b => [BrowserClose b] | None => [] end.

(** A fill of the element with a value that [validateInputText] refuses. *)
Definition invalid_fill (joi_message : JoiError -> jsstring -> jsstring) (c : call) : Prop :=
  match c with
  | OnLocator _ _ (LFill v) => valid (validateInputText joi_message v) = false
  | _ => False
  end.

Definition supported_action (a : jsstring) : bool :=
  existsb (eqb a) [str "click"; str "type"; str "select"; str "hover"; str "focus"; str "clear"].

(** The states the manager can be in: the sessions of the map are stored
    under their own, non-empty identifier, were created with the manager's
    configuration, and no context or page belongs to two of them; their
    objects are older than the next one to be created. *)
Record wf (cfg : BrowserConfig) (w : World) : Prop := mkWf {
  wf_contexts : NoDup (map (fun kv => context (snd kv)) (sessions w));
  wf_pages : NoDup (map (fun kv => page (snd kv)) (sessions w));
  wf_entries :
    Forall (fun kv : jsstring * BrowserSession =>
              fst kv <> [] /\ id (snd kv) = fst kv /\ config (snd kv) = cfg /\
              context (snd kv) < next_handle w /\ page (snd kv) < next_handle w)
           (sessions w)
}.

(** The metadata of a screenshot, from the request and the configuration
    alone. *)
Definition metadata_of (cfg : BrowserConfig) (options : ScreenshotRequest)
  : ScreenshotMetadata :=
  mkScreenshotMetadata
    (or_num (option_map clip_width (clip options))
            (or_num (option_map width (viewport cfg)) 1280))
    (or_num (option_map clip_height (clip options))
            (or_num (option_map height (viewport cfg)) 720))
    (or_str (format options) (str "png")).

(** An environment in which every call returns, with the given value. *)
Definition obliging (v : jsvalue) : Env :=
  mkEnv (fun _ _ => Returns v) (fun _ => 1700000000000%Z) (fun _ _ => 0%Z) (fun _ => str "k3j9x0q2a").

(** An environment in which closing the context [ctx] fails and every other
    call returns. *)
Definition stuck_context (ctx : handle) : Env :=
  mkEnv (fun _ c => match c with
                    | ContextClose ctx' =>
                        if Nat.eqb ctx' ctx then Raises (str "Target closed")
                        else Returns VUndefined
                    | _ => Returns VUndefined
                    end)
        (fun _ => 1700000000000%Z) (fun _ _ => 0%Z) (fun _ => str "k3j9x0q2a").

Definition plain_config : BrowserConfig :=
  mkBrowserConfig (Some true) (Some (mkViewport 1280 720)) (Some 30000%Z) None (Some []).

(** An environment in which every call returns the string [ok]. *)
Definition willing : Env := obliging (VString (str "ok")).

(** The state of a manager after [getSession('a')] and [getSession('b')]. *)
Definition two_sessions (env : Env) (cfg : BrowserConfig) : World :=
  snd (getSession env cfg (Some (str "b"))
         (snd (getSession env cfg (Some (str "a")) initial))).

(** A text of 10001 code units. *)
Definition long_text : jsstring := repeat 97%N (N.to_nat 10001).

(** The calls made on an element: its location and the operations on it. *)
Definition is_element_call (c : call) : bool :=
  match c with Locator _ _ | OnLocator _ _ _ => true | _ => false end.

(** The selector matches one of the dangerous patterns. *)
Definition DangerousSelector (selector : jsstring) : Prop :=
  exists re, In re dangerousSelectorPatterns /\ Matches re selector.

(** A character a selector may be made of. *)
Definition selector_char (x : N) : bool := cls_in false selectorChars x.

(** A measure is over its limit: both are given, neither is zero (nor the
    measure [NaN]), and the measure is the larger; for a finite measure
    [num / den] that is [limit * den < num]. *)
Definition over_limit (measure : option jsnumber) (limit : option Z) : Prop :=
  exists l,
    limit = Some l /\ l <> 0%Z /\
    (measure = Some PlusInfinity \/
     exists num den,
       measure = Some (Finite num den) /\ num <> 0%Z /\ (l * Z.pos den < num)%Z).


(** An angle bracket. *)
Definition is_angle (x : N) : bool := N.eqb x 60 || N.eqb x 62.

Definition no_gt (s : jsstring) : bool := forallb (fun y => negb (N.eqb y 62)) s.

(** No [<] of the string is followed, however far, by a [>]. *)
Fixpoint tagless (s : jsstring) : bool :=
  match s with
  | [] => true
  | x :: s' => (if N.eqb x 60 then no_gt s' else true) && tagless s'
  end.

(** The single-character matchers of a pattern. *)
Definition item_classes (p : list item) : list cls :=
  flat_map (fun it => match it with One c | Star _ _ c => [c] | _ => [] end) p.

(** An environment in which the calls that satisfy [f] fail and every other
    call returns the string [ok]. *)
Definition refusing (f : call -> bool) : Env :=
  mkEnv (fun _ c => if f c then Raises (str "refused") else Returns (VString (str "ok")))
        (fun _ => 1700000000000%Z) (fun _ _ => 0%Z) (fun _ => str "k3j9x0q2a").

Definition is_launch (c : call) : bool :=
  match c with Launch _ _ => true | _ => false end.

Definition is_new_context (c : call) : bool :=
  match c with NewContext _ _ => true | _ => false end.

(** The state of a manager after [getSession('a')]. *)
Definition one_session (env : Env) (cfg : BrowserConfig) : World :=
  snd (getSession env cfg (Some (str "a")) initial).

(** A navigate-to call of [navigate] on [url] is one that validation has
    let through, to the URL or to its origin. *)
Definition goto_ok (URL_new : jsstring -> jsstring + URL) (cfg : SecurityConfig)
  (url : jsstring) (c : call) : Prop :=
  match c with
  | Goto _ target _ _ =>
      valid (validateUrl URL_new cfg url) = true /\
      (target = url \/ exists u, URL_new url = inr u /\ target = origin u)
  | _ => True
  end.

(** The selector that the function [debugPageState] evaluates in the page
    gives to [querySelectorAll]; the other functions evaluated in the page
    use no selector. *)
Definition error_selector : jsstring :=
  str "*[class*=" ++ [dquote] ++ str "error" ++ [dquote] ++
  str "], *[id*=" ++ [dquote] ++ str "error" ++ [dquote] ++ str "]".

Definition page_function_selectors (f : PageFunction) : list jsstring :=
  match f with
  | ErrorTexts => [error_selector]
  | _ => []
  end.

(** Every selector a call hands to the browser, as an argument or inside a
    function evaluated in the page, passes [validateSelector]. *)
Definition selector_ok (joi_message : JoiError -> jsstring -> jsstring) (c : call) : Prop :=
  match c with
  | Locator _ sel | OnLocator _ sel _ | WaitForSelector _ sel _ | PageTextContent _ sel =>
      valid (validateSelector joi_message sel) = true
  | RaceWaitForSelector _ sels _ =>
      forallb (fun sel => valid (validateSelector joi_message sel)) sels = true
  | Evaluate _ f =>
      forallb (fun sel => valid (validateSelector joi_message sel))
              (page_function_selectors f) = true
  | _ => True
  end.



Definition is_fill_or_select (c : call) : bool :=
  match c with
  | OnLocator _ _ (LFill _) | OnLocator _ _ (LSelectOption _) => true
  | _ => false
  end.

(** A navigate-to call is made with the timeout [t]. *)
Definition goto_timeout (t : Z) (c : call) : Prop :=
  match c with Goto _ _ _ t' => t' = t | _ => True end.

(** An evaluator of scripts that returns the number 42. *)
Definition constant_evaluator : list call -> handle -> jsstring -> list jsvalue -> outcome :=
  fun _ _ _ _ => Returns (VNumber 42).

(** The navigate-to calls to the origin of the examples. *)
Definition goto_origin (c : call) : bool :=
  match c with
  | Goto _ target _ _ => eqb target (str "https://example.com")
  | _ => false
  end.

(** What [interactElement] writes into an element: the caller's value,
    which is not empty, into the caller's selector, under the action that
    asks for it. *)
Definition write_ok (o : ElementInteractionOptions) (c : call) : Prop :=
  match c with
  | OnLocator _ sel (LFill v) =>
      sel = selector o /\ action o = str "type" /\ value o = Some v /\ v <> []
  | OnLocator _ sel (LSelectOption v) =>
      sel = selector o /\ action o = str "select" /\ value o = Some v /\ v <> []
  | _ => True
  end.


(** What a capture is asked with: the format of the request, [png] when it
    gives none, and a quality only when the request gives one (other than 0)
    for the format [jpeg]. *)
Definition capture_ok (o : ScreenshotRequest) (c : call) : Prop :=
  match c with
  | PageScreenshot _ opts | OnLocator _ _ (LScreenshot opts) =>
      so_type opts = or_str (format o) (str "png") /\
      (so_quality opts = None \/
       so_quality opts = quality o /\ format o = Some (str "jpeg") /\
       truthy_num (quality o) = true)
  | _ => True
  end.

(* ================================================================== *)
(** ** Strings *)

Lemma eqb_eq (a b : jsstring) : eqb a b = true <-> a = b.
Proof.
  unfold eqb. destruct (list_eq_dec N.eq_dec a b); split; congruence.
Qed.

Lemma eqb_refl (a : jsstring) : eqb a a = true.
Proof. apply eqb_eq. reflexivity. Qed.

Lemma eqb_neq (a b : jsstring) : eqb a b = false <-> a <> b.
Proof.
  unfold eqb. destruct (list_eq_dec N.eq_dec a b); split; congruence.
Qed.

Lemma startsWith_spec (p s : jsstring) :
  startsWith s p = true <-> exists suf, s = p ++ suf.
Proof.
  revert s. induction p as [|c p IH]; intros s; simpl.
  - split; [intros _; exists s; reflexivity | reflexivity].
  - destruct s as [|x s].
    + split; [discriminate | intros [suf H]; discriminate].
    + rewrite andb_true_iff, N.eqb_eq, IH. split.
      * intros [-> [suf ->]]. exists suf. reflexivity.
      * intros [suf H]. injection H as -> ->. split; [reflexivity | now exists suf].
Qed.

Lemma includes_spec (p s : jsstring) : includes s p = true <-> Substring p s.
Proof.
  unfold Substring. induction s as [|x s IH].
  - simpl. rewrite orb_false_r, startsWith_spec. split.
    + intros [suf H]. exists [], suf. exact H.
    + intros [pre [suf H]]. destruct pre; [now exists suf | discriminate].
  - change (includes (x :: s) p) with (startsWith (x :: s) p || includes s p).
    rewrite orb_true_iff, startsWith_spec, IH. split.
    + intros [[suf H] | [pre [suf H]]].
      * exists [], suf. exact H.
      * exists (x :: pre), suf. simpl. now rewrite H.
    + intros [pre [suf H]]. destruct pre as [|y pre].
      * left. now exists suf.
      * right. simpl in H. injection H as _ H. now exists pre, suf.
Qed.

Lemma existsb_includes (h : jsstring) (l : list jsstring) :
  existsb (fun d => includes h d) l = true <-> exists d, In d l /\ Substring d h.
Proof.
  rewrite existsb_exists. split; intros [d [Hin H]]; exists d; split; auto;
    now apply includes_spec.
Qed.

(* ================================================================== *)
(** ** The matcher and the language of a pattern *)

Lemma star_at_eq i c greedy k bol s :
  star_at i c greedy k bol s =
  let stop :=
    match k bol s with
    | Some (caps, n) => Some ([], caps, n)
    | None => None
    end in
  let more :=
    match s with
    | x :: s' =>
        if cls_in i c x
        then match star_at i c greedy k false s' with
             | Some (e, caps, n) => Some (x :: e, caps, S n)
             | None => None
             end
        else None
    | [] => None
    end in
  if greedy
  then match more with Some r => Some r | None => stop end
  else match stop with Some r => Some r | None => more end.
Proof. destruct s; reflexivity. Qed.

Lemma star_at_complete i c greedy k u rest :
  Forall (fun x => cls_in i c x = true) u ->
  (forall bol, k bol rest <> None) ->
  forall bol, star_at i c greedy k bol (u ++ rest) <> None.
Proof.
  intros Hu Hk. induction Hu as [|x u Hx Hu IH]; intros bol.
  - simpl app. rewrite star_at_eq. cbv zeta.
    specialize (Hk bol). destruct (k bol rest) as [[caps n]|]; [|congruence].
    destruct greedy.
    + destruct rest as [|y rest]; [discriminate|].
      destruct (cls_in i c y); [|discriminate].
      destruct (star_at i c true k false rest) as [[[e caps'] n']|]; discriminate.
    + discriminate.
  - simpl app. rewrite star_at_eq. cbv zeta. rewrite Hx.
    specialize (IH false).
    destruct (star_at i c greedy k false (u ++ rest)) as [[[e caps'] n']|]; [|congruence].
    destruct greedy; [discriminate|].
    destruct (k bol (x :: u ++ rest)) as [[caps n]|]; discriminate.
Qed.

Lemma star_at_sound i c greedy k :
  forall s bol e caps n,
    star_at i c greedy k bol s = Some (e, caps, n) ->
    exists rest m bol',
      s = e ++ rest /\ Forall (fun x => cls_in i c x = true) e /\
      k bol' rest = Some (caps, m) /\ n = length e + m.
Proof.
  assert (Hstop : forall s bol e caps n,
             match k bol s with
             | Some (caps, n) => Some ([], caps, n)
             | None => None
             end = Some (e, caps, n) ->
             exists rest m bol',
               s = e ++ rest /\ Forall (fun x => cls_in i c x = true) e /\
               k bol' rest = Some (caps, m) /\ n = length e + m).
  { intros s bol e caps n H.
    destruct (k bol s) as [[caps' n']|] eqn:Hk; [|discriminate].
    injection H as <- <- <-. exists s, n', bol. repeat split; auto. }
  induction s as [|x s IH]; intros bol e caps n H; rewrite star_at_eq in H; cbv zeta in H.
  - apply (Hstop [] bol).
    destruct greedy; cbv beta iota in H; [exact H|].
    destruct (k bol []) as [[caps' n']|]; [exact H | discriminate].
  - assert (Hmore : forall e caps n,
               (if cls_in i c x
                then match star_at i c greedy k false s with
                     | Some (e, caps, n) => Some (x :: e, caps, S n)
                     | None => None
                     end
                else None) = Some (e, caps, n) ->
               exists rest m bol',
                 x :: s = e ++ rest /\ Forall (fun x => cls_in i c x = true) e /\
                 k bol' rest = Some (caps, m) /\ n = length e + m).
    { intros e0 caps0 n0 H0.
      destruct (cls_in i c x) eqn:Hx; [|discriminate].
      destruct (star_at i c greedy k false s) as [[[e1 caps1] n1]|] eqn:Hs; [|discriminate].
      injection H0 as <- <- <-.
      destruct (IH _ _ _ _ Hs) as [rest [m [bol' [-> [Hall [Hk ->]]]]]].
      exists rest, m, bol'. repeat split; auto. }
    destruct greedy.
    + destruct (if cls_in i c x
                then match star_at i c true k false s with
                     | Some (e, caps, n) => Some (x :: e, caps, S n)
                     | None => None
                     end
                else None) as [r|] eqn:Hm.
      * injection H as ->. eapply Hmore; eauto.
      * eapply Hstop; eauto.
    + destruct (match k bol (x :: s) with
                | Some (caps, n) => Some ([], caps, n)
                | None => None
                end) as [r|] eqn:Hst.
      * injection H as ->. eapply Hstop; eauto.
      * eapply Hmore; eauto.
Qed.

Lemma exec_at_complete i p :
  anchor_free p = true ->
  forall w, Lang i p w -> forall bol suf, exec_at i p bol (w ++ suf) <> None.
Proof.
  induction p as [|it p IH]; intros Haf w Hw bol suf.
  - discriminate.
  - simpl in Haf. apply andb_true_iff in Haf as [Hit Haf].
    destruct it as [c|greedy cap c| |]; try discriminate; simpl in Hw.
    + destruct Hw as [x [w' [-> [Hx Hw']]]]. simpl. rewrite Hx.
      specialize (IH Haf w' Hw' false suf).
      destruct (exec_at i p false (w' ++ suf)) as [[caps n]|]; congruence.
    + destruct Hw as [u [w' [-> [Hu Hw']]]]. simpl.
      rewrite <- app_assoc.
      pose proof (@star_at_complete i c greedy (exec_at i p) u (w' ++ suf) Hu
                    (fun b => IH Haf w' Hw' b suf) bol) as Hs.
      destruct (star_at i c greedy (exec_at i p) bol (u ++ w' ++ suf))
        as [[[e caps] n]|]; congruence.
Qed.

Lemma exec_at_sound i p :
  anchor_free p = true ->
  forall bol s caps n,
    exec_at i p bol s = Some (caps, n) ->
    exists w rest, s = w ++ rest /\ length w = n /\ Lang i p w.
Proof.
  induction p as [|it p IH]; intros Haf bol s caps n H.
  - injection H as <- <-. exists [], s. repeat split.
  - simpl in Haf. apply andb_true_iff in Haf as [Hit Haf].
    destruct it as [c|greedy cap c| |]; try discriminate; simpl in H.
    + destruct s as [|x s]; [discriminate|].
      destruct (cls_in i c x) eqn:Hx; [|discriminate].
      destruct (exec_at i p false s) as [[caps' n']|] eqn:He; [|discriminate].
      injection H as <- <-.
      destruct (IH Haf _ _ _ _ He) as [w [rest [-> [Hlen Hw]]]].
      exists (x :: w), rest. repeat split; simpl; auto.
      exists x, w. auto.
    + destruct (star_at i c greedy (exec_at i p) bol s) as [[[e caps'] n']|] eqn:Hs;
        [|discriminate].
      injection H as <- <-.
      destruct (star_at_sound _ _ _ _ _ _ Hs) as [rest [m [bol' [-> [He [Hk ->]]]]]].
      destruct (IH Haf _ _ _ _ Hk) as [w [rest' [-> [Hlen Hw]]]].
      exists (e ++ w), rest'. repeat split.
      * now rewrite app_assoc.
      * rewrite length_app. lia.
      * simpl. exists e, w. auto.
Qed.

Lemma search_spec i p :
  anchor_free p = true ->
  forall s bol,
    search i p bol s = true <->
    exists pre w suf, s = pre ++ w ++ suf /\ Lang i p w.
Proof.
  intros Haf. induction s as [|x s IH]; intros bol.
  - simpl. destruct (exec_at i p bol []) as [[caps n]|] eqn:He.
    + split; [intros _ | reflexivity].
      destruct (exec_at_sound _ _ Haf _ _ He) as [w [rest [Hs [_ Hw]]]].
      exists [], w, rest. auto.
    + split; [discriminate|].
      intros [pre [w [suf [Hs Hw]]]].
      destruct pre; [|discriminate]. simpl in Hs.
      pose proof (exec_at_complete _ _ Haf _ Hw bol suf) as Hc.
      rewrite <- Hs in Hc. congruence.
  - simpl. destruct (exec_at i p bol (x :: s)) as [[caps n]|] eqn:He.
    + split; [intros _ | reflexivity].
      destruct (exec_at_sound _ _ Haf _ _ He) as [w [rest [Hs [_ Hw]]]].
      exists [], w, rest. auto.
    + rewrite IH. split.
      * intros [pre [w [suf [-> Hw]]]]. exists (x :: pre), w, suf. auto.
      * intros [pre [w [suf [Hs Hw]]]]. destruct pre as [|y pre].
        -- simpl in Hs.
           pose proof (exec_at_complete _ _ Haf _ Hw bol suf) as Hc.
           rewrite <- Hs in Hc. congruence.
        -- injection Hs as _ ->. exists pre, w, suf. auto.
Qed.

Lemma test_spec (re : regex) (s : jsstring) :
  anchor_free (items re) = true -> (test re s = true <-> Matches re s).
Proof. intros Haf. unfold test, Matches. now apply search_spec. Qed.

Lemma script_patterns_anchor_free :
  forallb (fun re => anchor_free (items re)) dangerousScriptPatterns = true.
Proof. vm_compute. reflexivity. Qed.

Lemma denylist_spec (script : jsstring) :
  existsb (fun pattern => test pattern script) dangerousScriptPatterns = true
  <-> Denylisted script.
Proof.
  unfold Denylisted. rewrite existsb_exists.
  pose proof script_patterns_anchor_free as Haf. rewrite forallb_forall in Haf.
  split; intros [re [Hin H]]; exists re; split; auto; apply test_spec; auto.
Qed.

(** A literal pattern is matched by a text that differs from it in case
    only and, where the pattern has white space to skip, by any run of
    white space. *)
Example eval_upper_case_spaced : Denylisted (str "x = EVAL  (y)").
Proof. apply denylist_spec. vm_compute. reflexivity. Qed.

Lemma joi_string_plain (limit : N) (allowEmpty : bool) (s : jsstring) :
  joi_string limit None allowEmpty s = None <->
  (s = [] /\ allowEmpty = true) \/ (s <> [] /\ (N.of_nat (length s) <= limit)%N).
Proof.
  unfold joi_string. destruct s as [|x s].
  - destruct allowEmpty; split; try tauto; try discriminate.
    + intros [[_ H]|[H _]]; congruence.
  - destruct (N.ltb_spec limit (N.of_nat (length (x :: s)))).
    + split; [discriminate|]. intros [[H0 _]|[_ H0]]; [discriminate | lia].
    + split; [|reflexivity]. intros _. right. split; [discriminate | lia].
Qed.

Lemma Matches_inside (re : regex) (l s : jsstring) :
  Matches re l -> Substring l s -> Matches re s.
Proof.
  intros [pre [w [suf [-> Hw]]]] [pre0 [suf0 ->]].
  exists (pre0 ++ pre), w, (suf ++ suf0). split; [|exact Hw].
  now rewrite <- !app_assoc.
Qed.

(** A script in which one of the patterns occurs as it is written out
    matches the denylist. *)
Lemma denylist_literals_covered (l script : jsstring) :
  In l denylist_literals -> Substring l script -> Denylisted script.
Proof.
  intros Hin Hsub.
  assert (Hl : Denylisted l).
  { apply denylist_spec. unfold denylist_literals in Hin. simpl in Hin.
    repeat (destruct Hin as [<-|Hin]; [vm_compute; reflexivity|]). destruct Hin. }
  destruct Hl as [re [Hre Hm]]. exists re. split; [exact Hre|].
  eapply Matches_inside; eauto.
Qed.

(* ================================================================== *)
(** ** The validator *)

(** C5 (as amended).  [validateScript] rejects every script in which a
    pattern of the denylist matches, in particular every script that
    contains one of the patterns as it is written out, and accepts every
    script in which none matches, provided the script is not empty and has
    at most 10000 code units.  (The empty script is refused by the string
    schema.) *)
Theorem validateScript_denylist (joi_message : JoiError -> jsstring -> jsstring)
  (script : jsstring) :
  (Denylisted script -> valid (validateScript joi_message script) = false) /\
  (forall l, In l denylist_literals -> Substring l script ->
             valid (validateScript joi_message script) = false) /\
  (~ Denylisted script -> script <> [] -> (N.of_nat (length script) <= 10000)%N ->
   valid (validateScript joi_message script) = true).
Proof.
  assert (Hrej : Denylisted script -> valid (validateScript joi_message script) = false).
  { intros Hd. apply denylist_spec in Hd. unfold validateScript.
    destruct (joi_string 10000 None false script); [reflexivity|].
    rewrite Hd. reflexivity. }
  split; [exact Hrej|]. split.
  { intros l Hin Hsub. apply Hrej. eapply denylist_literals_covered; eauto. }
  intros Hd Hne Hlen. unfold validateScript.
  assert (Hj : joi_string 10000 None false script = None).
  { apply joi_string_plain. right. auto. }
  rewrite Hj.
  destruct (existsb (fun pattern => test pattern script) dangerousScriptPatterns) eqn:He.
  - apply denylist_spec in He. contradiction.
  - reflexivity.
Qed.

Lemma validateScript_denylist_witness :
  valid (validateScript sample_joi_message (str "eval (x)")) = false /\
  valid (validateScript sample_joi_message (str "return document.title")) = true.
Proof.
  split.
  - apply (proj1 (validateScript_denylist sample_joi_message (str "eval (x)"))).
    apply denylist_spec. vm_compute. reflexivity.
  - apply (proj2 (proj2 (validateScript_denylist sample_joi_message
                           (str "return document.title")))).
    + intros H. apply denylist_spec in H. vm_compute in H. discriminate.
    + discriminate.
    + vm_compute. discriminate.
Defined.

(** C5, the claim as stated fails: the empty script matches no pattern of
    the denylist and is within the length cap, and it is rejected. *)
Lemma validateScript_empty_rejected :
  ~ Denylisted [] /\
  (N.of_nat (length (@nil N)) <= 10000)%N /\
  forall joi_message, valid (validateScript joi_message []) = false.
Proof.
  split; [|split].
  - intros H. apply denylist_spec in H. vm_compute in H. discriminate.
  - vm_compute. discriminate.
  - intros joi_message. reflexivity.
Qed.

Lemma allowedProtocols_spec (p : jsstring) :
  existsb (eqb p) allowedProtocols = true <-> p = str "http:" \/ p = str "https:".
Proof.
  unfold allowedProtocols. simpl existsb. rewrite !orb_true_iff, !eqb_eq.
  split; [intros [H|[H|H]] | intros [H|H]]; auto; discriminate.
Qed.

Lemma blocked_spec (cfg : SecurityConfig) (h : jsstring) :
  match blockedDomains cfg with
  | Some bl => existsb (fun blockedDomain => includes h blockedDomain) bl
  | None => false
  end = true <-> exists b, In b (blocked_list cfg) /\ Substring b h.
Proof.
  unfold blocked_list. destruct (blockedDomains cfg) as [bl|].
  - apply existsb_includes.
  - split; [discriminate | intros [b [[] _]]].
Qed.

(** The three checks of [validateUrl] on a parsed URL, whatever the
    lists. *)
Lemma validateUrl_accepts URL_new (cfg : SecurityConfig) (url : jsstring) (u : URL) :
  URL_new url = inr u ->
  (valid (validateUrl URL_new cfg url) = true <->
   (forall b, In b (blocked_list cfg) -> ~ Substring b (hostname u)) /\
   (forall d l, allowedDomains cfg = Some (d :: l) ->
                exists a, In a (d :: l) /\ Substring a (hostname u)) /\
   (protocol u = str "http:" \/ protocol u = str "https:")).
Proof.
  intros Hu. unfold validateUrl. rewrite Hu.
  set (b1 := match blockedDomains cfg with
             | Some bl => existsb (fun blockedDomain => includes (hostname u) blockedDomain) bl
             | None => false
             end).
  set (b2 := match allowedDomains cfg with
             | Some (d :: l) =>
                 negb (existsb (fun domain => includes (hostname u) domain) (d :: l))
             | _ => false
             end).
  set (b3 := negb (existsb (eqb (protocol u)) allowedProtocols)).
  assert (H1 : b1 = true <-> exists b, In b (blocked_list cfg) /\ Substring b (hostname u))
    by apply blocked_spec.
  assert (H2 : b2 = false <->
               forall d l, allowedDomains cfg = Some (d :: l) ->
                           exists a, In a (d :: l) /\ Substring a (hostname u)).
  { subst b2. destruct (allowedDomains cfg) as [[|d l]|].
    - split; [discriminate | reflexivity].
    - rewrite negb_false_iff, existsb_includes. split.
      + intros H d' l' E. injection E as <- <-. exact H.
      + intros H. apply (H d l eq_refl).
    - split; [discriminate | reflexivity]. }
  assert (H3 : b3 = false <-> protocol u = str "http:" \/ protocol u = str "https:").
  { subst b3. rewrite negb_false_iff. apply allowedProtocols_spec. }
  clearbody b1 b2 b3.
  destruct b1; simpl.
  { split; [discriminate|]. intros [Hnb _].
    destruct (proj1 H1 eq_refl) as [b [Hin Hsub]]. exfalso. eapply Hnb; eauto. }
  assert (Hnb : forall b, In b (blocked_list cfg) -> ~ Substring b (hostname u)).
  { intros b Hin Hsub. assert (false = true) by (apply H1; eauto). discriminate. }
  destruct b2; simpl.
  { split; [discriminate|]. intros [_ [H _]]. apply H2 in H. discriminate. }
  destruct b3; simpl.
  { split; [discriminate|]. intros [_ [_ H]]. apply H3 in H. discriminate. }
  split; [intros _|reflexivity]. repeat split; auto; [now apply H2 | now apply H3].
Qed.

(** C1 (as amended).  For a parseable URL and a configuration whose
    allow-list is not empty, [validateUrl] accepts the URL if and only if
    its hostname contains an allow-listed substring, contains no blocked
    substring, and its scheme is http or https. *)
Theorem validateUrl_allow_list URL_new (cfg : SecurityConfig) (url : jsstring)
  (u : URL) (d : jsstring) (l : list jsstring) :
  URL_new url = inr u ->
  allowedDomains cfg = Some (d :: l) ->
  (valid (validateUrl URL_new cfg url) = true <->
   (exists a, In a (d :: l) /\ Substring a (hostname u)) /\
   (forall b, In b (blocked_list cfg) -> ~ Substring b (hostname u)) /\
   (protocol u = str "http:" \/ protocol u = str "https:")).
Proof.
  intros Hu Ha. rewrite (validateUrl_accepts _ cfg _ Hu). split.
  - intros [Hb [Hal Hp]]. repeat split; auto.
  - intros [Hal [Hb Hp]]. repeat split; auto.
    intros d' l' E. rewrite Ha in E. injection E as <- <-. exact Hal.
Qed.

Lemma validateUrl_allow_list_witness :
  valid (validateUrl sample_URL example_policy (str "https://example.com/")) = true <->
  (exists a, In a [str "example.com"] /\ Substring a (str "example.com")) /\
  (forall b, In b (blocked_list example_policy) -> ~ Substring b (str "example.com")) /\
  (str "https:" = str "http:" \/ str "https:" = str "https:").
Proof.
  apply (@validateUrl_allow_list sample_URL example_policy (str "https://example.com/")
           (mkURL (str "https:") (str "example.com") (str "https://example.com"))
           (str "example.com") []).
  - vm_compute. reflexivity.
  - reflexivity.
Defined.

(** C1, the claim as stated fails: with [example.com] allow-listed and
    nothing blocked that occurs in it, the hostname of
    [ftp://example.com/file] contains an allow-listed substring and no
    blocked one, and the URL is rejected, for its scheme. *)
Lemma validateUrl_allow_list_not_sufficient :
  sample_URL (str "ftp://example.com/file")
    = inr (mkURL (str "ftp:") (str "example.com") (str "ftp://example.com")) /\
  (exists a, In a [str "example.com"] /\ Substring a (str "example.com")) /\
  (forall b, In b (blocked_list example_policy) -> ~ Substring b (str "example.com")) /\
  valid (validateUrl sample_URL example_policy (str "ftp://example.com/file")) = false.
Proof.
  split; [vm_compute; reflexivity|]. split; [|split].
  - exists (str "example.com"). split; [left; reflexivity|]. apply includes_spec.
    vm_compute. reflexivity.
  - intros b Hin Hsub. apply includes_spec in Hsub.
    destruct Hin as [<-|[]]. vm_compute in Hsub. discriminate.
  - vm_compute. reflexivity.
Qed.

(** C2.  A URL string whose scheme is neither http nor https is rejected by
    [validateUrl], whatever the allow-list and the block-list (a string
    that does not parse has no scheme and is rejected as well). *)
Theorem validateUrl_rejects_other_schemes URL_new (cfg : SecurityConfig)
  (url : jsstring) :
  (forall u, URL_new url = inr u ->
             protocol u <> str "http:" /\ protocol u <> str "https:") ->
  valid (validateUrl URL_new cfg url) = false.
Proof.
  intros H.
  destruct (URL_new url) as [e|u] eqn:Hu.
  - unfold validateUrl. rewrite Hu. reflexivity.
  - destruct (valid (validateUrl URL_new cfg url)) eqn:Hv; [|reflexivity].
    apply (validateUrl_accepts _ cfg _ Hu) in Hv. destruct Hv as [_ [_ Hp]].
    destruct (H u eq_refl) as [H1 H2]. destruct Hp; contradiction.
Qed.

Lemma validateUrl_rejects_other_schemes_witness :
  valid (validateUrl sample_URL defaultSecurityConfig (str "javascript:alert(1)")) = false.
Proof.
  apply validateUrl_rejects_other_schemes.
  intros u Hu. vm_compute in Hu. injection Hu as <-. split; discriminate.
Defined.

(* ================================================================== *)
(** ** [htmlToMarkdown] *)

Example includes_empty : includes (str "example.com") [] = true.
Proof. reflexivity. Qed.

Example endsWith_slash : endsWith (str "https://a.b/products/") (str "/") = true.
Proof. reflexivity. Qed.

Example exec_lazy :
  exec_at true (lit "<p" ++ [Star true false (not_ch 62)] ++ lit ">"
                ++ [Star false true Dot] ++ lit "</p>")
          true (str "<P class=x>a</p>b</p>") = Some ([str "a"], 16).
Proof. vm_compute. reflexivity. Qed.

Example replace_greedy :
  replace (mkRegex (lit "a" ++ [Star true true (Ch 98)]) false)
          [TLit (str "["); TGroup 1; TLit (str "]")] (str "xabbbayab")
  = str "x[bbb][]y[b]".
Proof. vm_compute. reflexivity. Qed.

Lemma htmlToMarkdown_sample :
  htmlToMarkdown (str "<h1>Title</h1><p>Hello <b>world</b></p>")
  = str "# Title" ++ nl2 ++ str "Hello **world**".
Proof. vm_compute. reflexivity. Qed.

(** C8.  On [<h1>Title</h1><p>Hello <b>world</b></p>], [htmlToMarkdown]
    returns a string that starts with [# Title], contains [**world**]
    after it, and contains neither [<] (60) nor [>] (62). *)
Theorem htmlToMarkdown_heading_and_bold :
  let out := htmlToMarkdown (str "<h1>Title</h1><p>Hello <b>world</b></p>") in
  (exists rest, out = str "# Title" ++ rest /\ Substring (str "**world**") rest) /\
  ~ In 60%N out /\ ~ In 62%N out.
Proof.
  cbv zeta. rewrite htmlToMarkdown_sample. split; [|split].
  - exists (nl2 ++ str "Hello **world**"). split; [reflexivity|].
    exists (nl2 ++ str "Hello "), []. reflexivity.
  - intros H. vm_compute in H. repeat (destruct H as [H|H]; [discriminate|]). exact H.
  - intros H. vm_compute in H. repeat (destruct H as [H|H]; [discriminate|]). exact H.
Qed.

(* ================================================================== *)
(** ** Computations: what they call and what they leave alone *)

Lemma bind_Ok_inv A B (m : M A) (k : A -> M B) w b w' :
  bind m k w = (Ok b, w') ->
  exists a w1, m w = (Ok a, w1) /\ k a w1 = (Ok b, w').
Proof.
  unfold bind. destruct (m w) as [[a|e] w1]; [|discriminate].
  intros H. exists a, w1. auto.
Qed.

Lemma bind_Ok A B (m : M A) (k : A -> M B) w a w1 :
  m w = (Ok a, w1) -> bind m k w = k a w1.
Proof. unfold bind. now intros ->. Qed.

Lemma bind_Throw A B (m : M A) (k : A -> M B) w e w1 :
  m w = (Throw e, w1) -> bind m k w = (Throw e, w1).
Proof. unfold bind. now intros ->. Qed.

Lemma only_ret A Q (a : A) : only Q (ret a).
Proof.
  intros w r w' H. injection H as _ <-. exists []. split; [now rewrite app_nil_r | constructor].
Qed.

Lemma only_throw A Q e : only Q (@throw A e).
Proof.
  intros w r w' H. injection H as _ <-. exists []. split; [now rewrite app_nil_r | constructor].
Qed.

Lemma only_bind A B Q (m : M A) (k : A -> M B) :
  only Q m -> (forall a, only Q (k a)) -> only Q (bind m k).
Proof.
  intros Hm Hk w r w' H. unfold bind in H.
  destruct (m w) as [[a|e] w1] eqn:E; destruct (Hm _ _ _ E) as [d1 [T1 F1]].
  - destruct (Hk a _ _ _ H) as [d2 [T2 F2]].
    exists (d1 ++ d2). split; [now rewrite T2, T1, app_assoc | now apply Forall_app].
  - injection H as _ <-. eauto.
Qed.

Lemma only_try_catch A Q (m : M A) (h : jsstring -> M A) :
  only Q m -> (forall e, only Q (h e)) -> only Q (try_catch m h).
Proof.
  intros Hm Hh w r w' H. unfold try_catch in H.
  destruct (m w) as [[a|e] w1] eqn:E; destruct (Hm _ _ _ E) as [d1 [T1 F1]].
  - injection H as _ <-. eauto.
  - destruct (Hh e _ _ _ H) as [d2 [T2 F2]].
    exists (d1 ++ d2). split; [now rewrite T2, T1, app_assoc | now apply Forall_app].
Qed.

Lemma only_call env (Q : call -> Prop) c : Q c -> only Q (call_ env c).
Proof.
  intros Hc w r w' H. unfold call_ in H.
  exists [c]. split; [|now repeat constructor].
  destruct (answer env (trace w) c); injection H as _ <-; reflexivity.
Qed.

Lemma only_create env (Q : call -> Prop) c : Q c -> only Q (create env c).
Proof.
  intros Hc w r w' H. unfold create in H.
  destruct (call_ env c w) as [[v|e] w1] eqn:E;
    destruct (only_call env Q c Hc _ E) as [d [T F]];
    injection H as _ <-; simpl; eauto.
Qed.

Lemma only_locate (Q : call -> Prop) p sel : Q (Locator p sel) -> only Q (locate p sel).
Proof.
  intros Hc w r w' H. injection H as _ <-. exists [Locator p sel].
  split; [reflexivity | now repeat constructor].
Qed.

Lemma only_state A Q (f : World -> A) (g : World -> World) :
  (forall w, trace (g w) = trace w) -> only Q (fun w => (Ok (f w), g w)).
Proof.
  intros Hg w r w' H. injection H as _ <-. exists [].
  split; [now rewrite Hg, app_nil_r | constructor].
Qed.

Lemma only_weaken A (Q Q' : call -> Prop) (m : M A) :
  (forall c, Q c -> Q' c) -> only Q m -> only Q' m.
Proof.
  intros HQ Hm w r w' H. destruct (Hm _ _ _ H) as [d [T F]].
  exists d. split; [exact T | eapply Forall_impl; eauto].
Qed.

Lemma frames_ret A (a : A) : frames (ret a).
Proof. intros w r w' H. injection H as _ <-. auto. Qed.

Lemma frames_throw A e : frames (@throw A e).
Proof. intros w r w' H. injection H as _ <-. auto. Qed.

Lemma frames_bind A B (m : M A) (k : A -> M B) :
  frames m -> (forall a, frames (k a)) -> frames (bind m k).
Proof.
  intros Hm Hk w r w' H. unfold bind in H.
  destruct (m w) as [[a|e] w1] eqn:E; destruct (Hm _ _ _ E) as [S1 N1].
  - destruct (Hk a _ _ _ H) as [S2 N2]. split; [congruence | lia].
  - injection H as _ <-. auto.
Qed.

Lemma frames_try_catch A (m : M A) (h : jsstring -> M A) :
  frames m -> (forall e, frames (h e)) -> frames (try_catch m h).
Proof.
  intros Hm Hh w r w' H. unfold try_catch in H.
  destruct (m w) as [[a|e] w1] eqn:E; destruct (Hm _ _ _ E) as [S1 N1].
  - injection H as _ <-. auto.
  - destruct (Hh e _ _ _ H) as [S2 N2]. split; [congruence | lia].
Qed.

Lemma frames_call env c : frames (call_ env c).
Proof.
  intros w r w' H. unfold call_ in H.
  destruct (answer env (trace w) c); injection H as _ <-; auto.
Qed.

Lemma frames_create env c : frames (create env c).
Proof.
  intros w r w' H. unfold create in H.
  destruct (call_ env c w) as [[v|e] w1] eqn:E;
    destruct (frames_call _ _ _ E) as [S1 N1];
    injection H as _ <-; simpl; auto.
Qed.

Lemma frames_state A (f : World -> A) (g : World -> World) :
  (forall w, sessions (g w) = sessions w) ->
  (forall w, next_handle (g w) = next_handle w) ->
  frames (fun w => (Ok (f w), g w)).
Proof.
  intros Hs Hn w r w' H. injection H as _ <-. rewrite Hs, Hn. auto.
Qed.

(** One step of the two analyses, by the shape of the computation. *)
Ltac step_calls :=
  match goal with
  | |- only _ (bind _ _) => apply only_bind; [|intros ?]
  | |- only _ (try_catch _ _) => apply only_try_catch; [|intros ?]
  | |- only _ (ret _) => apply only_ret
  | |- only _ (throw _) => apply only_throw
  | |- only _ (call_ _ _) => apply only_call; simpl; auto
  | |- only _ (create _ _) => apply only_create; simpl; auto
  | |- only _ (locate _ _) => apply only_locate; simpl; auto
  | |- only _ (now _) => apply only_state; reflexivity
  | |- only _ (draw _ _) => apply only_state; reflexivity
  | |- only _ (draw36 _) => apply only_state; reflexivity
  | |- only _ get_sessions => apply only_state; reflexivity
  | |- only _ get_browser => apply only_state; reflexivity
  | |- only _ (set_sessions _) => apply only_state; reflexivity
  | |- only _ (set_browser _) => apply only_state; reflexivity
  | |- frames (bind _ _) => apply frames_bind; [|intros ?]
  | |- frames (try_catch _ _) => apply frames_try_catch; [|intros ?]
  | |- frames (ret _) => apply frames_ret
  | |- frames (throw _) => apply frames_throw
  | |- frames (call_ _ _) => apply frames_call
  | |- frames (create _ _) => apply frames_create
  | |- frames (locate _ _) => apply frames_state; reflexivity
  | |- frames (now _) => apply frames_state; reflexivity
  | |- frames (draw _ _) => apply frames_state; reflexivity
  | |- frames (draw36 _) => apply frames_state; reflexivity
  | |- frames get_sessions => apply frames_state; reflexivity
  | |- frames get_browser => apply frames_state; reflexivity
  | |- frames (set_browser _) => apply frames_state; reflexivity
  | |- _ (if ?b then _ else _) => destruct b
  | |- _ (match ?x with _ => _ end) => destruct x
  end.

Ltac calls := repeat step_calls.

Section ManagerProperties.

Set Default Proof Using "Type".

Variable env : Env.
Variable this_config : BrowserConfig.
Variable URL_new : jsstring -> jsstring + URL.
Variable joi_message : JoiError -> jsstring -> jsstring.
Variable security_config : SecurityConfig.

Lemma initialize_calls : only session_call (initialize env this_config).
Proof. unfold initialize. calls. Qed.

Lemma generateSessionId_calls Q : only Q (generateSessionId env).
Proof. unfold generateSessionId. calls. Qed.

Lemma initializeStealthMode_calls p : only session_call (initializeStealthMode env p).
Proof. unfold initializeStealthMode. calls. Qed.

Lemma createSession_calls sid : only session_call (createSession env this_config sid).
Proof.
  unfold createSession. calls;
    try apply initialize_calls; try apply generateSessionId_calls;
    try apply initializeStealthMode_calls.
Qed.

Lemma getSession_calls sid : only session_call (getSession env this_config sid).
Proof. unfold getSession. calls; apply createSession_calls. Qed.

Lemma filter_none (P : call -> bool) d :
  Forall (fun c => P c = false) d -> filter P d = [].
Proof.
  induction 1 as [|c d Hc _ IH]; [reflexivity|]. simpl. now rewrite Hc.
Qed.

Lemma session_calls_no_goto d : Forall session_call d -> filter is_goto d = [].
Proof.
  intros H. apply filter_none. eapply Forall_impl; [|exact H].
  intros [] Hc; try reflexivity; destruct Hc.
Qed.

Lemma validateUrl_parses url :
  valid (validateUrl URL_new security_config url) = true ->
  exists u, URL_new url = inr u.
Proof.
  unfold validateUrl. destruct (URL_new url) as [e|u]; [discriminate | eauto].
Qed.

(** C6 (as amended).  For a URL accepted by validation, once the session is
    resolved, [navigate] returns a result.  When the URL is not a products
    sub-page (it does not contain [/products/], or it ends with [/]), it
    makes exactly one navigate-to call: on the page of the session, to the
    requested URL, with the requested wait condition ([domcontentloaded]
    when none is given) and the requested timeout (the configured one, else
    30000, when none or zero is given).  When the URL contains [/products/]
    and does not end with [/], the first call after the session is resolved
    is a navigate-to call to the origin of the URL, and at most one
    navigate-to call follows it, the one to the requested URL; when none
    follows, the result is a failure. *)
Theorem navigate_single_goto url sid options w session w1 :
  valid (validateUrl URL_new security_config url) = true ->
  getSession env this_config sid w = (Ok session, w1) ->
  (includes url (str "/products/") = false \/ endsWith url (str "/") = true ->
   exists r w2 d,
     navigate env this_config URL_new security_config url sid options w = (Ok r, w2) /\
     trace w2 = trace w ++ d /\
     filter is_goto d =
       [Goto (page session) url
             (or_str (waitUntil options) (str "domcontentloaded"))
             (or_num (nav_timeout options) (or_num (timeout this_config) 30000))]) /\
  (includes url (str "/products/") = true -> endsWith url (str "/") = false ->
   exists u r w2 d,
     URL_new url = inr u /\
     navigate env this_config URL_new security_config url sid options w = (Ok r, w2) /\
     trace w2 = trace w1 ++
                Goto (page session) (origin u) (str "domcontentloaded")
                     (or_num (nav_timeout options) (or_num (timeout this_config) 30000))
                :: d /\
     (filter is_goto d =
        [Goto (page session) url
              (or_str (waitUntil options) (str "domcontentloaded"))
              (or_num (nav_timeout options) (or_num (timeout this_config) 30000))]
      \/ filter is_goto d = [] /\ nav_success r = false)).
Proof.
  intros Hv Hs.
  set (g := Goto (page session) url (or_str (waitUntil options) (str "domcontentloaded"))
                 (or_num (nav_timeout options) (or_num (timeout this_config) 30000))).
  split.
  - intros Hp.
    destruct (getSession_calls sid _ Hs) as [d0 [T0 F0]].
    pose proof (session_calls_no_goto F0) as G0.
    assert (Hc : includes url (str "/products/") && negb (endsWith url (str "/")) = false).
    { destruct Hp as [-> | ->]; [reflexivity | apply andb_false_r]. }
    remember (navigate env this_config URL_new security_config url sid options w) as res eqn:E.
    unfold navigate, security_validateUrl in E. rewrite Hv in E. cbn [negb] in E.
    rewrite bind_Ok with (1 := Hs) in E. rewrite Hc in E.
    cbv [try_catch bind ret call_ with_trace] in E.
    cbn [trace browser sessions next_handle ticks] in E. fold g in E.
    destruct (answer env (trace w1) g) as [v1|e1];
      cbn [trace browser sessions next_handle ticks] in E.
    + destruct (answer env (trace w1 ++ [g]) (Title (page session))) as [v2|e2];
        cbn [trace browser sessions next_handle ticks] in E.
      * destruct (answer env ((trace w1 ++ [g]) ++ [Title (page session)])
                         (Url (page session))) as [v3|e3];
          cbn [trace browser sessions next_handle ticks] in E;
          subst res; eexists; eexists;
          exists (d0 ++ [g; Title (page session); Url (page session)]);
          (split; [reflexivity|]); cbn [trace]; rewrite T0, <- !app_assoc;
          (split; [reflexivity|]); rewrite filter_app, G0; reflexivity.
      * subst res; eexists; eexists; exists (d0 ++ [g; Title (page session)]).
        split; [reflexivity|]. cbn [trace]. rewrite T0, <- !app_assoc.
        split; [reflexivity|]. rewrite filter_app, G0. reflexivity.
    + subst res; eexists; eexists; exists (d0 ++ [g]).
      split; [reflexivity|]. cbn [trace]. rewrite T0, <- !app_assoc.
      split; [reflexivity|]. rewrite filter_app, G0. reflexivity.
  - intros Hi He.
    destruct (validateUrl_parses _ Hv) as [u Hu]. exists u.
    set (g0 := Goto (page session) (origin u) (str "domcontentloaded")
                    (or_num (nav_timeout options) (or_num (timeout this_config) 30000))).
    remember (navigate env this_config URL_new security_config url sid options w) as res eqn:E.
    unfold navigate, security_validateUrl in E. rewrite Hv in E. cbn [negb] in E.
    rewrite bind_Ok with (1 := Hs) in E. rewrite Hi, He, Hu in E. cbn [negb andb] in E.
    cbv [try_catch bind ret call_ with_trace humanDelay draw tick] in E.
    cbn [trace browser sessions next_handle ticks] in E. fold g g0 in E.
    destruct (answer env (trace w1) g0) as [v0|e0];
      cbn [trace browser sessions next_handle ticks] in E.
    + match type of E with
      | context [answer env (trace w1 ++ [g0]) (Sleep ?ms)] =>
          set (nap := Sleep ms) in *;
          destruct (answer env (trace w1 ++ [g0]) nap) as [vs|es]
      end; cbn [trace browser sessions next_handle ticks] in E.
      * destruct (answer env ((trace w1 ++ [g0]) ++ [nap]) g) as [v1|e1];
          cbn [trace browser sessions next_handle ticks] in E.
        -- destruct (answer env (((trace w1 ++ [g0]) ++ [nap]) ++ [g])
                            (Title (page session))) as [v2|e2];
             cbn [trace browser sessions next_handle ticks] in E.
           ++ destruct (answer env ((((trace w1 ++ [g0]) ++ [nap]) ++ [g])
                                      ++ [Title (page session)])
                               (Url (page session))) as [v3|e3];
                cbn [trace browser sessions next_handle ticks] in E;
                subst res; eexists; eexists;
                exists [nap; g; Title (page session); Url (page session)];
                (split; [exact Hu|]); (split; [reflexivity|]);
                cbn [trace]; rewrite <- !app_assoc;
                (split; [reflexivity|]); left; reflexivity.
           ++ subst res; eexists; eexists; exists [nap; g; Title (page session)].
              split; [exact Hu|]. split; [reflexivity|].
              cbn [trace]. rewrite <- !app_assoc. split; [reflexivity|]. left. reflexivity.
        -- subst res; eexists; eexists; exists [nap; g].
           split; [exact Hu|]. split; [reflexivity|].
           cbn [trace]. rewrite <- !app_assoc. split; [reflexivity|]. left. reflexivity.
      * subst res; eexists; eexists; exists [nap].
        split; [exact Hu|]. split; [reflexivity|].
        cbn [trace]. rewrite <- !app_assoc. split; [reflexivity|]. right.
        split; reflexivity.
    + subst res; eexists; eexists; exists [].
      split; [exact Hu|]. split; [reflexivity|].
      cbn [trace]. split; [reflexivity|]. right. split; reflexivity.
Qed.

(** *** [interactElement] *)

Lemma call_Returns c w v :
  answer env (trace w) c = Returns v ->
  call_ env c w = (Ok v, with_trace w (trace w ++ [c])).
Proof. unfold call_. now intros ->. Qed.

Lemma call_Raises c w e :
  answer env (trace w) c = Raises e ->
  call_ env c w = (Throw e, with_trace w (trace w ++ [c])).
Proof. unfold call_. now intros ->. Qed.

Lemma dispatch_unsupported p o :
  supported_action (action o) = false ->
  dispatch env joi_message p o = throw (str "Unsupported action: " ++ action o).
Proof.
  unfold supported_action. cbn [existsb]. intros H.
  repeat (apply orb_false_elim in H as [? H]).
  unfold dispatch.
  repeat match goal with E : eqb _ _ = false |- _ => rewrite E; clear E end.
  reflexivity.
Qed.

Lemma session_call_valid_fill c : session_call c -> ~ invalid_fill joi_message c.
Proof. destruct c; simpl; intros H HF; solve [destruct H | destruct HF]. Qed.

Lemma dispatch_calls p o :
  only (fun c => ~ invalid_fill joi_message c) (dispatch env joi_message p o).
Proof.
  unfold dispatch.
  destruct (eqb (action o) (str "click")); [calls|].
  destruct (eqb (action o) (str "type")).
  { destruct (value o) as [[|c v]|]; [calls| |calls].
    unfold security_validateInputText.
    destruct (valid (validateInputText joi_message (c :: v))) eqn:Hv; cbn [negb]; [|calls].
    calls. simpl. congruence. }
  calls.
Qed.

Lemma interactElement_calls sid o :
  valid (validateSelector joi_message (selector o)) = true ->
  only (fun c => ~ invalid_fill joi_message c)
       (interactElement env this_config joi_message sid o).
Proof.
  intros Hv. unfold interactElement, security_validateSelector. rewrite Hv. cbn [negb].
  apply only_bind.
  - eapply only_weaken; [|apply getSession_calls]. apply session_call_valid_fill.
  - intros session. apply only_try_catch; [|intros e; calls].
    apply only_bind; [calls|intros _].
    apply only_bind; [calls|intros _].
    apply only_bind; [apply dispatch_calls|intros _].
    calls.
Qed.

Lemma dispatch_refused_text p o c v :
  action o = str "type" ->
  value o = Some (c :: v) ->
  valid (validateInputText joi_message (c :: v)) = false ->
  dispatch env joi_message p o
  = throw (error_message (validateInputText joi_message (c :: v))).
Proof.
  intros Ha Hval Hv. unfold dispatch, security_validateInputText.
  rewrite Ha, Hval, Hv.
  assert (E1 : eqb (str "type") (str "click") = false) by (vm_compute; reflexivity).
  rewrite E1, eqb_refl. reflexivity.
Qed.

Lemma interactElement_refusal sid o w session w1 m :
  valid (validateSelector joi_message (selector o)) = true ->
  dispatch env joi_message (page session) o = throw m ->
  getSession env this_config sid w = (Ok session, w1) ->
  exists r w2,
    interactElement env this_config joi_message sid o w = (Ok r, w2) /\
    int_success r = false /\ element r = None /\
    trace w2 = trace w1 ++
               [Locator (page session) (selector o);
                OnLocator (page session) (selector o)
                          (LWaitFor (or_num (sub_timeout o) 5000))] /\
    (forall v, answer env (trace w1 ++ [Locator (page session) (selector o)])
                 (OnLocator (page session) (selector o)
                            (LWaitFor (or_num (sub_timeout o) 5000))) = Returns v ->
               int_error r = Some m).
Proof.
  intros Hv Hd Hs.
  remember (interactElement env this_config joi_message sid o w) as res eqn:E.
  unfold interactElement, security_validateSelector in E. rewrite Hv in E.
  cbn [negb] in E. rewrite bind_Ok with (1 := Hs) in E.
  rewrite Hd in E.
  cbv [try_catch bind ret throw call_ locate with_trace] in E.
  cbn [trace browser sessions next_handle ticks] in E.
  destruct (answer env (trace w1 ++ [Locator (page session) (selector o)])
              (OnLocator (page session) (selector o)
                         (LWaitFor (or_num (sub_timeout o) 5000))));
    subst res; eexists; eexists; (split; [reflexivity|]);
    cbn [trace int_success element int_error]; rewrite <- app_assoc;
    repeat split; auto; intros v0 Hv0; discriminate.
Qed.

(** C3 (as amended).  In [interactElement], a selector that fails
    validation is thrown to the caller before any call is made: the state
    is untouched.  An unsupported action, and a typed value that
    [validateInputText] refuses, are rejected but not thrown: once the
    session is resolved the element is located and waited for, nothing else
    is done with it, and the result is a soft failure, which carries the
    message of the rejection when the wait has succeeded.  No value that
    [validateInputText] refuses is ever filled into the element. *)
Theorem interactElement_validation sid o w :
  (valid (validateSelector joi_message (selector o)) = false ->
   interactElement env this_config joi_message sid o w
   = (Throw (error_message (validateSelector joi_message (selector o))), w)) /\
  (valid (validateSelector joi_message (selector o)) = true ->
   supported_action (action o) = false ->
   forall session w1,
     getSession env this_config sid w = (Ok session, w1) ->
     exists r w2,
       interactElement env this_config joi_message sid o w = (Ok r, w2) /\
       int_success r = false /\ element r = None /\
       trace w2 = trace w1 ++
                  [Locator (page session) (selector o);
                   OnLocator (page session) (selector o)
                             (LWaitFor (or_num (sub_timeout o) 5000))] /\
       (forall v, answer env (trace w1 ++ [Locator (page session) (selector o)])
                    (OnLocator (page session) (selector o)
                               (LWaitFor (or_num (sub_timeout o) 5000))) = Returns v ->
                  int_error r = Some (str "Unsupported action: " ++ action o))) /\
  (valid (validateSelector joi_message (selector o)) = true ->
   forall c v,
     action o = str "type" ->
     value o = Some (c :: v) ->
     valid (validateInputText joi_message (c :: v)) = false ->
     forall session w1,
       getSession env this_config sid w = (Ok session, w1) ->
       exists r w2,
         interactElement env this_config joi_message sid o w = (Ok r, w2) /\
         int_success r = false /\ element r = None /\
         trace w2 = trace w1 ++
                    [Locator (page session) (selector o);
                     OnLocator (page session) (selector o)
                               (LWaitFor (or_num (sub_timeout o) 5000))] /\
         (forall v0, answer env (trace w1 ++ [Locator (page session) (selector o)])
                       (OnLocator (page session) (selector o)
                                  (LWaitFor (or_num (sub_timeout o) 5000))) = Returns v0 ->
                     int_error r
                     = Some (error_message (validateInputText joi_message (c :: v))))) /\
  (forall r w',
     interactElement env this_config joi_message sid o w = (r, w') ->
     exists d, trace w' = trace w ++ d /\
               Forall (fun c => ~ invalid_fill joi_message c) d).
Proof.
  split; [|split; [|split]].
  - intros Hv. unfold interactElement, security_validateSelector. rewrite Hv. reflexivity.
  - intros Hv Ha session w1 Hs.
    exact (interactElement_refusal sid o w Hv (dispatch_unsupported _ _ Ha) Hs).
  - intros Hv c v Ha Hval Ht session w1 Hs.
    exact (interactElement_refusal sid o w Hv
             (dispatch_refused_text (page session) o Ha Hval Ht) Hs).
  - intros r w' H.
    destruct (valid (validateSelector joi_message (selector o))) eqn:Hv.
    + exact (interactElement_calls sid o Hv _ H).
    + unfold interactElement, security_validateSelector in H. rewrite Hv in H.
      injection H as _ <-. exists []. split; [now rewrite app_nil_r | constructor].
Qed.

(** *** [cleanup] *)

Lemma close_all_ok m :
  (forall h c, In c (closes m) -> exists v, answer env h c = Returns v) ->
  forall w, exists w',
    close_all env m w = (Ok tt, w') /\
    trace w' = trace w ++ closes m /\
    sessions w' = sessions w /\ browser w' = browser w.
Proof.
  induction m as [|[k s] m IH]; intros Hok w.
  - exists w. simpl. rewrite app_nil_r. auto.
  - destruct (Hok (trace w) (ContextClose (context s)) (or_introl eq_refl)) as [v Hv].
    destruct (IH (fun h c Hc => Hok h c (or_intror Hc))
                 (with_trace w (trace w ++ [ContextClose (context s)])))
      as [w' [E [T [S B]]]].
    exists w'. cbn [close_all]. rewrite bind_Ok with (1 := call_Returns _ _ Hv).
    rewrite E. cbn [trace with_trace] in T. rewrite T, <- app_assoc. auto.
Qed.

Lemma close_all_stuck m1 k s m2 e :
  (forall h c, In c (closes m1) -> exists v, answer env h c = Returns v) ->
  (forall h, answer env h (ContextClose (context s)) = Raises e) ->
  forall w, exists w',
    close_all env (m1 ++ (k, s) :: m2) w = (Throw e, w') /\
    trace w' = trace w ++ closes m1 ++ [ContextClose (context s)] /\
    sessions w' = sessions w /\ browser w' = browser w.
Proof.
  induction m1 as [|[k1 s1] m1 IH]; intros Hok Hbad w.
  - eexists. cbn [app close_all].
    rewrite bind_Throw with (1 := call_Raises _ _ (Hbad (trace w))). auto.
  - destruct (Hok (trace w) (ContextClose (context s1)) (or_introl eq_refl)) as [v Hv].
    destruct (IH (fun h c Hc => Hok h c (or_intror Hc)) Hbad
                 (with_trace w (trace w ++ [ContextClose (context s1)])))
      as [w' [E [T [S B]]]].
    exists w'. cbn [app close_all]. rewrite bind_Ok with (1 := call_Returns _ _ Hv).
    rewrite E. cbn [trace with_trace] in T. rewrite T, <- app_assoc. auto.
Qed.

(** C4.  The claim asks of [cleanup] a best effort, and its own comment
    says it cleans up all sessions and the browser; this is what it does.
    It closes the contexts of the tracked sessions in the order of the map,
    and when every close returns it empties the map and closes the browser.
    A context close that fails aborts it: the error goes to the caller, the
    contexts of the sessions after the failing one and the browser are not
    closed, and the map still holds every session, the closed ones too.  A
    browser close that fails, the map being empty by then, goes to the
    caller as well, and the browser stays recorded. *)
Theorem cleanup_closes_until_failure w :
  ((forall h c, is_close c = true -> exists v, answer env h c = Returns v) ->
   exists w',
     cleanup env w = (Ok tt, w') /\
     sessions w' = [] /\ browser w' = None /\
     trace w' = trace w ++ closes (sessions w) ++ browser_close (browser w)) /\
  (forall m1 k s m2 e,
     sessions w = m1 ++ (k, s) :: m2 ->
     (forall h c, In c (closes m1) -> exists v, answer env h c = Returns v) ->
     (forall h, answer env h (ContextClose (context s)) = Raises e) ->
     exists w',
       cleanup env w = (Throw e, w') /\
       sessions w' = sessions w /\ browser w' = browser w /\
       trace w' = trace w ++ closes m1 ++ [ContextClose (context s)]) /\
  (forall b e,
     browser w = Some b ->
     (forall h c, In c (closes (sessions w)) -> exists v, answer env h c = Returns v) ->
     (forall h, answer env h (BrowserClose b) = Raises e) ->
     exists w',
       cleanup env w = (Throw e, w') /\
       sessions w' = [] /\ browser w' = Some b /\
       trace w' = trace w ++ closes (sessions w) ++ [BrowserClose b]).
Proof.
  split; [|split].
  - intros Hok.
    assert (Hall : forall h c, In c (closes (sessions w)) ->
                               exists v, answer env h c = Returns v).
    { intros h c Hc. apply Hok. unfold closes in Hc. apply in_map_iff in Hc.
      destruct Hc as [kv [<- _]]. reflexivity. }
    destruct (close_all_ok _ Hall w) as [w1 [E [T [S B]]]].
    unfold cleanup. cbv [bind get_sessions get_browser set_sessions set_browser].
    rewrite E. cbn [browser sessions trace next_handle ticks]. rewrite B.
    destruct (browser w) as [b|]; cbn [browser_close].
    + destruct (Hok (trace w1) (BrowserClose b) eq_refl) as [v Hv].
      unfold call_. cbn [trace]. rewrite Hv.
      eexists. split; [reflexivity|]. cbn [browser sessions trace with_trace].
      rewrite T, <- app_assoc. auto.
    + eexists. split; [reflexivity|]. cbn [browser sessions trace].
      rewrite T, app_nil_r. auto.
  - intros m1 k s m2 e Hm Hok Hbad.
    destruct (@close_all_stuck m1 k s m2 e Hok Hbad w) as [w1 [E [T [S B]]]].
    rewrite <- Hm in E.
    exists w1. unfold cleanup. cbv [bind get_sessions]. rewrite E. auto.
  - intros b e Hb Hall Hbad.
    destruct (close_all_ok _ Hall w) as [w1 [E [T [S B]]]].
    unfold cleanup. cbv [bind get_sessions get_browser set_sessions set_browser].
    rewrite E. cbn [browser sessions trace next_handle ticks]. rewrite B, Hb.
    unfold call_. cbn [trace]. rewrite (Hbad (trace w1)).
    eexists. split; [reflexivity|]. cbn [browser sessions trace with_trace].
    rewrite T, <- app_assoc. auto.
Qed.

(** *** The map of sessions *)

Lemma map_get_In V k (v : V) m : map_get k m = Some v -> In (k, v) m.
Proof.
  induction m as [|[k' v'] m IH]; simpl; [discriminate|].
  destruct (eqb k k') eqn:E.
  - intros H. injection H as ->. apply eqb_eq in E. subst. now left.
  - intros H. right. auto.
Qed.

Lemma map_get_set_same V k (v : V) m : map_get k (map_set k v m) = Some v.
Proof.
  induction m as [|[k' v'] m IH]; simpl.
  - now rewrite eqb_refl.
  - destruct (eqb k k') eqn:E; simpl; [now rewrite eqb_refl | now rewrite E].
Qed.

Lemma map_get_set_other V k k' (v : V) m :
  k' <> k -> map_get k' (map_set k v m) = map_get k' m.
Proof.
  intros Hne. apply eqb_neq in Hne.
  induction m as [|[k0 v0] m IH]; simpl.
  - now rewrite Hne.
  - destruct (eqb k k0) eqn:E; simpl.
    + apply eqb_eq in E. subst k0. now rewrite Hne.
    + now rewrite IH.
Qed.

Lemma map_set_In V k (v : V) m kv : In kv (map_set k v m) -> kv = (k, v) \/ In kv m.
Proof.
  induction m as [|[k' v'] m IH]; simpl.
  - intros [<-|[]]. now left.
  - destruct (eqb k k'); simpl.
    + intros [<-|H]; auto.
    + intros [<-|H]; auto. destruct (IH H); auto.
Qed.

Lemma map_set_Forall V (P : jsstring * V -> Prop) k v m :
  P (k, v) -> Forall P m -> Forall P (map_set k v m).
Proof.
  intros Hn Hm. apply Forall_forall. intros kv Hin.
  destruct (map_set_In _ _ _ _ Hin) as [->|H]; [exact Hn|].
  rewrite Forall_forall in Hm. auto.
Qed.

Lemma map_set_NoDup V B (f : jsstring * V -> B) k v m :
  NoDup (map f m) -> ~ In (f (k, v)) (map f m) -> NoDup (map f (map_set k v m)).
Proof.
  induction m as [|[k' v'] m IH]; simpl; intros Hnd Hfresh.
  - constructor; [intros [] | constructor].
  - inversion Hnd as [|x l Hx Hl]; subst.
    assert (Hfresh' : ~ In (f (k, v)) (map f m))
      by (intros Hin; apply Hfresh; right; exact Hin).
    destruct (eqb k k'); simpl.
    + constructor; [exact Hfresh' | exact Hl].
    + constructor; [|apply IH; [exact Hl | exact Hfresh']].
      intros Hin. apply in_map_iff in Hin. destruct Hin as [kv [E Hin]].
      destruct (map_set_In _ _ _ _ Hin) as [->|H].
      * apply Hfresh. left. congruence.
      * apply Hx. apply in_map_iff. eauto.
Qed.

Lemma map_set_same_image V B (f : jsstring * V -> B) k v v' m :
  map_get k m = Some v -> f (k, v') = f (k, v) -> map f (map_set k v' m) = map f m.
Proof.
  intros Hg Hf. induction m as [|[k0 v0] m IH]; simpl in *; [discriminate|].
  destruct (eqb k k0) eqn:E.
  - injection Hg as ->. apply eqb_eq in E. subst k0. simpl. now rewrite Hf.
  - simpl. now rewrite IH.
Qed.

Lemma NoDup_map_inj A B (f : A -> B) l a b :
  NoDup (map f l) -> In a l -> In b l -> f a = f b -> a = b.
Proof.
  induction l as [|x l IH]; simpl; intros Hnd Ha Hb E; [destruct Ha|].
  inversion Hnd as [|y l' Hx Hl]; subst.
  destruct Ha as [->|Ha], Hb as [->|Hb]; auto.
  - exfalso. apply Hx. rewrite E. now apply in_map.
  - exfalso. apply Hx. rewrite <- E. now apply in_map.
Qed.

(** *** Sessions *)

Lemma wf_initial : wf this_config initial.
Proof. constructor; simpl; constructor. Qed.

Lemma wf_mono w w' :
  wf this_config w -> sessions w' = sessions w -> next_handle w <= next_handle w' ->
  wf this_config w'.
Proof.
  intros [Hc Hp He] Hs Hn. constructor; rewrite Hs; auto.
  eapply Forall_impl; [|exact He]. simpl. intros kv [H1 [H2 [H3 [H4 H5]]]].
  repeat split; auto; lia.
Qed.

Lemma initialize_frames : frames (initialize env this_config).
Proof. unfold initialize. calls. Qed.

Lemma generateSessionId_frames : frames (generateSessionId env).
Proof. unfold generateSessionId. calls. Qed.

Lemma initializeStealthMode_frames p : frames (initializeStealthMode env p).
Proof. unfold initializeStealthMode. calls. Qed.

Lemma create_Ok_inv c w h w' :
  create env c w = (Ok h, w') ->
  h = next_handle w /\ next_handle w' = S (next_handle w) /\ sessions w' = sessions w.
Proof.
  unfold create, call_. destruct (answer env (trace w) c); [|discriminate].
  intros H. injection H as <- <-. auto.
Qed.

Lemma try_catch_rethrow_inv A (m : M A) (f : jsstring -> jsstring) w a w' :
  try_catch m (fun e => throw (f e)) w = (Ok a, w') -> m w = (Ok a, w').
Proof.
  unfold try_catch. destruct (m w) as [[a'|e] w1]; [auto | discriminate].
Qed.

Ltac inv_bind H :=
  let a := fresh "a" in
  let w := fresh "w" in
  let E := fresh "E" in
  apply bind_Ok_inv in H; destruct H as [a [w [E H]]].

(** What a successful [createSession] does to the state. *)
Lemma createSession_ok sid w k w' :
  createSession env this_config sid w = (Ok k, w') ->
  k <> [] /\ (truthy_str sid = true -> sid = Some k) /\
  exists ctx pg t1 t2,
    next_handle w <= ctx /\ next_handle w <= pg /\
    ctx < next_handle w' /\ pg < next_handle w' /\
    sessions w' = map_set k (mkSession k ctx pg t1 t2 this_config) (sessions w).
Proof.
  intros H. unfold createSession in H.
  inv_bind H. injection E as <- <-.
  inv_bind H. rename w0 into w1, E into E1.
  assert (F1 : sessions w1 = sessions w /\ next_handle w <= next_handle w1).
  { destruct (browser w); [injection E1 as _ <-; auto|].
    eapply initialize_frames; eassumption. }
  inv_bind H. rename a0 into k0, w0 into w2, E into E2.
  assert (F2 : (sessions w2 = sessions w1 /\ next_handle w1 <= next_handle w2) /\
               k0 <> [] /\ (truthy_str sid = true -> sid = Some k0)).
  { destruct sid as [[|c sid]|]; cbn [truthy_str or_str] in E2.
    - split; [eapply generateSessionId_frames; eassumption|].
      split; [|discriminate]. unfold generateSessionId in E2.
      inv_bind E2. inv_bind E2. injection E2 as <- _. discriminate.
    - injection E2 as <- <-. repeat split; auto. discriminate.
    - split; [eapply generateSessionId_frames; eassumption|].
      split; [|discriminate]. unfold generateSessionId in E2.
      inv_bind E2. inv_bind E2. injection E2 as <- _. discriminate. }
  destruct F1 as [S1 N1]. destruct F2 as [[S2 N2] [Hk Hsid]].
  apply try_catch_rethrow_inv in H.
  inv_bind H. injection E as <- <-.
  destruct (browser w2) as [b|]; [|discriminate].
  inv_bind H. rename a0 into ctx, w0 into w3.
  apply create_Ok_inv in E as [-> [N3 S3]].
  inv_bind H. rename a0 into pg, w0 into w4.
  apply create_Ok_inv in E as [-> [N4 S4]].
  inv_bind H. rename w0 into w5.
  eapply initializeStealthMode_frames in E. destruct E as [S5 N5].
  inv_bind H. injection E as <- <-.
  inv_bind H. injection E as <- <-.
  inv_bind H. injection E as <- <-.
  inv_bind H. injection E as _ <-.
  injection H as <- <-.
  split; [exact Hk|]. split; [exact Hsid|].
  exists (next_handle w2), (next_handle w3), (clock env (ticks w5)), (clock env (S (ticks w5))).
  cbn [sessions next_handle tick ticks]. rewrite S5, S4, S3, S2, S1.
  repeat split; lia.
Qed.

(** [getSession] on a known identifier: the stored session, touched. *)
Lemma getSession_known k s0 w :
  k <> [] -> map_get k (sessions w) = Some s0 ->
  exists t,
    getSession env this_config (Some k) w
    = (Ok (mkSession (id s0) (context s0) (page s0) (createdAt s0) t (config s0)),
       mkWorld (browser w)
               (map_set k (mkSession (id s0) (context s0) (page s0) (createdAt s0) t (config s0))
                        (sessions w))
               (trace w) (next_handle w) (S (ticks w))).
Proof.
  intros Hk Hg. exists (clock env (ticks w)).
  destruct k as [|c k]; [contradiction|].
  unfold getSession. cbv [bind get_sessions]. cbn [truthy_str or_str]. rewrite Hg.
  reflexivity.
Qed.

(** The two ways in which [getSession] returns a session: a stored one,
    touched, or a new one, with new objects. *)
Lemma getSession_cases sid w s w1 :
  getSession env this_config sid w = (Ok s, w1) ->
  exists k,
    k <> [] /\ (truthy_str sid = true -> sid = Some k) /\
    sessions w1 = map_set k s (sessions w) /\
    ((exists s0,
        sid = Some k /\ map_get k (sessions w) = Some s0 /\
        context s = context s0 /\ page s = page s0 /\ id s = id s0 /\
        config s = config s0 /\ trace w1 = trace w /\ next_handle w1 = next_handle w)
     \/
     (exists ctx pg t1 t2,
        s = mkSession k ctx pg t1 t2 this_config /\
        (truthy_str sid = true -> map_get k (sessions w) = None) /\
        next_handle w <= ctx /\ next_handle w <= pg /\
        ctx < next_handle w1 /\ pg < next_handle w1)).
Proof.
  intros H. unfold getSession in H. inv_bind H. injection E as <- <-.
  destruct (if truthy_str sid then map_get (or_str sid []) (sessions w) else None)
    as [s0|] eqn:Hm.
  - destruct sid as [[|c k]|]; try discriminate. cbn [truthy_str or_str] in Hm, H.
    inv_bind H. injection E as <- <-.
    inv_bind H. injection E as _ <-.
    injection H as <- <-.
    exists (c :: k). split; [discriminate|]. split; [reflexivity|].
    split; [reflexivity|]. left. exists s0. repeat split; auto.
  - inv_bind H. rename a into k, w0 into w2.
    destruct (createSession_ok _ _ E) as [Hk [Hsid [ctx [pg [t1 [t2 [N1 [N2 [N3 [N4 S]]]]]]]]]].
    inv_bind H. injection E0 as <- <-.
    rewrite S, map_get_set_same in H. injection H as <- <-.
    exists k. repeat split; auto. right. exists ctx, pg, t1, t2.
    repeat split; auto.
    intros Ht. rewrite Ht in Hm. rewrite (Hsid Ht) in Hm.
    destruct k; [contradiction | exact Hm].
Qed.

Lemma getSession_wf sid w s w1 :
  wf this_config w ->
  getSession env this_config sid w = (Ok s, w1) ->
  wf this_config w1 /\ config s = this_config /\
  exists k, k <> [] /\ (truthy_str sid = true -> sid = Some k) /\
            map_get k (sessions w1) = Some s /\
            context s < next_handle w1 /\ page s < next_handle w1.
Proof.
  intros [Hc Hp He] H.
  destruct (getSession_cases _ _ H) as [k [Hk [Hsid [S Hcase]]]].
  assert (Hstored : map_get k (sessions w1) = Some s)
    by (rewrite S; apply map_get_set_same).
  rewrite Forall_forall in He.
  destruct Hcase as [[s0 [_ [Hg [E1 [E2 [E3 [E4 [_ N]]]]]]]] | [ctx [pg [t1 [t2 [-> [_ [N1 [N2 [N3 N4]]]]]]]]]].
  - destruct (He _ (map_get_In _ _ Hg)) as [_ [Hid [Hcfg [L1 L2]]]]. cbn [fst snd] in *.
    split; [|split; [congruence|]].
    + constructor; rewrite S.
      * rewrite map_set_same_image with (1 := Hg); auto.
      * rewrite map_set_same_image with (1 := Hg); auto.
      * apply map_set_Forall; cbn [fst snd].
        -- repeat split; auto; try congruence; lia.
        -- apply Forall_forall. intros kv Hin. specialize (He _ Hin). rewrite N. exact He.
    + exists k. repeat split; auto; lia.
  - cbn [context page config] in *.
    split; [|split; [reflexivity|]].
    + constructor; rewrite S.
      * apply map_set_NoDup; auto. cbn [snd context]. intros Hin.
        apply in_map_iff in Hin. destruct Hin as [kv [E Hin]].
        specialize (He _ Hin). lia.
      * apply map_set_NoDup; auto. cbn [snd page]. intros Hin.
        apply in_map_iff in Hin. destruct Hin as [kv [E Hin]].
        specialize (He _ Hin). lia.
      * apply map_set_Forall; cbn [fst snd id context page config].
        -- repeat split; auto.
        -- apply Forall_forall. intros kv Hin.
           destruct (He _ Hin) as [H1 [H2 [H3 [H4 H5]]]].
           repeat split; auto; lia.
    + exists k. repeat split; auto.
Qed.

Lemma createSession_stored sid w k w' :
  createSession env this_config sid w = (Ok k, w') ->
  exists s, map_get k (sessions w') = Some s.
Proof.
  intros H. destruct (createSession_ok _ _ H) as [_ [_ [ctx [pg [t1 [t2 [_ [_ [_ [_ S]]]]]]]]]].
  rewrite S. eexists. apply map_get_set_same.
Qed.

Lemma map_delete_incl V k (m : list (jsstring * V)) kv :
  In kv (map_delete k m) -> In kv m.
Proof.
  induction m as [|[k' v'] m IH]; simpl; [auto|].
  destruct (eqb k k'); simpl; [auto|]. intros [<-|H]; auto.
Qed.

Lemma map_delete_NoDup V B (f : jsstring * V -> B) k m :
  NoDup (map f m) -> NoDup (map f (map_delete k m)).
Proof.
  induction m as [|[k' v'] m IH]; simpl; intros Hnd; [exact Hnd|].
  inversion Hnd as [|x l Hx Hl]; subst.
  destruct (eqb k k'); simpl; [exact Hl|].
  constructor; [|apply IH; exact Hl].
  intros Hin. apply Hx. apply in_map_iff in Hin. destruct Hin as [kv [E Hin]].
  apply in_map_iff. exists kv. split; [exact E|]. eapply map_delete_incl; eauto.
Qed.

(** The invariant is kept by every operation that changes the map. *)
Lemma createSession_wf sid w k w' :
  wf this_config w ->
  createSession env this_config sid w = (Ok k, w') ->
  wf this_config w'.
Proof.
  intros [Hc Hp He] H.
  destruct (createSession_ok _ _ H) as [Hk [_ [ctx [pg [t1 [t2 [N1 [N2 [N3 [N4 S]]]]]]]]]].
  rewrite Forall_forall in He.
  constructor; rewrite S.
  - apply map_set_NoDup; auto. cbn [snd context]. intros Hin.
    apply in_map_iff in Hin. destruct Hin as [kv [E Hin]].
    specialize (He _ Hin). lia.
  - apply map_set_NoDup; auto. cbn [snd page]. intros Hin.
    apply in_map_iff in Hin. destruct Hin as [kv [E Hin]].
    specialize (He _ Hin). lia.
  - apply map_set_Forall; cbn [fst snd id context page config].
    + repeat split; auto.
    + apply Forall_forall. intros kv Hin.
      destruct (He _ Hin) as [H1 [H2 [H3 [H4 H5]]]].
      repeat split; auto; lia.
Qed.

Lemma closeSession_wf k w r w' :
  wf this_config w ->
  closeSession env k w = (r, w') ->
  wf this_config w'.
Proof.
  intros Hwf H. unfold closeSession in H. cbv [bind get_sessions] in H.
  destruct (map_get k (sessions w)) as [s|].
  - destruct (call_ env (ContextClose (context s)) w) as [[v|e] w1] eqn:E;
      pose proof E as F; eapply frames_call in F; destruct F as [S1 N1].
    + cbv [set_sessions] in H. injection H as _ <-.
      destruct Hwf as [Hc Hp He]. constructor; cbn [sessions next_handle]; rewrite S1.
      * now apply map_delete_NoDup.
      * now apply map_delete_NoDup.
      * rewrite Forall_forall in He. apply Forall_forall. intros kv Hin.
        destruct (He _ (map_delete_incl _ _ _ Hin)) as [H1 [H2 [H3 [H4 H5]]]].
        repeat split; auto; lia.
    + injection H as _ <-. eapply wf_mono; eauto.
  - injection H as _ <-. exact Hwf.
Qed.

Lemma close_all_frames m : frames (close_all env m).
Proof.
  induction m as [|[k s] m IH]; cbn [close_all]; calls. exact IH.
Qed.

Lemma cleanup_wf w r w' :
  wf this_config w ->
  cleanup env w = (r, w') ->
  wf this_config w'.
Proof.
  intros Hwf H. unfold cleanup in H. cbv [bind get_sessions] in H.
  destruct (close_all env (sessions w) w) as [[u|e] w1] eqn:E;
    pose proof E as F; eapply close_all_frames in F; destruct F as [S1 N1].
  - assert (He : sessions w' = []).
    { cbv [set_sessions get_browser set_browser call_ with_trace ret] in H.
      cbn [browser sessions trace next_handle ticks] in H.
      destruct (browser w1) as [b|]; cbv beta iota in H;
        cbn [browser sessions trace next_handle ticks] in H.
      - destruct (answer env (trace w1) (BrowserClose b));
          injection H as _ <-; reflexivity.
      - injection H as _ <-. reflexivity. }
    constructor; rewrite He; constructor.
  - injection H as _ <-. eapply wf_mono; eauto.
Qed.

(** C7.  In a state of the manager, two calls of [getSession] with the same
    known identifier return the same context and the same page, make no
    call on the browser and leave the identifiers of the map as they were;
    two calls with different identifiers return sessions whose contexts
    differ and whose pages differ, both tracked afterwards, in a map where
    no context or page belongs to two sessions.  (An identifier is a
    non-empty string: the code takes the empty string for none.) *)
Theorem getSession_identity w :
  wf this_config w ->
  (forall k s0,
     map_get k (sessions w) = Some s0 ->
     exists s1 w1 s2 w2,
       getSession env this_config (Some k) w = (Ok s1, w1) /\
       getSession env this_config (Some k) w1 = (Ok s2, w2) /\
       context s1 = context s0 /\ page s1 = page s0 /\
       context s2 = context s1 /\ page s2 = page s1 /\
       map fst (sessions w2) = map fst (sessions w) /\
       trace w2 = trace w) /\
  (forall k1 k2 s1 w1 s2 w2,
     k1 <> [] -> k2 <> [] -> k1 <> k2 ->
     getSession env this_config (Some k1) w = (Ok s1, w1) ->
     getSession env this_config (Some k2) w1 = (Ok s2, w2) ->
     context s1 <> context s2 /\ page s1 <> page s2 /\
     (exists s1', map_get k1 (sessions w2) = Some s1' /\
                  context s1' = context s1 /\ page s1' = page s1) /\
     map_get k2 (sessions w2) = Some s2 /\
     wf this_config w2).
Proof.
  intros Hwf. split.
  - intros k s0 Hg.
    assert (Hk : k <> []).
    { destruct Hwf as [_ _ He]. rewrite Forall_forall in He.
      apply (He _ (map_get_In _ _ Hg)). }
    destruct (@getSession_known k s0 w Hk Hg) as [t1 E1].
    set (s1 := mkSession (id s0) (context s0) (page s0) (createdAt s0) t1 (config s0)) in *.
    set (w1 := mkWorld (browser w) (map_set k s1 (sessions w)) (trace w)
                       (next_handle w) (S (ticks w))) in *.
    assert (Hg1 : map_get k (sessions w1) = Some s1) by apply map_get_set_same.
    destruct (@getSession_known k s1 w1 Hk Hg1) as [t2 E2].
    eexists _, _, _, _. split; [exact E1|]. split; [exact E2|].
    cbn [context page sessions trace]. repeat split.
    rewrite map_set_same_image with (1 := Hg1); [|reflexivity].
    subst w1. cbn [sessions].
    rewrite map_set_same_image with (1 := Hg); reflexivity.
  - intros k1 k2 s1 w1 s2 w2 Hk1 Hk2 Hne E1 E2.
    destruct (getSession_wf _ Hwf E1) as [Hwf1 [_ [k [_ [Hs1 [G1 [L1 L1']]]]]]].
    specialize (Hs1 (match k1 as l return l <> [] -> truthy_str (Some l) = true with
                     | [] => fun H => False_ind _ (H eq_refl)
                     | _ :: _ => fun _ => eq_refl
                     end Hk1)).
    injection Hs1 as <-.
    destruct (getSession_wf _ Hwf1 E2) as [Hwf2 _].
    destruct (getSession_cases _ _ E2) as [k [_ [Hs2 [S2 Hcase]]]].
    specialize (Hs2 (match k2 as l return l <> [] -> truthy_str (Some l) = true with
                     | [] => fun H => False_ind _ (H eq_refl)
                     | _ :: _ => fun _ => eq_refl
                     end Hk2)).
    injection Hs2 as <-.
    assert (Hdiff : context s1 <> context s2 /\ page s1 <> page s2).
    { destruct Hcase as [[s0 [_ [Hg [C [P _]]]]] | [ctx [pg [t1 [t2 [-> [_ [N1 [N2 _]]]]]]]]].
      - destruct Hwf1 as [Hc Hp _].
        pose proof (map_get_In _ _ G1) as I1. pose proof (map_get_In _ _ Hg) as I2.
        split; intros Heq.
        + assert (X : (k1, s1) = (k2, s0)).
          { apply (NoDup_map_inj _ _ _ _ Hc I1 I2). cbn [snd]. congruence. }
          congruence.
        + assert (X : (k1, s1) = (k2, s0)).
          { apply (NoDup_map_inj _ _ _ _ Hp I1 I2). cbn [snd]. congruence. }
          congruence.
      - cbn [context page]. lia. }
    destruct Hdiff as [D1 D2].
    split; [exact D1|]. split; [exact D2|]. split; [|split; [|exact Hwf2]].
    + exists s1. rewrite S2, map_get_set_other by auto. auto.
    + rewrite S2. apply map_get_set_same.
Qed.

(** *** [screenshot] *)

(** C10 (as amended).  In every successful screenshot result the metadata
    are [metadata_of] the configuration and the request: the width is the
    width of the clip rectangle when one is supplied and that width is not
    zero, otherwise the width of the configured viewport when there is one
    and it is not zero, otherwise 1280; likewise the height, with 720.  The
    captured image plays no part in them. *)
Theorem screenshot_metadata sid options w r w' :
  wf this_config w ->
  screenshot env this_config joi_message sid options w = (Ok r, w') ->
  shot_success r = true ->
  shot_metadata r = Some (metadata_of this_config options) /\
  (forall c, clip options = Some c ->
     (clip_width c <> 0%Z -> md_width (metadata_of this_config options) = clip_width c) /\
     (clip_height c <> 0%Z -> md_height (metadata_of this_config options) = clip_height c)) /\
  (clip options = None ->
   md_width (metadata_of this_config options)
     = or_num (option_map width (viewport this_config)) 1280 /\
   md_height (metadata_of this_config options)
     = or_num (option_map height (viewport this_config)) 720).
Proof.
  intros Hwf H Hok. split; [|split].
  - unfold screenshot in H. inv_bind H. rename a into session, w0 into w1.
    destruct (getSession_wf _ Hwf E) as [_ [Hcfg _]].
    unfold try_catch in H.
    match type of H with
    | (match ?body w1 with _ => _ end) = _ => destruct (body w1) as [[r0|e] w2] eqn:B
    end.
    + injection H as <- <-.
      inv_bind B. clear E0. inv_bind B. clear E0. inv_bind B. clear E0.
      inv_bind B. clear E0. cbv zeta in B. inv_bind B. clear E0.
      injection B as <- <-. cbn [shot_metadata so_clip].
      rewrite Hcfg. reflexivity.
    + injection H as <- <-. discriminate.
  - intros c Hc. unfold metadata_of. rewrite Hc. cbn [md_width md_height option_map or_num].
    split; intros Hz; [destruct (clip_width c) | destruct (clip_height c)];
      try reflexivity; contradiction.
  - intros Hc. unfold metadata_of. rewrite Hc. split; reflexivity.
Qed.

(** *** [extractContent] *)

(** C9.  The result of [extractContent], and the state it leaves, do not
    depend on [removeScripts] and [removeStyles]: two runs from the same
    state, in the same environment, on the same session, selector and
    format, give the same result whatever these options are; likewise for
    the tool's [execute]. *)
Theorem extractContent_ignores_removal_options sid fmt sel rs st rs' st' w :
  extractContent env this_config joi_message sid
    (mkContentExtractionOptions fmt sel rs st) w
  = extractContent env this_config joi_message sid
      (mkContentExtractionOptions fmt sel rs' st') w
  /\
  execute env this_config joi_message (mkContentArgs sid fmt sel rs st) w
  = execute env this_config joi_message (mkContentArgs sid fmt sel rs' st') w.
Proof. split; reflexivity. Qed.

End ManagerProperties.

(* ================================================================== *)
(** ** The properties on examples *)

Lemma navigate_single_goto_witness :
  exists session w1,
    getSession willing plain_config None initial = (Ok session, w1) /\
    (exists r w2 d,
       navigate willing plain_config sample_URL defaultSecurityConfig
                (str "https://example.com/") None (mkNavigateOptions None None) initial
       = (Ok r, w2) /\
       trace w2 = trace initial ++ d /\
       filter is_goto d =
         [Goto (page session) (str "https://example.com/")
               (or_str None (str "domcontentloaded"))
               (or_num None (or_num (timeout plain_config) 30000))]) /\
    (exists u r w2 d,
       sample_URL (str "https://example.com/products/item") = inr u /\
       navigate willing plain_config sample_URL defaultSecurityConfig
                (str "https://example.com/products/item") None
                (mkNavigateOptions None None) initial
       = (Ok r, w2) /\
       trace w2 = trace w1 ++
                  Goto (page session) (origin u) (str "domcontentloaded")
                       (or_num None (or_num (timeout plain_config) 30000))
                  :: d /\
       (filter is_goto d =
          [Goto (page session) (str "https://example.com/products/item")
                (or_str None (str "domcontentloaded"))
                (or_num None (or_num (timeout plain_config) 30000))]
        \/ filter is_goto d = [] /\ nav_success r = false)).
Proof.
  eexists. eexists. split; [vm_compute; reflexivity|]. split.
  - refine (proj1 (@navigate_single_goto willing plain_config sample_URL
                     defaultSecurityConfig (str "https://example.com/") None
                     (mkNavigateOptions None None) initial _ _ _ _) _).
    + vm_compute. reflexivity.
    + vm_compute. reflexivity.
    + right. vm_compute. reflexivity.
  - refine (proj2 (@navigate_single_goto willing plain_config sample_URL
                     defaultSecurityConfig (str "https://example.com/products/item") None
                     (mkNavigateOptions None None) initial _ _ _ _) _ _).
    + vm_compute. reflexivity.
    + vm_compute. reflexivity.
    + vm_compute. reflexivity.
    + vm_compute. reflexivity.
Defined.

(** C6, the claim as stated fails: [https://example.com/products/item] is
    accepted by validation, and [navigate] makes two navigate-to calls, the
    first of them to the origin of the URL, before the one to the URL. *)
Lemma navigate_products_visits_homepage_first :
  valid (validateUrl sample_URL defaultSecurityConfig
           (str "https://example.com/products/item")) = true /\
  exists r w2,
    navigate willing plain_config sample_URL defaultSecurityConfig
             (str "https://example.com/products/item") None
             (mkNavigateOptions None None) initial
    = (Ok r, w2) /\
    filter is_goto (trace w2) =
      [Goto 2 (str "https://example.com") (str "domcontentloaded") 30000;
       Goto 2 (str "https://example.com/products/item") (str "domcontentloaded") 30000].
Proof.
  split; [vm_compute; reflexivity|].
  eexists. eexists. split; vm_compute; reflexivity.
Qed.

Lemma interactElement_validation_witness :
  (exists r w2,
     interactElement willing plain_config sample_joi_message None
       (mkElementInteractionOptions (str "#go") (str "drag") None None) initial
     = (Ok r, w2) /\
     int_success r = false /\ element r = None /\
     int_error r = Some (str "Unsupported action: drag") /\
     filter is_element_call (trace w2)
     = [Locator 2 (str "#go"); OnLocator 2 (str "#go") (LWaitFor 5000)]) /\
  (exists r w2,
     interactElement willing plain_config sample_joi_message None
       (mkElementInteractionOptions (str "#go") (str "type") (Some long_text) None) initial
     = (Ok r, w2) /\
     int_success r = false /\ element r = None /\
     int_error r = Some (error_message (validateInputText sample_joi_message long_text)) /\
     filter is_element_call (trace w2)
     = [Locator 2 (str "#go"); OnLocator 2 (str "#go") (LWaitFor 5000)]).
Proof.
  split.
  - destruct (interactElement_validation willing plain_config sample_joi_message None
                (mkElementInteractionOptions (str "#go") (str "drag") None None) initial)
      as [_ [H _]].
    edestruct H as [r [w2 [E [S [El [T Er]]]]]].
    + vm_compute. reflexivity.
    + vm_compute. reflexivity.
    + vm_compute. reflexivity.
    + exists r, w2. repeat split; auto.
      * eapply Er. vm_compute. reflexivity.
      * rewrite T. vm_compute. reflexivity.
  - destruct (interactElement_validation willing plain_config sample_joi_message None
                (mkElementInteractionOptions (str "#go") (str "type") (Some long_text) None)
                initial)
      as [_ [_ [H _]]].
    edestruct (H eq_refl 97%N (repeat 97%N (N.to_nat 10000))) as [r [w2 [E [S [El [T Er]]]]]].
    + reflexivity.
    + vm_compute. reflexivity.
    + vm_compute. reflexivity.
    + vm_compute. reflexivity.
    + exists r, w2. repeat split; auto.
      * rewrite (Er (VString (str "ok"))); [reflexivity | vm_compute; reflexivity].
      * rewrite T. vm_compute. reflexivity.
Defined.

(** C3, the claim as stated fails: with a valid selector, an unsupported
    action, and a typed value longer than the maximum input length, are
    both answered by a soft failure, not by a throw, and only after the
    element has been located and waited for. *)
Lemma interactElement_late_soft_failures :
  valid (validateSelector sample_joi_message (str "#go")) = true /\
  (exists w',
     interactElement willing plain_config sample_joi_message None
       (mkElementInteractionOptions (str "#go") (str "drag") None None) initial
     = (Ok (mkInteractionResult false None (Some (str "Unsupported action: drag"))), w') /\
     filter is_element_call (trace w')
     = [Locator 2 (str "#go"); OnLocator 2 (str "#go") (LWaitFor 5000)]) /\
  valid (validateInputText sample_joi_message long_text) = false /\
  (exists w',
     interactElement willing plain_config sample_joi_message None
       (mkElementInteractionOptions (str "#go") (str "type") (Some long_text) None) initial
     = (Ok (mkInteractionResult false None
              (error (validateInputText sample_joi_message long_text))), w') /\
     filter is_element_call (trace w')
     = [Locator 2 (str "#go"); OnLocator 2 (str "#go") (LWaitFor 5000)]).
Proof.
  split; [vm_compute; reflexivity|]. split.
  { eexists. split; vm_compute; reflexivity. }
  split; [vm_compute; reflexivity|].
  eexists. split; vm_compute; reflexivity.
Qed.

Lemma cleanup_closes_until_failure_witness :
  (exists w',
     cleanup willing (two_sessions willing plain_config) = (Ok tt, w') /\
     sessions w' = [] /\ browser w' = None /\
     filter is_close (trace w') = [ContextClose 1; ContextClose 3; BrowserClose 0]) /\
  (exists e w',
     cleanup (stuck_context 1) (two_sessions (stuck_context 1) plain_config) = (Throw e, w') /\
     sessions w' = sessions (two_sessions (stuck_context 1) plain_config) /\
     browser w' = Some 0 /\
     filter is_close (trace w') = [ContextClose 1]) /\
  (exists e w',
     cleanup (stuck_context 3) (two_sessions (stuck_context 3) plain_config) = (Throw e, w') /\
     sessions w' = sessions (two_sessions (stuck_context 3) plain_config) /\
     browser w' = Some 0 /\
     filter is_close (trace w') = [ContextClose 1; ContextClose 3]).
Proof.
  split; [|split].
  - destruct (proj1 (cleanup_closes_until_failure willing (two_sessions willing plain_config)))
      as [w' [E [S [B T]]]].
    + intros h c _. exists (VString (str "ok")). reflexivity.
    + exists w'. repeat split; auto. rewrite T. vm_compute. reflexivity.
  - destruct (proj1 (proj2 (cleanup_closes_until_failure (stuck_context 1)
                       (two_sessions (stuck_context 1) plain_config)))
                []
                (str "a")
                (mkSession (str "a") 1 2 1700000000000 1700000000000 plain_config)
                [(str "b", mkSession (str "b") 3 4 1700000000000 1700000000000 plain_config)]
                (str "Target closed"))
      as [w' [E [S [B T]]]].
    + vm_compute. reflexivity.
    + intros h c [].
    + intros h. reflexivity.
    + exists (str "Target closed"), w'. repeat split; auto. rewrite T. vm_compute. reflexivity.
  - destruct (proj1 (proj2 (cleanup_closes_until_failure (stuck_context 3)
                       (two_sessions (stuck_context 3) plain_config)))
                [(str "a", mkSession (str "a") 1 2 1700000000000 1700000000000 plain_config)]
                (str "b")
                (mkSession (str "b") 3 4 1700000000000 1700000000000 plain_config)
                [] (str "Target closed"))
      as [w' [E [S [B T]]]].
    + vm_compute. reflexivity.
    + intros h c [<-|[]]. exists VUndefined. reflexivity.
    + intros h. reflexivity.
    + exists (str "Target closed"), w'. repeat split; auto. rewrite T. vm_compute. reflexivity.
Defined.

(** C4, the claim as stated fails: with two tracked sessions and a first
    context whose close fails, [cleanup] throws; the context of the second
    session is never closed, nor is the browser, and the map still holds
    both sessions. *)
Lemma cleanup_stops_at_failing_close :
  map fst (sessions (two_sessions (stuck_context 1) plain_config)) = [str "a"; str "b"] /\
  map (fun kv => context (snd kv)) (sessions (two_sessions (stuck_context 1) plain_config))
    = [1; 3] /\
  exists w',
    cleanup (stuck_context 1) (two_sessions (stuck_context 1) plain_config)
    = (Throw (str "Target closed"), w') /\
    filter is_close (trace w') = [ContextClose 1] /\
    map fst (sessions w') = [str "a"; str "b"] /\
    browser w' = Some 0.
Proof.
  split; [vm_compute; reflexivity|]. split; [vm_compute; reflexivity|].
  eexists. split; [vm_compute; reflexivity|].
  repeat split; vm_compute; reflexivity.
Qed.

Lemma two_sessions_willing_wf : wf plain_config (two_sessions willing plain_config).
Proof.
  unfold two_sessions.
  destruct (getSession willing plain_config (Some (str "a")) initial) as [[s1|e1] w1] eqn:E1;
    [|vm_compute in E1; discriminate].
  pose proof (getSession_wf _ _ (wf_initial plain_config) E1) as [Hwf1 _].
  vm_compute in E1. injection E1 as <- <-. cbn [snd].
  match goal with
  | |- wf _ (snd ?g) => destruct g as [[s2|e2] w2] eqn:E2
  end; [|vm_compute in E2; discriminate].
  pose proof (getSession_wf _ _ Hwf1 E2) as [Hwf2 _]. exact Hwf2.
Qed.

Lemma getSession_identity_witness :
  (exists s1 w1 s2 w2,
     getSession willing plain_config (Some (str "a")) (two_sessions willing plain_config)
     = (Ok s1, w1) /\
     getSession willing plain_config (Some (str "a")) w1 = (Ok s2, w2) /\
     context s1 = 1 /\ page s1 = 2 /\ context s2 = context s1 /\ page s2 = page s1 /\
     map fst (sessions w2) = [str "a"; str "b"] /\
     trace w2 = trace (two_sessions willing plain_config)) /\
  (forall s1 w1 s2 w2,
     getSession willing plain_config (Some (str "a")) (two_sessions willing plain_config)
     = (Ok s1, w1) ->
     getSession willing plain_config (Some (str "c")) w1 = (Ok s2, w2) ->
     context s1 <> context s2 /\ page s1 <> page s2).
Proof.
  destruct (getSession_identity willing two_sessions_willing_wf) as [A B]. split.
  - edestruct (A (str "a")) as [s1 [w1 [s2 [w2 [E1 [E2 [C1 [P1 [C2 [P2 [K T]]]]]]]]]]].
    + vm_compute. reflexivity.
    + exists s1, w1, s2, w2. repeat split; auto.
  - intros s1 w1 s2 w2 E1 E2.
    destruct (B (str "a") (str "c") s1 w1 s2 w2) as [C [P _]];
      auto; discriminate.
Defined.

Lemma screenshot_metadata_witness :
  exists r w',
    screenshot willing plain_config sample_joi_message None
      (mkScreenshotRequest None (Some true) None None (Some (mkClip 10 20 300 200))
                           None None None) initial
    = (Ok r, w') /\
    shot_success r = true /\
    shot_metadata r = Some (mkScreenshotMetadata 300 200 (str "png")).
Proof.
  pose proof (fun r w' =>
                @screenshot_metadata willing plain_config sample_joi_message None
                  (mkScreenshotRequest None (Some true) None None
                                       (Some (mkClip 10 20 300 200)) None None None)
                  initial r w' (wf_initial plain_config)) as H.
  edestruct H as [M _].
  - vm_compute. reflexivity.
  - reflexivity.
  - eexists. eexists. split; [vm_compute; reflexivity|]. split; [reflexivity|]. exact M.
Defined.

(** C10, the claim as stated fails: an element is captured and a clip
    rectangle is supplied, of width zero and height 200; the capture
    succeeds, and the metadata give the width of the viewport, 1280, not the
    width of the clip rectangle. *)
Lemma screenshot_zero_width_clip :
  exists data w',
    screenshot willing plain_config sample_joi_message None
      (mkScreenshotRequest (Some (str "#logo")) None None None
                           (Some (mkClip 0 0 0 200)) None None None)
      initial
    = (Ok (mkScreenshotResult true (Some data) None
             (Some (mkScreenshotMetadata 1280 200 (str "png")))), w').
Proof. eexists. eexists. vm_compute. reflexivity. Qed.

(* ================================================================== *)
(** ** Further properties of the validator *)

(** X1.  A URL whose hostname contains a blocked substring is rejected with
    the message [Domain <hostname> is blocked], whatever the allow-list and
    the scheme: the block-list is consulted first. *)
Theorem validateUrl_blocked_first URL_new (cfg : SecurityConfig) (url : jsstring)
  (u : URL) (b : jsstring) :
  URL_new url = inr u ->
  In b (blocked_list cfg) ->
  Substring b (hostname u) ->
  validateUrl URL_new cfg url = reject (str "Domain " ++ hostname u ++ str " is blocked").
Proof.
  intros Hu Hin Hsub. unfold validateUrl. rewrite Hu.
  assert (Hb : match blockedDomains cfg with
               | Some bl => existsb (fun blockedDomain => includes (hostname u) blockedDomain) bl
               | None => false
               end = true) by (apply blocked_spec; eauto).
  rewrite Hb. reflexivity.
Qed.

Lemma validateUrl_blocked_first_witness :
  validateUrl sample_URL
    (mkSecurityConfig (Some [str "example.com"]) (Some [str "ample"]) None None None)
    (str "https://example.com/")
  = reject (str "Domain example.com is blocked").
Proof.
  apply (@validateUrl_blocked_first sample_URL
           (mkSecurityConfig (Some [str "example.com"]) (Some [str "ample"]) None None None)
           (str "https://example.com/")
           (mkURL (str "https:") (str "example.com") (str "https://example.com"))
           (str "ample")).
  - vm_compute. reflexivity.
  - left. reflexivity.
  - exists (str "ex"), (str ".com"). reflexivity.
Defined.

(** X2.  When the allow-list is absent or empty, every domain that is not
    blocked is permitted: a parseable URL is accepted if and only if its
    hostname contains no blocked substring and its scheme is http or
    https. *)
Theorem validateUrl_open_policy URL_new (cfg : SecurityConfig) (url : jsstring) (u : URL) :
  URL_new url = inr u ->
  allowedDomains cfg = None \/ allowedDomains cfg = Some [] ->
  (valid (validateUrl URL_new cfg url) = true <->
   (forall b, In b (blocked_list cfg) -> ~ Substring b (hostname u)) /\
   (protocol u = str "http:" \/ protocol u = str "https:")).
Proof.
  intros Hu Ha. rewrite (validateUrl_accepts _ cfg _ Hu). split.
  - intros [Hb [_ Hp]]. auto.
  - intros [Hb Hp]. repeat split; auto.
    intros d l E. destruct Ha as [Ha|Ha]; rewrite Ha in E; discriminate.
Qed.

Lemma validateUrl_open_policy_witness :
  valid (validateUrl sample_URL defaultSecurityConfig (str "https://example.com/")) = true <->
  (forall b, In b (blocked_list defaultSecurityConfig) -> ~ Substring b (str "example.com")) /\
  (str "https:" = str "http:" \/ str "https:" = str "https:").
Proof.
  apply (@validateUrl_open_policy sample_URL defaultSecurityConfig (str "https://example.com/")
           (mkURL (str "https:") (str "example.com") (str "https://example.com"))).
  - vm_compute. reflexivity.
  - right. reflexivity.
Defined.

Lemma search_after_start i p s : search i (Bol :: p) false s = false.
Proof. induction s as [|x s IH]; simpl; [reflexivity | exact IH]. Qed.

(** The pattern of the selector schema holds of the non-empty strings made
    of the permitted characters. *)
Lemma exec_selectorPattern x s :
  exec_at false (items selectorPattern) true (x :: s)
  = if selector_char x
    then match
           match star_at false selectorChars true (exec_at false [Eol]) false s with
           | Some (_, caps, n) => Some (caps, n)
           | None => None
           end
         with
         | Some (caps, n) => Some (caps, S n)
         | None => None
         end
    else None.
Proof. reflexivity. Qed.

Lemma selectorPattern_spec (s : jsstring) :
  test selectorPattern s = true <-> s <> [] /\ forallb selector_char s = true.
Proof.
  unfold test. change (ignoreCase selectorPattern) with false.
  destruct s as [|x s].
  - simpl. split; [discriminate | intros [H _]; congruence].
  - cbn [search]. rewrite exec_selectorPattern.
    change (items selectorPattern)
      with (Bol :: [One selectorChars; Star true false selectorChars; Eol]).
    rewrite search_after_start.
    cbn [forallb]. destruct (selector_char x) eqn:Hx.
    + rewrite andb_true_l.
      destruct (star_at false selectorChars true (exec_at false [Eol]) false s)
        as [[[e caps] n]|] eqn:Hs.
      * split; [intros _|reflexivity]. split; [discriminate|].
        destruct (star_at_sound _ _ _ _ _ _ Hs) as [rest [m [bol' [-> [He [Hk _]]]]]].
        destruct rest; [|discriminate]. rewrite app_nil_r.
        apply forallb_forall. rewrite Forall_forall in He. exact He.
      * split; [discriminate|]. intros [_ Hall].
        exfalso.
        assert (Hf : Forall (fun x => cls_in false selectorChars x = true) s).
        { apply Forall_forall. rewrite forallb_forall in Hall. exact Hall. }
        assert (Hk : forall b : bool, exec_at false [Eol] b [] <> None) by discriminate.
        pose proof (@star_at_complete false selectorChars true (exec_at false [Eol]) s []
                      Hf Hk false) as Hc.
        rewrite app_nil_r in Hc. congruence.
    + split; [discriminate | intros [_ H]; discriminate].
Qed.

Lemma selector_patterns_anchor_free :
  forallb (fun re => anchor_free (items re)) dangerousSelectorPatterns = true.
Proof. vm_compute. reflexivity. Qed.

Lemma dangerous_selector_spec (selector : jsstring) :
  existsb (fun pattern => test pattern selector) dangerousSelectorPatterns = true
  <-> DangerousSelector selector.
Proof.
  unfold DangerousSelector. rewrite existsb_exists.
  pose proof selector_patterns_anchor_free as Haf. rewrite forallb_forall in Haf.
  split; intros [re [Hin H]]; exists re; split; auto; apply test_spec; auto.
Qed.

(** X3.  [validateSelector] accepts exactly the selectors that are not
    empty, have at most 1000 code units, are made of letters, digits, white
    space and the characters - _ [ ] = ' (double quote) . : > # , ( ) only,
    and match none of the dangerous patterns.  In particular a selector
    that contains one of < * ^ $ ~ + | ; / { } @ is rejected. *)
Theorem validateSelector_accepts (joi_message : JoiError -> jsstring -> jsstring)
  (selector : jsstring) :
  (valid (validateSelector joi_message selector) = true <->
   selector <> [] /\ (N.of_nat (length selector) <= 1000)%N /\
   forallb selector_char selector = true /\ ~ DangerousSelector selector) /\
  (forall x, In x (str "<*^$~+|;/{}@") -> In x selector ->
             valid (validateSelector joi_message selector) = false).
Proof.
  assert (Hmain : valid (validateSelector joi_message selector) = true <->
                  selector <> [] /\ (N.of_nat (length selector) <= 1000)%N /\
                  forallb selector_char selector = true /\ ~ DangerousSelector selector).
  { unfold validateSelector, joi_string.
    pose proof (selectorPattern_spec selector) as Hp.
    pose proof (dangerous_selector_spec selector) as Hd.
    destruct selector as [|x s].
    { split; [discriminate | intros [H _]; congruence]. }
    destruct (N.ltb_spec 1000 (N.of_nat (length (x :: s)))) as [Hlen|Hlen].
    { split; [discriminate | intros [_ [H _]]; lia]. }
    destruct (test selectorPattern (x :: s)).
    - destruct (existsb (fun pattern => test pattern (x :: s)) dangerousSelectorPatterns).
      + split; [discriminate|]. intros [_ [_ [_ H]]]. exfalso. apply H. now apply Hd.
      + split; [intros _ | reflexivity].
        repeat split; [discriminate | lia | now apply Hp |].
        intros H. apply Hd in H. discriminate.
    - split; [discriminate|]. intros [_ [_ [H _]]].
      assert (false = true) by (apply Hp; split; [discriminate | exact H]). discriminate. }
  split; [exact Hmain|].
  intros x Hx Hin.
  destruct (valid (validateSelector joi_message selector)) eqn:Hv; [|reflexivity].
  destruct (proj1 Hmain eq_refl) as [_ [_ [Hall _]]].
  rewrite forallb_forall in Hall. specialize (Hall x Hin).
  simpl in Hx.
  repeat (destruct Hx as [<-|Hx]; [vm_compute in Hall; discriminate|]). destruct Hx.
Qed.

(** X4.  [validateInputText] accepts exactly the texts of at most 10000
    code units, the empty text among them; [validateScript] and
    [validateSelector], whose schemas do not allow it, refuse the empty
    string. *)
Theorem validateInputText_accepts (joi_message : JoiError -> jsstring -> jsstring)
  (text : jsstring) :
  (valid (validateInputText joi_message text) = true <->
   (N.of_nat (length text) <= 10000)%N) /\
  valid (validateInputText joi_message []) = true /\
  valid (validateScript joi_message []) = false /\
  valid (validateSelector joi_message []) = false.
Proof.
  split; [|repeat split; reflexivity].
  unfold validateInputText.
  pose proof (joi_string_plain 10000 true text) as Hj.
  destruct (joi_string 10000 None true text) as [e|].
  - split; [discriminate|]. intros Hlen.
    assert (Some e = None); [|discriminate].
    apply Hj. destruct text; [left; auto | right; split; [discriminate | exact Hlen]].
  - split; [intros _ | reflexivity].
    destruct (proj1 Hj eq_refl) as [[-> _]|[_ H]]; [simpl; lia | exact H].
Qed.

Lemma over_limit_spec (measure : option jsnumber) (limit : option Z) :
  truthy_number measure && truthy_num limit && greater measure (or_num limit 0) = true
  <-> over_limit measure limit.
Proof.
  unfold over_limit. split.
  - intros H. apply andb_true_iff in H as [H H3]. apply andb_true_iff in H as [H1 H2].
    destruct limit as [l|]; [|discriminate]. exists l.
    assert (Hl : l <> 0%Z) by (intros ->; discriminate).
    split; [reflexivity|]. split; [exact Hl|].
    assert (El : or_num (Some l) 0 = l) by (destruct l; [contradiction | reflexivity..]).
    rewrite El in H3.
    destruct measure as [[num den| | |]|]; try discriminate; [|now left].
    right. exists num, den. cbn [greater] in H3. apply Z.ltb_lt in H3.
    split; [reflexivity|]. split; [intros ->; discriminate | exact H3].
  - intros [l [-> [Hl Hm]]].
    assert (El : or_num (Some l) 0 = l) by (destruct l; [contradiction | reflexivity..]).
    assert (Tl : truthy_num (Some l) = true) by (destruct l; [contradiction | reflexivity..]).
    rewrite El, Tl. destruct Hm as [-> | [num [den [-> [Hn Hlt]]]]]; [reflexivity|].
    cbn [greater]. apply Z.ltb_lt in Hlt. rewrite Hlt.
    destruct num; [contradiction | reflexivity..].
Qed.

(** X5.  [checkLimits] rejects exactly when the duration is over the
    configured time limit or the memory usage is over the configured memory
    limit, a measure being over a limit only when both are given, neither
    is zero nor the measure [NaN], and the measure is strictly the larger:
    a missing or zero limit switches the check off, and a measure equal to
    the limit passes.  The measures are any numbers, fractions and
    infinities among them.  When the duration is over its limit, the time
    limit is the one reported, in the rendering the language gives it,
    whatever the memory usage. *)
Theorem checkLimits_spec (number_to_string : Z -> jsstring) (cfg : SecurityConfig)
  (operation : jsstring) (duration memoryUsage : option jsnumber) :
  (valid (checkLimits number_to_string cfg operation duration memoryUsage) = false <->
   over_limit duration (maxExecutionTime cfg) \/
   over_limit memoryUsage (maxMemoryUsage cfg)) /\
  (over_limit duration (maxExecutionTime cfg) ->
   checkLimits number_to_string cfg operation duration memoryUsage
   = reject (str "Operation " ++ operation ++ str " exceeded time limit of "
             ++ number_to_string (or_num (maxExecutionTime cfg) 0) ++ str "ms")) /\
  (~ over_limit duration (maxExecutionTime cfg) ->
   over_limit memoryUsage (maxMemoryUsage cfg) ->
   checkLimits number_to_string cfg operation duration memoryUsage
   = reject (str "Operation " ++ operation ++ str " exceeded memory limit of "
             ++ number_to_string (or_num (maxMemoryUsage cfg) 0) ++ str "MB")).
Proof.
  unfold checkLimits.
  pose proof (over_limit_spec duration (maxExecutionTime cfg)) as Ht.
  pose proof (over_limit_spec memoryUsage (maxMemoryUsage cfg)) as Hm.
  destruct (truthy_number duration && truthy_num (maxExecutionTime cfg)
            && greater duration (or_num (maxExecutionTime cfg) 0)).
  - split; [split; [intros _; left; now apply Ht | reflexivity]|].
    split; [reflexivity|]. intros Hn. exfalso. apply Hn. now apply Ht.
  - destruct (truthy_number memoryUsage && truthy_num (maxMemoryUsage cfg)
              && greater memoryUsage (or_num (maxMemoryUsage cfg) 0)).
    + split; [split; [intros _; right; now apply Hm | reflexivity]|].
      split; [intros H; apply Ht in H; discriminate | reflexivity].
    + split; [split; [discriminate|]|].
      * intros [H|H]; [apply Ht in H | apply Hm in H]; discriminate.
      * split; [intros H; apply Ht in H; discriminate|].
        intros _ H. apply Hm in H. discriminate.
Qed.

(** *** Replacing and trimming *)

Lemma replace_from_deletes i p :
  forall s skip bol x, In x (replace_from i p [] bol s skip) -> In x s.
Proof.
  induction s as [|a s IH]; intros skip bol x.
  - destruct skip; simpl; [|tauto].
    destruct (exec_at i p bol []) as [[caps n]|]; simpl; tauto.
  - destruct skip as [|k]; cbn [replace_from].
    + destruct (exec_at i p bol (a :: s)) as [[caps [|k]]|]; cbn [expand map concat app].
      * intros [<-|H]; [now left | right; eauto].
      * intros H. right. eauto.
      * intros [<-|H]; [now left | right; eauto].
    + intros H. right. eauto.
Qed.


Lemma replace_one_map c d s :
  replace (mkRegex [One (Ch c)] false) [TLit [d]] s
  = map (fun x => if N.eqb x c then d else x) s.
Proof.
  unfold replace. cbn [items ignoreCase]. generalize true as bol.
  induction s as [|x s IH]; intros bol; [reflexivity|].
  cbn [replace_from exec_at map cls_in canon]. destruct (N.eqb x c).
  - cbn [expand map concat app]. now rewrite IH.
  - now rewrite IH.
Qed.


Lemma trimStart_split s :
  exists sp, s = sp ++ trimStart s /\ forallb is_space sp = true.
Proof.
  induction s as [|a s [sp [E F]]]; simpl.
  - exists []. auto.
  - destruct (is_space a) eqn:Ha.
    + exists (a :: sp). simpl. rewrite Ha, F. split; [congruence | reflexivity].
    + exists []. auto.
Qed.


Lemma trimEnd_split s :
  exists sp, s = trimEnd s ++ sp /\ forallb is_space sp = true.
Proof.
  unfold trimEnd. destruct (trimStart_split (rev s)) as [sp [E F]].
  exists (rev sp). split.
  - apply (f_equal (@rev N)) in E. rewrite rev_involutive, rev_app_distr in E. exact E.
  - rewrite forallb_forall in *. intros x Hx. apply F. now apply in_rev.
Qed.




(** The removals are made once, one after the other: what they leave may
    read as what they remove. *)
Example sanitizeString_once :
  sanitizeString (str "javajavascript:script:alert(1)") = str "javascript:alert(1)".
Proof. vm_compute. reflexivity. Qed.

(* ================================================================== *)
(** ** Further properties of [htmlToMarkdown] and of file names *)

Lemma no_gt_filter s : no_gt (filter is_angle s) = no_gt s.
Proof.
  unfold no_gt. induction s as [|x s IH]; [reflexivity|]. simpl.
  unfold is_angle at 1. destruct (N.eqb_spec x 60) as [->|H60]; simpl.
  - exact IH.
  - destruct (N.eqb_spec x 62) as [->|H62]; simpl; [reflexivity | exact IH].
Qed.

Lemma tagless_filter s : tagless (filter is_angle s) = tagless s.
Proof.
  induction s as [|x s IH]; [reflexivity|]. simpl.
  unfold is_angle at 1. destruct (N.eqb_spec x 60) as [->|H60]; simpl.
  - now rewrite no_gt_filter, IH.
  - destruct (N.eqb_spec x 62) as [->|H62]; simpl; exact IH.
Qed.

Lemma tagless_sound s :
  tagless s = true ->
  forall pre mid suf, s <> pre ++ [60%N] ++ mid ++ [62%N] ++ suf.
Proof.
  intros H pre. revert s H. induction pre as [|a pre IH]; intros s H mid suf E; subst s.
  - simpl in H. apply andb_true_iff in H as [H _]. unfold no_gt in H.
    rewrite forallb_app in H. apply andb_true_iff in H as [_ H]. discriminate.
  - simpl in H. apply andb_true_iff in H as [_ H]. exact (IH _ H mid suf eq_refl).
Qed.

Lemma Lang_Forall (P : N -> Prop) i p :
  (forall c, In c (item_classes p) -> forall x, cls_in i c x = true -> P x) ->
  forall w, Lang i p w -> Forall P w.
Proof.
  induction p as [|it p IH]; intros Hc w Hw.
  - simpl in Hw. subst. constructor.
  - assert (Hc' : forall c, In c (item_classes p) -> forall x, cls_in i c x = true -> P x).
    { intros c Hin. apply Hc. unfold item_classes. simpl. apply in_or_app. now right. }
    destruct it as [c|g cap c| |]; simpl in Hw; try contradiction.
    + destruct Hw as [x [w' [-> [Hx Hw']]]]. constructor; [|now apply IH].
      apply (Hc c); [left; reflexivity | exact Hx].
    + destruct Hw as [u [w' [-> [Hu Hw']]]]. apply Forall_app. split; [|now apply IH].
      eapply Forall_impl; [|exact Hu]. intros x Hx.
      apply (Hc c); [left; reflexivity | exact Hx].
Qed.

Lemma filter_none_of (q : N -> bool) w :
  Forall (fun x => q x = false) w -> filter q w = [].
Proof. induction 1 as [|x w Hx _ IH]; simpl; [reflexivity | now rewrite Hx]. Qed.

(** A replacement that neither removes nor inserts a code unit of a kind
    leaves the code units of that kind as they are. *)
Lemma replace_from_filter (q : N -> bool) i p t :
  anchor_free p = true ->
  (forall w, Lang i p w -> filter q w = []) ->
  (forall caps, filter q (expand t caps) = []) ->
  forall s skip bol,
    filter q (replace_from i p t bol s skip) = filter q (skipn skip s).
Proof.
  intros Haf Hw Ht. induction s as [|a s IH]; intros skip bol.
  - destruct skip; simpl; [|reflexivity].
    destruct (exec_at i p bol []) as [[caps n]|]; [|reflexivity].
    now rewrite app_nil_r, Ht.
  - destruct skip as [|k]; cbn [replace_from skipn]; [|apply IH].
    destruct (exec_at i p bol (a :: s)) as [[caps n]|] eqn:E.
    + destruct (exec_at_sound _ _ Haf _ _ E) as [w [rest [Hs [Hlen HL]]]].
      rewrite filter_app, Ht. cbn [app].
      destruct n as [|k].
      * cbn [filter]. now rewrite (IH 0 false).
      * destruct w as [|b w]; [discriminate|]. injection Hs as <- ->.
        rewrite IH. injection Hlen as <-.
        rewrite skipn_app, skipn_all, Nat.sub_diag. cbn [skipn app].
        specialize (Hw _ HL). change (a :: w ++ rest) with ((a :: w) ++ rest).
        now rewrite filter_app, Hw.
    + cbn [filter]. now rewrite (IH 0 false).
Qed.

Lemma not_angle_of_space x : is_space x = true -> is_angle x = false.
Proof.
  intros H. unfold is_angle.
  destruct (N.eqb_spec x 60) as [->|_]; [vm_compute in H; discriminate|].
  destruct (N.eqb_spec x 62) as [->|_]; [vm_compute in H; discriminate|].
  reflexivity.
Qed.

Lemma filter_angle_spaces sp : forallb is_space sp = true -> filter is_angle sp = [].
Proof.
  intros H. apply filter_none_of. apply Forall_forall. intros x Hx.
  rewrite forallb_forall in H. apply not_angle_of_space. auto.
Qed.

Lemma filter_angle_trim s : filter is_angle (trim s) = filter is_angle s.
Proof.
  unfold trim.
  destruct (trimStart_split s) as [sp1 [E1 F1]].
  destruct (trimEnd_split (trimStart s)) as [sp2 [E2 F2]].
  rewrite E1 at 2. rewrite E2 at 2.
  rewrite !filter_app, (filter_angle_spaces _ F1), (filter_angle_spaces _ F2).
  now rewrite app_nil_r.
Qed.

Lemma filter_angle_blank_lines s :
  filter is_angle (replace blank_lines_re [TLit nl2] s) = filter is_angle s.
Proof.
  unfold replace. rewrite replace_from_filter; [reflexivity|reflexivity| |reflexivity].
  intros w Hw. apply filter_none_of.
  apply (@Lang_Forall (fun x => is_angle x = false) false (items blank_lines_re));
    [|exact Hw].
  intros c Hc x Hx. simpl in Hc.
  repeat (destruct Hc as [<-|Hc];
          [first [ apply not_angle_of_space; exact Hx
                 | simpl in Hx; apply N.eqb_eq in Hx; subst x; reflexivity ]|]).
  destruct Hc.
Qed.

Lemma first_gt s :
  no_gt s = false -> exists u r, s = u ++ 62%N :: r /\ no_gt u = true.
Proof.
  unfold no_gt. induction s as [|x s IH]; simpl; [discriminate|].
  destruct (N.eqb_spec x 62) as [->|Hx]; simpl.
  - intros _. exists [], s. auto.
  - intros H. destruct (IH H) as [u [r [-> Hu]]].
    exists (x :: u), r. simpl. split; [reflexivity|].
    destruct (N.eqb_spec x 62); [contradiction | exact Hu].
Qed.

Lemma any_tag_unmatched bol s :
  exec_at false (items any_tag_re) bol (60%N :: s) = None -> no_gt s = true.
Proof.
  intros H. destruct (no_gt s) eqn:Hn; [reflexivity|]. exfalso.
  destruct (first_gt _ Hn) as [u [r [-> Hu]]].
  assert (HL : Lang false (items any_tag_re) (60%N :: u ++ [62%N])).
  { simpl. exists 60%N, (u ++ [62%N]). repeat split.
    exists u, [62%N]. repeat split.
    - apply Forall_forall. intros x Hx. unfold no_gt in Hu. rewrite forallb_forall in Hu.
      specialize (Hu x Hx). simpl. rewrite orb_false_r.
      destruct (N.eqb x 62); [discriminate | reflexivity].
    - exists 62%N, []. repeat split. }
  apply (@exec_at_complete false (items any_tag_re) eq_refl _ HL bol r).
  rewrite <- H. simpl. now rewrite <- app_assoc.
Qed.

Lemma any_tag_removed :
  forall s skip bol, tagless (replace_from false (items any_tag_re) [] bol s skip) = true.
Proof.
  induction s as [|a s IH]; intros skip bol.
  - destruct skip; reflexivity.
  - destruct skip as [|k]; cbn [replace_from]; [|apply IH].
    destruct (exec_at false (items any_tag_re) bol (a :: s)) as [[caps n]|] eqn:E.
    + cbn [expand map concat app].
      destruct n as [|k]; [|apply IH].
      destruct (@exec_at_sound false (items any_tag_re) eq_refl _ _ _ _ E)
        as [w [rest [_ [Hlen HL]]]].
      destruct w; [|discriminate]. simpl in HL.
      destruct HL as [x [w' [Hw _]]]. discriminate.
    + cbn [tagless]. rewrite IH, andb_true_r.
      destruct (N.eqb_spec a 60) as [->|_]; [|reflexivity].
      apply any_tag_unmatched in E. unfold no_gt in *.
      apply forallb_forall. intros x Hx. apply replace_from_deletes in Hx.
      rewrite forallb_forall in E. auto.
Qed.

(** X7.  Whatever the input, in the result of [htmlToMarkdown] no [<] is
    followed, however far, by a [>]: nothing that reads as a tag is left. *)
Theorem htmlToMarkdown_leaves_no_tag (html : jsstring) :
  forall pre mid suf,
    htmlToMarkdown html <> pre ++ [60%N] ++ mid ++ [62%N] ++ suf.
Proof.
  apply tagless_sound. unfold htmlToMarkdown.
  rewrite <- tagless_filter, filter_angle_trim, filter_angle_blank_lines, tagless_filter.
  apply any_tag_removed.
Qed.

Lemma upper_not_lt x : x <> 60%N -> N.eqb (upper x) 60 = false.
Proof.
  intros H. unfold upper. apply N.eqb_neq.
  destruct (N.leb_spec 97 x); destruct (N.leb_spec x 122); simpl; lia.
Qed.

Lemma replace_no_start (re : regex) c p' t s :
  items re = One (Ch c) :: p' ->
  (forall x, In x s -> cls_in (ignoreCase re) (Ch c) x = false) ->
  replace re t s = s.
Proof.
  intros Hi Hs. unfold replace. rewrite Hi. generalize true as bol.
  induction s as [|x s IH]; intros bol; [reflexivity|].
  cbn [replace_from exec_at]. rewrite (Hs x (or_introl eq_refl)).
  rewrite IH; [reflexivity|]. intros y Hy. apply Hs. now right.
Qed.

(** X8.  A text without [<] and without line feed is only trimmed by
    [htmlToMarkdown]. *)
Theorem htmlToMarkdown_plain_text (html : jsstring) :
  (forall x, In x html -> x <> 60%N /\ x <> 10%N) ->
  htmlToMarkdown html = trim html.
Proof.
  intros H.
  assert (Hlt : forall x, In x html -> cls_in true (Ch 60) x = false).
  { intros x Hx. simpl. apply upper_not_lt. now apply H. }
  assert (Hlt' : forall x, In x html -> cls_in false (Ch 60) x = false).
  { intros x Hx. simpl. apply N.eqb_neq. now apply H. }
  assert (Hnl : forall x, In x html -> cls_in false (Ch 10) x = false).
  { intros x Hx. simpl. apply N.eqb_neq. now apply H. }
  unfold htmlToMarkdown. cbv zeta.
  rewrite (@replace_no_start (tag_re "h1") 60 _ _ html eq_refl Hlt).
  rewrite (@replace_no_start (tag_re "h2") 60 _ _ html eq_refl Hlt).
  rewrite (@replace_no_start (tag_re "h3") 60 _ _ html eq_refl Hlt).
  rewrite (@replace_no_start (tag_re "p") 60 _ _ html eq_refl Hlt).
  rewrite (@replace_no_start anchor_re 60 _ _ html eq_refl Hlt).
  rewrite (@replace_no_start (tag_re "strong") 60 _ _ html eq_refl Hlt).
  rewrite (@replace_no_start (tag_re "b") 60 _ _ html eq_refl Hlt).
  rewrite (@replace_no_start (tag_re "em") 60 _ _ html eq_refl Hlt).
  rewrite (@replace_no_start (tag_re "i") 60 _ _ html eq_refl Hlt).
  rewrite (@replace_no_start (tag_re "code") 60 _ _ html eq_refl Hlt).
  rewrite (@replace_no_start any_tag_re 60 _ _ html eq_refl Hlt').
  rewrite (@replace_no_start blank_lines_re 10 _ _ html eq_refl Hnl).
  reflexivity.
Qed.

Lemma htmlToMarkdown_plain_text_witness :
  htmlToMarkdown (str "  a > b  ") = str "a > b".
Proof.
  rewrite htmlToMarkdown_plain_text; [vm_compute; reflexivity|].
  intros x Hx. vm_compute in Hx.
  repeat (destruct Hx as [<-|Hx]; [split; discriminate|]). destruct Hx.
Defined.

(** X9.  The file name [generateFilename] gives depends on the time stamp
    through all but its last five code units only: two time stamps of the
    same length that differ in their last five code units, the milliseconds
    of an ISO time stamp, give the same file name. *)
Theorem generateFilename_by_second (iso1 iso2 : jsstring) (format : option jsstring) :
  length iso1 = length iso2 ->
  firstn (length iso1 - 5) iso1 = firstn (length iso2 - 5) iso2 ->
  generateFilename iso1 format = generateFilename iso2 format.
Proof.
  intros Hlen Hpre. unfold generateFilename, slice_0_minus, char_re. cbv zeta.
  change (str "_") with [95%N]. change (str "-") with [45%N].
  rewrite !replace_one_map, !length_map, !firstn_map, Hpre. reflexivity.
Qed.

Lemma generateFilename_by_second_witness :
  generateFilename (str "2024-01-15T10:30:45.123Z") (Some (str "png"))
  = generateFilename (str "2024-01-15T10:30:45.987Z") (Some (str "png")) /\
  generateFilename (str "2024-01-15T10:30:45.123Z") (Some (str "png"))
  = str "screenshot_2024-01-15_10-30-45.png".
Proof.
  split; [|vm_compute; reflexivity].
  apply generateFilename_by_second; vm_compute; reflexivity.
Defined.

(* ================================================================== *)
(** ** Further properties of the sessions *)

Lemma bind_Throw_inv A B (m : M A) (k : A -> M B) w e w' :
  bind m k w = (Throw e, w') ->
  m w = (Throw e, w') \/ exists a w1, m w = (Ok a, w1) /\ k a w1 = (Throw e, w').
Proof.
  unfold bind. destruct (m w) as [[a|e0] w1]; intros H; [right; eauto | left].
  injection H as -> ->. reflexivity.
Qed.

Lemma map_set_keys V k (v : V) m :
  NoDup (map fst m) -> NoDup (map fst (map_set k v m)).
Proof.
  intros H. destruct (map_get k m) as [v0|] eqn:E.
  - rewrite map_set_same_image with (1 := E); auto.
  - apply map_set_NoDup; auto. cbn [fst]. intros Hin.
    apply in_map_iff in Hin. destruct Hin as [[k' v'] [Ek Hin]]. cbn [fst] in Ek. subst k'.
    clear H. induction m as [|[k0 v0] m IH]; [destruct Hin|].
    simpl in E. destruct (eqb k k0) eqn:E0; [discriminate|].
    destruct Hin as [Hin|Hin]; [|auto].
    injection Hin as -> _. rewrite eqb_refl in E0. discriminate.
Qed.

Lemma map_get_None_notin V k (m : list (jsstring * V)) :
  map_get k m = None -> ~ In k (map fst m).
Proof.
  induction m as [|[k0 v0] m IH]; simpl; [tauto|].
  destruct (eqb k k0) eqn:E; [discriminate|]. intros H [->|Hin].
  - rewrite eqb_refl in E. discriminate.
  - exact (IH H Hin).
Qed.

Lemma map_get_notin_None V k (m : list (jsstring * V)) :
  ~ In k (map fst m) -> map_get k m = None.
Proof.
  induction m as [|[k0 v0] m IH]; simpl; [reflexivity|].
  intros H. destruct (eqb k k0) eqn:E.
  - apply eqb_eq in E. subst. exfalso. apply H. now left.
  - apply IH. intros Hin. apply H. now right.
Qed.

Lemma map_get_delete_same V k (m : list (jsstring * V)) :
  NoDup (map fst m) -> map_get k (map_delete k m) = None.
Proof.
  induction m as [|[k0 v0] m IH]; simpl; intros Hnd; [reflexivity|].
  inversion Hnd as [|x l Hx Hl]; subst.
  destruct (eqb k k0) eqn:E.
  - apply eqb_eq in E. subst. now apply map_get_notin_None.
  - simpl. rewrite E. now apply IH.
Qed.

Lemma map_get_delete_other V k k' (m : list (jsstring * V)) :
  k' <> k -> map_get k' (map_delete k m) = map_get k' m.
Proof.
  intros Hne. induction m as [|[k0 v0] m IH]; simpl; [reflexivity|].
  destruct (eqb k k0) eqn:E.
  - apply eqb_eq in E. subst k0.
    destruct (eqb k' k) eqn:E'; [apply eqb_eq in E'; contradiction | reflexivity].
  - simpl. now rewrite IH.
Qed.

Lemma map_delete_set_fresh V k (v : V) m :
  map_get k m = None -> map_delete k (map_set k v m) = m.
Proof.
  induction m as [|[k0 v0] m IH]; simpl.
  - intros _. now rewrite eqb_refl.
  - destruct (eqb k k0) eqn:E; [discriminate|]. intros H. simpl. rewrite E. now rewrite IH.
Qed.

Section SessionProperties.

Set Default Proof Using "Type".

Variable env : Env.
Variable this_config : BrowserConfig.

(** The identifiers of the map stay distinct. *)
Lemma getSession_keys sid w s w1 :
  NoDup (map fst (sessions w)) ->
  getSession env this_config sid w = (Ok s, w1) ->
  NoDup (map fst (sessions w1)).
Proof.
  intros Hnd H. destruct (getSession_cases _ _ _ _ H) as [k [_ [_ [S _]]]].
  rewrite S. now apply map_set_keys.
Qed.

(** X10.  When [createSession] fails, the map of sessions is left as it
    was, and the error is either [Browser initialization failed: ...], when
    there was no browser yet, or [Session creation failed: ...]. *)
Theorem createSession_failure sid w e w' :
  createSession env this_config sid w = (Throw e, w') ->
  sessions w' = sessions w /\
  ((browser w = None /\ exists m, e = str "Browser initialization failed: " ++ m) \/
   exists m, e = str "Session creation failed: " ++ m).
Proof.
  intros H. unfold createSession in H.
  apply bind_Throw_inv in H as [H|[b0 [w0 [E H]]]]; [discriminate|].
  injection E as <- <-.
  apply bind_Throw_inv in H as [H|[u [w1 [E1 H]]]].
  { destruct (browser w) eqn:Hb; [discriminate|].
    unfold initialize, try_catch in H.
    match type of H with
    | (match ?m w with _ => _ end) = _ => destruct (m w) as [[a|e0] w0] eqn:E0
    end; [discriminate|].
    injection H as <- <-.
    assert (F : frames (b <- create env (Launch
                  (match headless this_config with Some h => h | None => false end)
                  (launchArgs ++ match args this_config with Some a => a | None => [] end)) ;;
                set_browser (Some b))) by calls.
    destruct (F _ _ _ E0) as [S _]. split; [exact S|]. left.
    split; [reflexivity | exists e0; reflexivity]. }
  assert (F1 : sessions w1 = sessions w).
  { destruct (browser w); [injection E1 as _ <-; reflexivity|].
    eapply initialize_frames; eassumption. }
  apply bind_Throw_inv in H as [H|[k [w2 [E2 H]]]].
  { destruct (truthy_str sid); [discriminate|].
    unfold generateSessionId in H.
    apply bind_Throw_inv in H as [H|[t [w3 [E3 H]]]]; [discriminate|].
    apply bind_Throw_inv in H as [H|[r [w4 [E4 H]]]]; discriminate. }
  assert (F2 : sessions w2 = sessions w1).
  { destruct (truthy_str sid); [injection E2 as _ <-; reflexivity|].
    eapply generateSessionId_frames; eassumption. }
  unfold try_catch in H.
  match type of H with
  | (match ?m w2 with _ => _ end) = _ => destruct (m w2) as [[a|e0] w3] eqn:E3
  end; [discriminate|].
  injection H as <- <-. split; [|right; exists e0; reflexivity].
  rewrite <- F1, <- F2.
  apply bind_Throw_inv in E3 as [E3|[b [w4 [E4 E3]]]]; [discriminate|].
  injection E4 as <- <-.
  destruct (browser w2) as [b|]; [|injection E3 as _ <-; reflexivity].
  apply bind_Throw_inv in E3 as [E3|[ctx [w5 [E5 E3]]]].
  { eapply frames_create; eassumption. }
  assert (F5 : sessions w5 = sessions w2) by (eapply frames_create; eassumption).
  apply bind_Throw_inv in E3 as [E3|[pg [w6 [E6 E3]]]].
  { rewrite <- F5. eapply frames_create; eassumption. }
  assert (F6 : sessions w6 = sessions w5) by (eapply frames_create; eassumption).
  apply bind_Throw_inv in E3 as [E3|[u1 [w7 [E7 E3]]]].
  { rewrite <- F5, <- F6. eapply initializeStealthMode_frames; eassumption. }
  apply bind_Throw_inv in E3 as [E3|[t1 [w8 [E8 E3]]]]; [discriminate|].
  apply bind_Throw_inv in E3 as [E3|[t2 [w9 [E9 E3]]]]; [discriminate|].
  apply bind_Throw_inv in E3 as [E3|[m0 [w10 [E10 E3]]]]; [discriminate|].
  apply bind_Throw_inv in E3 as [E3|[u2 [w11 [E11 E3]]]]; discriminate.
Qed.

Lemma initializeStealthMode_no_launch p :
  only (fun c => is_launch c = false) (initializeStealthMode env p).
Proof. unfold initializeStealthMode. calls. Qed.

Lemma initialize_run w :
  initialize env this_config w
  = match answer env (trace w)
            (Launch (match headless this_config with Some h => h | None => false end)
                    (launchArgs ++ match args this_config with Some a => a | None => [] end)) with
    | Returns _ =>
        (Ok tt,
         mkWorld (Some (next_handle w)) (sessions w)
                 (trace w ++ [Launch (match headless this_config with Some h => h | None => false end)
                                     (launchArgs ++ match args this_config with
                                                    | Some a => a
                                                    | None => []
                                                    end)])
                 (S (next_handle w)) (ticks w))
    | Raises e =>
        (Throw (str "Browser initialization failed: " ++ e),
         mkWorld (browser w) (sessions w)
                 (trace w ++ [Launch (match headless this_config with Some h => h | None => false end)
                                     (launchArgs ++ match args this_config with
                                                    | Some a => a
                                                    | None => []
                                                    end)])
                 (next_handle w) (ticks w))
    end.
Proof.
  unfold initialize, try_catch, bind, create, call_, set_browser, throw, with_trace.
  destruct (answer env (trace w) _); reflexivity.
Qed.

(** X11.  [createSession] launches the browser exactly when there is none:
    with a browser in place it makes no launch call; without one, the first
    call it makes is the launch, and no other launch follows. *)
Theorem createSession_launches_once sid w r w' :
  createSession env this_config sid w = (r, w') ->
  (forall b, browser w = Some b ->
     exists d, trace w' = trace w ++ d /\ filter is_launch d = []) /\
  (browser w = None ->
     exists h a d, trace w' = trace w ++ Launch h a :: d /\ filter is_launch d = []).
Proof.
  intros H. unfold createSession in H.
  rewrite bind_Ok with (a := browser w) (w1 := w) in H by reflexivity.
  split.
  - intros b Hb. rewrite Hb in H.
    match type of H with
    | ?m w = _ => assert (Ho : only (fun c => is_launch c = false) m)
    end.
    { calls; try apply generateSessionId_calls; try apply initializeStealthMode_no_launch. }
    destruct (Ho _ _ _ H) as [d [T F]]. exists d. split; [exact T|].
    now apply filter_none.
  - intros Hb. rewrite Hb in H.
    set (h := match headless this_config with Some h => h | None => false end) in *.
    set (a := launchArgs ++ match args this_config with Some a => a | None => [] end) in *.
    exists h, a.
    unfold bind at 1 in H. rewrite initialize_run in H. fold h a in H.
    destruct (answer env (trace w) (Launch h a)) as [v|e0].
    + match type of H with
      | ?m ?w0 = _ => assert (Ho : only (fun c => is_launch c = false) m)
      end.
      { calls; try apply generateSessionId_calls; try apply initializeStealthMode_no_launch. }
      destruct (Ho _ _ _ H) as [d [T F]]. exists d. cbn [trace] in T.
      rewrite T, <- app_assoc. split; [reflexivity | now apply filter_none].
    + injection H as _ <-. exists []. split; reflexivity.
Qed.

(** X12.  [closeSession] on an unknown identifier does nothing.  On a known
    one it closes the context of the session; when the close returns, the
    session is removed from the map (the identifier is then unknown, the
    identifiers of a map being distinct) and the other sessions stay; when
    the close fails, the error goes to the caller and the session stays in
    the map. *)
Theorem closeSession_spec k w :
  (map_get k (sessions w) = None -> closeSession env k w = (Ok tt, w)) /\
  (forall s, map_get k (sessions w) = Some s ->
     (forall v, answer env (trace w) (ContextClose (context s)) = Returns v ->
        exists w',
          closeSession env k w = (Ok tt, w') /\
          trace w' = trace w ++ [ContextClose (context s)] /\
          sessions w' = map_delete k (sessions w) /\
          (NoDup (map fst (sessions w)) -> map_get k (sessions w') = None) /\
          (forall k', k' <> k -> map_get k' (sessions w') = map_get k' (sessions w))) /\
     (forall e, answer env (trace w) (ContextClose (context s)) = Raises e ->
        exists w',
          closeSession env k w = (Throw e, w') /\
          trace w' = trace w ++ [ContextClose (context s)] /\
          sessions w' = sessions w)).
Proof.
  split.
  - intros Hg. unfold closeSession. cbv [bind get_sessions]. rewrite Hg. reflexivity.
  - intros s Hg. split.
    + intros v Hv. eexists. split.
      * unfold closeSession. cbv [bind get_sessions]. rewrite Hg.
        rewrite (call_Returns _ _ _ Hv). reflexivity.
      * cbn [trace sessions with_trace]. repeat split.
        -- intros Hnd. now apply map_get_delete_same.
        -- intros k' Hne. now apply map_get_delete_other.
    + intros e He. eexists. split.
      * unfold closeSession. cbv [bind get_sessions]. rewrite Hg.
        rewrite (call_Raises _ _ _ He). reflexivity.
      * cbn [trace sessions with_trace]. auto.
Qed.

(** X13.  Opening a session under an identifier that was unknown and
    closing it again leaves the map of sessions as it was before, and the
    context that is closed is the one that was opened. *)
Theorem open_then_close k w s w1 w2 :
  k <> [] ->
  map_get k (sessions w) = None ->
  getSession env this_config (Some k) w = (Ok s, w1) ->
  closeSession env k w1 = (Ok tt, w2) ->
  sessions w2 = sessions w /\ trace w2 = trace w1 ++ [ContextClose (context s)].
Proof.
  intros Hk Hnone Hopen Hclose.
  destruct (getSession_cases _ _ _ _ Hopen) as [k0 [_ [Hsid [S _]]]].
  assert (Ek : Some k = Some k0).
  { apply Hsid. destruct k; [contradiction | reflexivity]. }
  injection Ek as <-.
  assert (Hg : map_get k (sessions w1) = Some s) by (rewrite S; apply map_get_set_same).
  unfold closeSession in Hclose. cbv [bind get_sessions] in Hclose. rewrite Hg in Hclose.
  unfold call_ in Hclose.
  destruct (answer env (trace w1) (ContextClose (context s))); [|discriminate].
  cbv [set_sessions with_trace] in Hclose. cbn [sessions trace] in Hclose.
  injection Hclose as <-. cbn [sessions trace].
  split; [|reflexivity]. rewrite S. now apply map_delete_set_fresh.
Qed.

(** X14.  [getSession] on a known identifier returns the stored session
    with its last activity set to the time of the call and nothing else
    changed; it makes no call on the browser, creates no object, and leaves
    every other session as it was. *)
Theorem getSession_touch k s0 w :
  k <> [] ->
  map_get k (sessions w) = Some s0 ->
  exists w1,
    getSession env this_config (Some k) w
    = (Ok (mkSession (id s0) (context s0) (page s0) (createdAt s0)
                     (clock env (ticks w)) (config s0)), w1) /\
    trace w1 = trace w /\ browser w1 = browser w /\ next_handle w1 = next_handle w /\
    map_get k (sessions w1)
    = Some (mkSession (id s0) (context s0) (page s0) (createdAt s0)
                      (clock env (ticks w)) (config s0)) /\
    forall k', k' <> k -> map_get k' (sessions w1) = map_get k' (sessions w).
Proof.
  intros Hk Hg. destruct k as [|c k]; [contradiction|].
  eexists. split.
  - unfold getSession. cbv [bind get_sessions]. cbn [truthy_str or_str]. rewrite Hg.
    reflexivity.
  - cbn [trace browser next_handle sessions tick]. repeat split.
    + apply map_get_set_same.
    + intros k' Hne. now apply map_get_set_other.
Qed.

End SessionProperties.

(* ================================================================== *)
(** ** Further properties of the operations *)

Lemma try_catch_soft A (m : M A) (h : jsstring -> M A) w :
  (forall e w0, exists r w', h e w0 = (Ok r, w')) ->
  exists r w', try_catch m h w = (Ok r, w').
Proof.
  intros Hh. unfold try_catch. destruct (m w) as [[a|e] w1]; [eauto | apply Hh].
Qed.

Lemma bind_soft A B (m : M A) (k : A -> M B) w e w' :
  (forall a w1, exists b w2, k a w1 = (Ok b, w2)) ->
  (bind m k w = (Throw e, w') <-> m w = (Throw e, w')).
Proof.
  intros Hk. unfold bind. destruct (m w) as [[a|e0] w1].
  - destruct (Hk a w1) as [b [w2 E]]. rewrite E. split; discriminate.
  - split; intros H; injection H as -> ->; reflexivity.
Qed.

Ltac soft := intros; apply try_catch_soft; intros; eexists; eexists; reflexivity.

Section OperationProperties.

Set Default Proof Using "Type".

Variable env : Env.
Variable this_config : BrowserConfig.
Variable URL_new : jsstring -> jsstring + URL.
Variable joi_message : JoiError -> jsstring -> jsstring.
Variable security_config : SecurityConfig.
Variable evaluate_script : list call -> handle -> jsstring -> list jsvalue -> outcome.
Variable type_error : jsstring -> jsstring.


Lemma only_bind_throw A B Q e (k : A -> M B) : only Q (bind (throw e) k).
Proof.
  intros w r w' H. injection H as _ <-. exists []. split; [now rewrite app_nil_r | constructor].
Qed.

Lemma only_bind_ret A B Q (a : A) (k : A -> M B) : only Q (k a) -> only Q (bind (ret a) k).
Proof. intros Hk w r w' H. exact (Hk _ _ _ H). Qed.

Lemma session_call_goto_ok url c :
  session_call c -> goto_ok URL_new security_config url c.
Proof. destruct c; simpl; intros H; solve [exact I | destruct H]. Qed.

Lemma humanDelay_calls (Q : call -> Prop) a b :
  (forall ms, Q (Sleep ms)) -> only Q (humanDelay env a b).
Proof. intros HQ. unfold humanDelay. calls. Qed.

(** X16.  [navigate] on a URL that validation rejects throws the message of
    the validation and leaves the state as it was: no session is created
    and no call is made.  Every navigate-to call it makes is for a URL that
    validation has accepted, and goes to that URL or to its origin. *)
Theorem navigate_targets url sid o w r w' :
  navigate env this_config URL_new security_config url sid o w = (r, w') ->
  (valid (validateUrl URL_new security_config url) = false ->
   r = Throw (error_message (validateUrl URL_new security_config url)) /\ w' = w) /\
  exists d, trace w' = trace w ++ d /\
            Forall (goto_ok URL_new security_config url) d.
Proof.
  intros H. unfold navigate, security_validateUrl in H.
  destruct (valid (validateUrl URL_new security_config url)) eqn:Hv; cbn [negb] in H.
  - split; [discriminate|].
    match type of H with
    | ?m w = _ => assert (Ho : only (goto_ok URL_new security_config url) m)
    end; [|exact (Ho _ _ _ H)].
    apply only_bind.
    { eapply only_weaken; [|apply getSession_calls]. apply session_call_goto_ok. }
    intros session. apply only_try_catch; [|intros e0; calls].
    apply only_bind.
    + destruct (includes url (str "/products/") && negb (endsWith url (str "/")));
        [|calls].
      remember (URL_new url) as parsed eqn:Hu. destruct parsed as [e1|u1].
      * apply only_bind_throw.
      * apply only_bind_ret.
        apply only_bind; [|intros ?; apply humanDelay_calls; intros ms; exact I].
        apply only_call. simpl. rewrite Hv. eauto.
    + intros ?. apply only_bind; [|intros; calls].
      apply only_call. simpl. rewrite Hv. auto.
  - injection H as Hr Hw. subst r w'. split; [auto|]. exists [].
    split; [now rewrite app_nil_r | constructor].
Qed.

(** X17.  For a product URL that does not end in a slash, when the visit
    to its origin fails, [navigate] reports that failure as an unsuccessful
    result and stops: the URL itself is never visited. *)
Theorem navigate_homepage_failure url sid o w s w1 u e :
  valid (validateUrl URL_new security_config url) = true ->
  includes url (str "/products/") = true ->
  endsWith url (str "/") = false ->
  URL_new url = inr u ->
  getSession env this_config sid w = (Ok s, w1) ->
  answer env (trace w1)
    (Goto (page s) (origin u) (str "domcontentloaded")
          (or_num (nav_timeout o) (or_num (timeout this_config) 30000)))
  = Raises e ->
  navigate env this_config URL_new security_config url sid o w
  = (Ok (mkNavigationResult false url None None (Some e)),
     with_trace w1
       (trace w1 ++ [Goto (page s) (origin u) (str "domcontentloaded")
                          (or_num (nav_timeout o) (or_num (timeout this_config) 30000))])).
Proof.
  intros Hv Hi He Hu Hs Ha.
  unfold navigate, security_validateUrl. rewrite Hv. cbn [negb].
  rewrite bind_Ok with (1 := Hs). rewrite Hi, He, Hu. cbn [negb andb].
  cbv [try_catch bind ret call_]. rewrite Ha. reflexivity.
Qed.

Lemma session_call_selector_ok c : session_call c -> selector_ok joi_message c.
Proof. destruct c; simpl; intros H; solve [exact I | destruct H]. Qed.

Lemma only_guard A Q (v : Validation) (m : M A) :
  (valid v = true -> only Q m) ->
  only Q (if negb (valid v) then throw (error_message v) else m).
Proof. destruct (valid v); cbn [negb]; intros H; [auto | apply only_throw]. Qed.

Ltac sel_side :=
  first [ exact I
        | match goal with H : valid _ = true |- _ => exact H end
        | vm_compute; reflexivity ].

Ltac step_sel side :=
  match goal with
  | |- only _ (let _ := _ in _) => cbv zeta
  | |- only _ (if negb (valid _) then throw _ else _) => apply only_guard; intros ?
  | |- only _ (call_ _ _) => apply only_call; side
  | |- only _ (locate _ _) => apply only_locate; side
  | |- only _ (humanDelay _ _ _) => apply humanDelay_calls; intros ?; side
  | |- only _ (simulateHumanBehavior _ _) => unfold simulateHumanBehavior; cbv beta iota fix
  | |- only _ (waitForWordPressReady _ _) => unfold waitForWordPressReady
  | |- only _ (best_effort _) => unfold best_effort
  | |- only _ (waitForPageReady _ _) => unfold waitForPageReady
  | |- only _ (debugPageState _ _) => unfold debugPageState
  | |- only _ (extractTextContent _ _) => unfold extractTextContent
  | |- only _ (extractHtmlContent _ _) => unfold extractHtmlContent
  | |- only _ (then_method _ _ _ _ _) => unfold then_method
  | |- only _ (method _ _ _ _) => unfold method
  | |- only _ (dispatch _ _ _ _) => unfold dispatch
  | _ => step_calls
  end.

(** X18.  Every selector that [screenshot] and [interactElement] hand to
    the browser, the caller's or one of their own, passes
    [validateSelector].  So does every selector of [extractContent] but
    one: the function that [debugPageState] evaluates in the page, when the
    content extracted is empty, gives [querySelectorAll] a selector that
    [validateSelector] refuses. *)
Theorem selectors_validated sid :
  (forall o, only (selector_ok joi_message)
               (screenshot env this_config joi_message sid o)) /\
  (forall o, only (selector_ok joi_message)
               (interactElement env this_config joi_message sid o)) /\
  (forall o, only (fun c => selector_ok joi_message c \/ exists p, c = Evaluate p ErrorTexts)
               (extractContent env this_config joi_message sid o)) /\
  (forall p, ~ selector_ok joi_message (Evaluate p ErrorTexts)) /\
  valid (validateSelector joi_message error_selector) = false.
Proof.
  split; [|split; [|split; [|split]]].
  - intros o. unfold screenshot. apply only_bind.
    { eapply only_weaken; [|apply getSession_calls]. apply session_call_selector_ok. }
    intros session. repeat step_sel sel_side.
  - intros o. unfold interactElement. cbv zeta. apply only_guard. intros Hv.
    apply only_bind.
    { eapply only_weaken; [|apply getSession_calls]. apply session_call_selector_ok. }
    intros session. repeat step_sel sel_side.
  - intros o. unfold extractContent. apply only_bind.
    { eapply only_weaken; [|apply getSession_calls].
      intros c Hc. left. now apply session_call_selector_ok. }
    intros session.
    repeat step_sel ltac:(first [left; sel_side | right; eexists; reflexivity]).
  - intros p H. vm_compute in H. discriminate.
  - vm_compute. reflexivity.
Qed.

(** X19.  With a selector, [extractContent] makes no difference between
    the formats other than [html]: markdown, like text, yields the text
    content of the element, unconverted. *)
Theorem extractContent_selector_formats sid o w c sel :
  ce_selector o = Some (c :: sel) ->
  eqb (or_str (ce_format o) []) (str "html") = false ->
  extractContent env this_config joi_message sid o w
  = extractContent env this_config joi_message sid
      (mkContentExtractionOptions (Some (str "text")) (ce_selector o)
                                  (removeScripts o) (removeStyles o)) w.
Proof.
  intros Hs Hf. unfold extractContent. cbn [ce_selector ce_format].
  rewrite Hs, Hf.
  destruct (eqb (or_str (ce_format o) []) (str "text")); reflexivity.
Qed.

Ltac step_by side :=
  match goal with
  | |- only _ (let _ := _ in _) => cbv zeta
  | |- only _ (if negb (valid _) then throw _ else _) => apply only_guard; intros ?
  | |- only _ (call_ _ _) => apply only_call; side
  | |- only _ (locate _ _) => apply only_locate; side
  | |- only _ (humanDelay _ _ _) => apply humanDelay_calls; intros ?; side
  | _ => step_calls
  end.

Lemma session_call_write_ok o c : session_call c -> write_ok o c.
Proof. destruct c; simpl; intros H; solve [exact I | destruct H]. Qed.

Lemma dispatch_writes p o : only (write_ok o) (dispatch env joi_message p o).
Proof.
  unfold dispatch. cbv zeta.
  destruct (eqb (action o) (str "click")) eqn:E1; [repeat step_by ltac:(exact I)|].
  destruct (eqb (action o) (str "type")) eqn:E2.
  { apply eqb_eq in E2.
    destruct (value o) as [[|c v]|] eqn:Ev; [apply only_ret| |apply only_ret].
    apply only_guard; intros _. apply only_bind; [|intros ?; apply only_ret].
    apply only_call. simpl. repeat split; auto. discriminate. }
  destruct (eqb (action o) (str "select")) eqn:E3.
  { apply eqb_eq in E3.
    destruct (value o) as [[|c v]|] eqn:Ev; [apply only_ret| |apply only_ret].
    apply only_bind; [|intros ?; apply only_ret].
    apply only_call. simpl. repeat split; auto. discriminate. }
  repeat step_by ltac:(exact I).
Qed.

(** X22.  [interactElement] writes into an element only what the caller
    asked for: it fills in only under the action [type] and selects only
    under the action [select], only the caller's value and only when that
    value is not empty.  With an empty or absent value, [type] and [select]
    write nothing. *)
Theorem interactElement_writes sid o :
  only (write_ok o) (interactElement env this_config joi_message sid o).
Proof.
  unfold interactElement. cbv zeta. apply only_guard; intros _.
  apply only_bind.
  { eapply only_weaken; [|apply getSession_calls]. apply session_call_write_ok. }
  intros session. apply only_try_catch; [|intros ?; apply only_ret].
  apply only_bind; [apply only_locate; exact I|intros ?].
  apply only_bind; [apply only_call; exact I|intros ?].
  apply only_bind; [apply dispatch_writes|intros ?].
  repeat step_by ltac:(exact I).
Qed.

Lemma tool_error_iff A (m : M A) w e w' :
  try_catch (bind m (fun a => ret (Done a))) (fun e => ret (ToolError e)) w
  = (Ok (ToolError e), w')
  <-> m w = (Throw e, w').
Proof.
  unfold try_catch, bind, ret. destruct (m w) as [[a|e0] w1]; split; intros H;
    try discriminate; injection H as -> ->; reflexivity.
Qed.

Lemma tool_undefined_iff A (m : jsstring) w e w' :
  try_catch (@throw (tool_result A) m) (fun e => ret (ToolError e)) w
  = (Ok (ToolError e), w')
  <-> e = m /\ w' = w.
Proof.
  unfold try_catch, throw, ret. split.
  - intros H. injection H as -> ->. auto.
  - intros [-> ->]. reflexivity.
Qed.

Lemma guarded_throw_iff A (v : Validation) (m : M A) w e w' :
  (if negb (valid v) then throw (error_message v) else m) w = (Throw e, w')
  <-> (if valid v then m w = (Throw e, w') else e = error_message v /\ w' = w).
Proof.
  destruct (valid v); cbn [negb]; [reflexivity|].
  unfold throw. split.
  - intros H. injection H as -> ->. auto.
  - intros [-> ->]. reflexivity.
Qed.

(** X23.  The tools never throw: whatever the arguments, none at all
    included, and whatever the browser does, each of them returns a
    result. *)
Theorem tools_never_throw w :
  (forall a, exists r w',
      navigation_execute env this_config URL_new security_config type_error a w
      = (Ok r, w')) /\
  (forall a, exists r w',
      interaction_execute env this_config joi_message type_error a w = (Ok r, w')) /\
  (forall a, exists r w',
      script_execute env this_config joi_message evaluate_script type_error a w
      = (Ok r, w')) /\
  (forall a, exists r w',
      screenshot_execute env this_config joi_message type_error a w = (Ok r, w')) /\
  (forall a, exists r w',
      execute env this_config joi_message a w = (Ok r, w')).
Proof.
  repeat split; intros a; apply try_catch_soft; intros; eexists; eexists; reflexivity.
Qed.

(** X24.  A tool answers with an error of its own in three cases and no
    other.  When the request carries no arguments, the error is that of
    reading a property of [undefined], and the state is untouched.  When the
    arguments are there and validation rejects the input, the error is the
    message of the validation and the state is untouched.  Otherwise, when
    the session cannot be resolved, the error is that of the resolution.
    [screenshot], which validates nothing up front, has no second case. *)
Theorem tool_errors e w w' :
  (forall args,
      navigation_execute env this_config URL_new security_config type_error args w
      = (Ok (ToolError e), w')
      <-> match args with
          | None => e = type_error (str "url") /\ w' = w
          | Some a =>
              if valid (validateUrl URL_new security_config (na_url a))
              then getSession env this_config (na_sessionId a) w = (Throw e, w')
              else e = error_message (validateUrl URL_new security_config (na_url a))
                   /\ w' = w
          end) /\
  (forall args,
      interaction_execute env this_config joi_message type_error args w
      = (Ok (ToolError e), w')
      <-> match args with
          | None => e = type_error (str "sessionId") /\ w' = w
          | Some a =>
              if valid (validateSelector joi_message (ia_selector a))
              then getSession env this_config (ia_sessionId a) w = (Throw e, w')
              else e = error_message (validateSelector joi_message (ia_selector a))
                   /\ w' = w
          end) /\
  (forall args,
      script_execute env this_config joi_message evaluate_script type_error args w
      = (Ok (ToolError e), w')
      <-> match args with
          | None => e = type_error (str "sessionId") /\ w' = w
          | Some a =>
              if valid (validateScript joi_message (sa_script a))
              then getSession env this_config (sa_sessionId a) w = (Throw e, w')
              else e = error_message (validateScript joi_message (sa_script a))
                   /\ w' = w
          end) /\
  (forall args,
      screenshot_execute env this_config joi_message type_error args w
      = (Ok (ToolError e), w')
      <-> match args with
          | None => e = type_error (str "sessionId") /\ w' = w
          | Some a => getSession env this_config (ca_sessionId a) w = (Throw e, w')
          end).
Proof.
  split; [|split; [|split]]; intros [a|]; try apply tool_undefined_iff.
  - unfold navigation_execute. rewrite tool_error_iff.
    unfold navigate, security_validateUrl. cbv zeta. rewrite guarded_throw_iff.
    destruct (valid _); [|reflexivity]. apply bind_soft. soft.
  - unfold interaction_execute. rewrite tool_error_iff.
    unfold interactElement, security_validateSelector. cbv zeta.
    cbn [selector]. rewrite guarded_throw_iff.
    destruct (valid _); [|reflexivity]. apply bind_soft. soft.
  - unfold script_execute. rewrite tool_error_iff.
    unfold executeScript. cbv zeta. cbn [script]. rewrite guarded_throw_iff.
    destruct (valid _); [|reflexivity]. apply bind_soft. soft.
  - unfold screenshot_execute. rewrite tool_error_iff.
    unfold screenshot. apply bind_soft. soft.
Qed.

Lemma or_num_default (t : option Z) (d d' : Z) :
  d <> 0%Z -> or_num (Some (or_num t d)) d' = or_num t d.
Proof.
  intros Hd. destruct t as [[| |]|]; cbn [or_num]; try reflexivity;
    destruct d; try reflexivity; contradiction.
Qed.

Lemma session_call_goto_timeout t c : session_call c -> goto_timeout t c.
Proof. destruct c; simpl; intros H; solve [exact I | destruct H]. Qed.

(** X25.  Through the navigation tool, every navigate-to call runs under
    the timeout of the request, or under 30000 ms when the request gives
    none (or zero): the timeout of the browser configuration never
    applies.  A request without arguments makes no call at all. *)
Theorem navigation_tool_timeout :
  (forall a,
      only (goto_timeout (or_num (na_timeout a) 30000))
           (navigation_execute env this_config URL_new security_config type_error
                               (Some a))) /\
  only (fun _ => False)
       (navigation_execute env this_config URL_new security_config type_error None).
Proof.
  split; [|unfold navigation_execute; repeat step_by ltac:(idtac)].
  intros a.
  assert (Hg : forall p u wu,
             goto_timeout (or_num (na_timeout a) 30000)
               (Goto p u wu
                  (or_num (Some (or_num (na_timeout a) 30000))
                          (or_num (timeout this_config) 30000)))).
  { intros. simpl. apply or_num_default. discriminate. }
  unfold navigation_execute.
  apply only_try_catch; [|intros ?; apply only_ret].
  apply only_bind; [|intros ?; apply only_ret].
  unfold navigate. cbv zeta. cbn [nav_timeout waitUntil].
  apply only_guard; intros _.
  apply only_bind.
  { eapply only_weaken; [|apply getSession_calls]. apply session_call_goto_timeout. }
  intros session.
  repeat step_by ltac:(first [apply Hg | exact I]).
Qed.










(** X26.  [getSession] without an identifier ([undefined], or the empty
    string) never hands out an existing session: the session it returns has
    a context and a page that no session of the map had, and it is stored
    under its own identifier. *)
Theorem getSession_anonymous_fresh sid w s w1 :
  wf this_config w ->
  truthy_str sid = false ->
  getSession env this_config sid w = (Ok s, w1) ->
  (forall k s0, map_get k (sessions w) = Some s0 ->
                context s0 <> context s /\ page s0 <> page s) /\
  map_get (id s) (sessions w1) = Some s /\
  wf this_config w1.
Proof.
  intros Hwf Hsid H.
  destruct (getSession_cases _ _ _ _ H) as [k [Hk [Hs [Hm [Hold|Hnew]]]]].
  { destruct Hold as [s0 [-> _]]. destruct k; [contradiction | discriminate]. }
  destruct Hnew as [ctx [pg [t1 [t2 [-> [_ [L1 [L2 _]]]]]]]].
  split; [|split].
  - intros k0 s0 Hg. apply map_get_In in Hg.
    pose proof (wf_entries Hwf) as F. rewrite Forall_forall in F.
    destruct (F _ Hg) as [_ [_ [_ [C P]]]]. cbn [snd context page] in *. split; lia.
  - cbn [id]. rewrite Hm. apply map_get_set_same.
  - eapply getSession_wf; eassumption.
Qed.

(** X27.  [humanDelay] sleeps once, for a time between its two bounds, when
    the random draw is in its range. *)
Theorem humanDelay_bounds minMs maxMs w :
  (0 <= random env (ticks w) (maxMs - minMs + 1) < maxMs - minMs + 1)%Z ->
  exists r ms w',
    humanDelay env minMs maxMs w = (r, w') /\
    trace w' = trace w ++ [Sleep ms] /\ (minMs <= ms <= maxMs)%Z.
Proof.
  intros Hr. unfold humanDelay. cbv [bind draw call_ ret].
  cbn [trace tick].
  destruct (answer env (trace w) (Sleep (random env (ticks w) (maxMs - minMs + 1) + minMs)));
    eexists; eexists; eexists; (split; [reflexivity|]);
    cbn [trace with_trace tick]; (split; [reflexivity|lia]).
Qed.

Lemma or_str_nil (a : option jsstring) (s : jsstring) :
  s <> [] -> or_str a [] = s -> a = Some s.
Proof.
  intros Hs H. destruct a as [[|c t]|]; cbn [or_str] in H; congruence.
Qed.

Lemma session_call_capture_ok o c : session_call c -> capture_ok o c.
Proof. destruct c; simpl; intros H; solve [exact I | destruct H]. Qed.

Lemma capture_options_ok o :
  let opts :=
    mkScreenshotOptions
      (or_str (format o) (str "png")) (truthy_bool (fullPage o))
      (if truthy_num (quality o) && eqb (or_str (format o) []) (str "jpeg")
       then quality o else None)
      (clip o) in
  so_type opts = or_str (format o) (str "png") /\
  (so_quality opts = None \/
   so_quality opts = quality o /\ format o = Some (str "jpeg") /\
   truthy_num (quality o) = true).
Proof.
  cbv zeta. cbn [so_type so_quality]. split; [reflexivity|].
  destruct (truthy_num (quality o)); cbn [andb]; [|auto].
  destruct (eqb (or_str (format o) []) (str "jpeg")) eqn:E; [|auto].
  right. apply eqb_eq in E. apply or_str_nil in E; [auto | discriminate].
Qed.

(** X28.  Every capture [screenshot] asks of the browser has the format of
    the request, [png] when it gives none, and carries a quality only when
    the request gives one, other than 0, together with the format [jpeg]:
    for any other format the quality of the request is dropped. *)
Theorem screenshot_quality_only_jpeg sid o :
  only (capture_ok o) (screenshot env this_config joi_message sid o).
Proof.
  pose proof (capture_options_ok o) as Hc. cbv zeta in Hc.
  unfold screenshot. cbv zeta.
  apply only_bind.
  { eapply only_weaken; [|apply getSession_calls]. apply session_call_capture_ok. }
  intros session.
  repeat match goal with
         | |- only _ (simulateHumanBehavior _ _) =>
             unfold simulateHumanBehavior; cbv beta iota fix
         | |- only _ (waitForWordPressReady _ _) => unfold waitForWordPressReady
         | |- only _ (best_effort _) => unfold best_effort
         | _ => step_by ltac:(first [exact I | exact Hc])
         end.
Qed.

End OperationProperties.

(* ================================================================== *)
(** ** The further properties on examples *)

Lemma createSession_failure_witness :
  exists e w',
    createSession (refusing is_new_context) plain_config (Some (str "a")) initial
    = (Throw e, w') /\
    sessions w' = sessions initial /\
    ((browser initial = None /\ exists m, e = str "Browser initialization failed: " ++ m) \/
     exists m, e = str "Session creation failed: " ++ m).
Proof.
  eexists. eexists. split; [vm_compute; reflexivity|].
  eapply createSession_failure with (env := refusing is_new_context)
                                    (this_config := plain_config)
                                    (sid := Some (str "a")).
  vm_compute. reflexivity.
Defined.

Lemma createSession_launches_once_witness :
  exists r w',
    createSession willing plain_config (Some (str "a")) initial = (r, w') /\
    (forall b, browser initial = Some b ->
       exists d, trace w' = trace initial ++ d /\ filter is_launch d = []) /\
    (browser initial = None ->
       exists h a d, trace w' = trace initial ++ Launch h a :: d /\ filter is_launch d = []).
Proof.
  eexists. eexists. split; [vm_compute; reflexivity|].
  eapply createSession_launches_once with (env := willing) (this_config := plain_config)
                                          (sid := Some (str "a")).
  vm_compute. reflexivity.
Defined.

Lemma open_then_close_witness :
  exists s w1 w2,
    getSession willing plain_config (Some (str "a")) initial = (Ok s, w1) /\
    closeSession willing (str "a") w1 = (Ok tt, w2) /\
    sessions w2 = sessions initial /\
    trace w2 = trace w1 ++ [ContextClose (context s)].
Proof.
  eexists. eexists. eexists.
  split; [vm_compute; reflexivity|]. split; [vm_compute; reflexivity|].
  eapply open_then_close with (env := willing) (this_config := plain_config)
                              (k := str "a") (w := initial).
  - discriminate.
  - reflexivity.
  - vm_compute. reflexivity.
  - vm_compute. reflexivity.
Defined.

Lemma getSession_touch_witness :
  exists s0,
    map_get (str "a") (sessions (one_session willing plain_config)) = Some s0 /\
    exists w1,
      getSession willing plain_config (Some (str "a")) (one_session willing plain_config)
      = (Ok (mkSession (id s0) (context s0) (page s0) (createdAt s0)
                       (clock willing (ticks (one_session willing plain_config)))
                       (config s0)), w1) /\
      trace w1 = trace (one_session willing plain_config) /\
      browser w1 = browser (one_session willing plain_config) /\
      next_handle w1 = next_handle (one_session willing plain_config) /\
      map_get (str "a") (sessions w1)
      = Some (mkSession (id s0) (context s0) (page s0) (createdAt s0)
                        (clock willing (ticks (one_session willing plain_config)))
                        (config s0)) /\
      forall k', k' <> str "a" ->
                 map_get k' (sessions w1)
                 = map_get k' (sessions (one_session willing plain_config)).
Proof.
  eexists. split; [vm_compute; reflexivity|].
  apply getSession_touch; [discriminate | vm_compute; reflexivity].
Defined.

Lemma navigate_targets_witness :
  exists r w',
    navigate willing plain_config sample_URL defaultSecurityConfig
             (str "https://example.com/products/item") None
             (mkNavigateOptions None None) initial
    = (r, w') /\
    (valid (validateUrl sample_URL defaultSecurityConfig
              (str "https://example.com/products/item")) = false ->
     r = Throw (error_message (validateUrl sample_URL defaultSecurityConfig
                                 (str "https://example.com/products/item"))) /\
     w' = initial) /\
    exists d, trace w' = trace initial ++ d /\
              Forall (goto_ok sample_URL defaultSecurityConfig
                        (str "https://example.com/products/item")) d.
Proof.
  eexists. eexists. split; [vm_compute; reflexivity|].
  eapply navigate_targets with (env := willing) (this_config := plain_config)
                               (sid := None) (o := mkNavigateOptions None None).
  vm_compute. reflexivity.
Defined.

Lemma navigate_homepage_failure_witness :
  exists s w1,
    getSession (refusing goto_origin) plain_config None initial = (Ok s, w1) /\
    navigate (refusing goto_origin) plain_config sample_URL defaultSecurityConfig
             (str "https://example.com/products/item") None
             (mkNavigateOptions None None) initial
    = (Ok (mkNavigationResult false (str "https://example.com/products/item")
                              None None (Some (str "refused"))),
       with_trace w1
         (trace w1 ++
          [Goto (page s)
                (origin (mkURL (str "https:") (str "example.com") (str "https://example.com")))
                (str "domcontentloaded")
                (or_num (nav_timeout (mkNavigateOptions None None))
                        (or_num (timeout plain_config) 30000))])).
Proof.
  eexists. eexists. split; [vm_compute; reflexivity|].
  apply navigate_homepage_failure
    with (env := refusing goto_origin) (this_config := plain_config)
         (URL_new := sample_URL) (security_config := defaultSecurityConfig)
         (url := str "https://example.com/products/item") (sid := None)
         (o := mkNavigateOptions None None) (w := initial)
         (u := mkURL (str "https:") (str "example.com") (str "https://example.com"))
         (e := str "refused");
    vm_compute; reflexivity.
Defined.

Lemma extractContent_selector_formats_witness :
  extractContent willing plain_config sample_joi_message None
    (mkContentExtractionOptions (Some (str "markdown")) (Some (str "#main")) None None)
    initial
  = extractContent willing plain_config sample_joi_message None
      (mkContentExtractionOptions (Some (str "text")) (Some (str "#main")) None None)
      initial.
Proof.
  apply (@extractContent_selector_formats willing plain_config sample_joi_message None
           (mkContentExtractionOptions (Some (str "markdown")) (Some (str "#main")) None None)
           initial 35%N (str "main")).
  - reflexivity.
  - vm_compute. reflexivity.
Defined.

Lemma getSession_anonymous_fresh_witness :
  exists s w1,
    getSession willing plain_config None (two_sessions willing plain_config) = (Ok s, w1) /\
    (forall k s0,
        map_get k (sessions (two_sessions willing plain_config)) = Some s0 ->
        context s0 <> context s /\ page s0 <> page s) /\
    map_get (id s) (sessions w1) = Some s /\
    wf plain_config w1.
Proof.
  eexists. eexists. split; [vm_compute; reflexivity|].
  apply getSession_anonymous_fresh with (env := willing) (sid := None).
  - exact two_sessions_willing_wf.
  - reflexivity.
  - vm_compute. reflexivity.
Defined.

Lemma humanDelay_bounds_witness :
  exists r ms w',
    humanDelay willing 800 1500 initial = (r, w') /\
    trace w' = trace initial ++ [Sleep ms] /\ (800 <= ms <= 1500)%Z.
Proof.
  apply humanDelay_bounds. vm_compute. split; [discriminate | reflexivity].
Defined.
